(** * chunking-demo: the producer's frame slicer and session state machine
      (src/App.js) and the consumer's upload aggregator (src/server.mjs).

    JavaScript numbers that hold byte counts and offsets are integers well
    below 2^53, so they are modelled as [Z].  An [ArrayBuffer] or a Node
    [Buffer] is the list of its bytes.  A loop that the source does not bound
    is run with fuel: [None] means that the fuel ran out before the loop
    exited.

    React state and refs of the component are the fields of one record; a
    closure that a handler keeps over a render's [const] is a field of the
    object that holds the handler.  The variables of a server connection are
    the fields of one record, S3 and the socket are a world that is asked at
    each [await] and each send, and every [async] handler is run to its end
    before the next event is handled. *)

From Stdlib Require Import String Strings.Byte.
From Stdlib Require Import ZArith List Lia Bool.
Import ListNotations.
Local Open Scope Z_scope.

(* ===================================================================== *)
(** ** src/App.js, [sliceIntoChunks]                                      *)
(* ===================================================================== *)

Module Slicer.

Definition ArrayBuffer := list byte.

Definition byteLength (b : ArrayBuffer) : Z := Z.of_nat (length b).

(** A relative index of [ArrayBuffer.prototype.slice]: a negative one counts
    from the end, and the result is clamped to [0 .. len]. *)
Definition relativeIndex (len rel : Z) : Z :=
  if rel <? 0 then Z.max (len + rel) 0 else Z.min rel len.

(** [arrayBuffer.slice(begin, end)]. *)
Definition slice (b : ArrayBuffer) (begin end_ : Z) : ArrayBuffer :=
  let len := byteLength b in
  let first := relativeIndex len begin in
  let final := relativeIndex len end_ in
  let newLen := Z.max (final - first) 0 in
  firstn (Z.to_nat newLen) (skipn (Z.to_nat first) b).

(** [for (let o = ...; o < arrayBuffer.byteLength; o += size)
       out.push(arrayBuffer.slice(o, o + size));  return out;] *)
Fixpoint slice_loop (fuel : nat) (arrayBuffer : ArrayBuffer) (size o : Z)
    (out : list ArrayBuffer) : option (list ArrayBuffer) :=
  match fuel with
  | O => None
  | S fuel' =>
      if o <? byteLength arrayBuffer
      then slice_loop fuel' arrayBuffer size (o + size)
             (out ++ [slice arrayBuffer o (o + size)])
      else Some out
  end.

(** [!size]: [None] is an argument left [undefined]. *)
Definition not_ (size : option Z) : bool :=
  match size with
  | None => true
  | Some n => n =? 0
  end.

Definition sliceIntoChunks (fuel : nat) (arrayBuffer : ArrayBuffer)
    (size : option Z) : option (list ArrayBuffer) :=
  if not_ size then Some [arrayBuffer]
  else match size with
       | Some n => slice_loop fuel arrayBuffer n 0 []
       | None => Some [arrayBuffer]
       end.

(** ceil(len / size) for a positive [size]. *)
Definition ceil_div (len size : Z) : Z := (len + size - 1) / size.

End Slicer.

(* ===================================================================== *)
(** ** src/App.js, the [App] component                                    *)
(* ===================================================================== *)

Module Producer.
Import Slicer.

Definition CHUNK_SIZE : Z := 256 * 1024.
Definition BACKPRESSURE_HIGH : Z := 4 * 1024 * 1024.

(** The values of the [status] state variable. *)
Inductive Status :=
  Idle | Connecting | StartingUpload | Ready | Recording | Stopping | Completed | Error.

Definition Status_eqb (a b : Status) : bool :=
  match a, b with
  | Idle, Idle | Connecting, Connecting | StartingUpload, StartingUpload
  | Ready, Ready | Recording, Recording | Stopping, Stopping
  | Completed, Completed | Error, Error => true
  | _, _ => false
  end.

Inductive ReadyState := CONNECTING | OPEN | CLOSING | CLOSED.

Definition isOPEN (r : ReadyState) : bool :=
  match r with OPEN => true | _ => false end.

(** The socket object held by [wsRef].  Its handlers are the closures made by
    the call of [startConnection] that created it; [status] is a [const] of the
    render in which that call ran, so the handlers keep reading the value it
    had then: [handlers_status]. *)
Record WebSocket := {
  readyState : ReadyState;
  handlers_status : Status
}.

Inductive Promise := Pending | Resolved.
Inductive RecorderState := inactive | recording.

(** What the component hands to the socket's [send]. *)
Inductive Sent :=
| send_start
| send_stop
| send_binary (c : ArrayBuffer).

Inductive Console :=
| console_log (s : string)
| console_warn (s : string)
| console_error (s : string).

(** React state ([useState]), refs ([useRef]) and what has left the component
    (socket sends, console lines, calls of the promise's resolver). *)
Record App := {
  status : Status;
  partsUploaded : Z;
  bytesSent : Z;
  uploadKey : option string;
  errorMsg : option string;
  wsRef : option WebSocket;
  recorderRef : option RecorderState;
  srcObject : bool;
  sessionReadyPromiseRef : option Promise;
  sessionReadyRef : bool;
  resolveCalls : nat;
  sent : list Sent;
  console : list Console
}.

Definition initial : App :=
  {| status := Idle; partsUploaded := 0; bytesSent := 0; uploadKey := None;
     errorMsg := None; wsRef := None; recorderRef := None; srcObject := false;
     sessionReadyPromiseRef := None; sessionReadyRef := false;
     resolveCalls := 0; sent := []; console := [] |}.

Definition setStatus (v : Status) (a : App) : App :=
  {| status := v; partsUploaded := partsUploaded a; bytesSent := bytesSent a;
     uploadKey := uploadKey a; errorMsg := errorMsg a; wsRef := wsRef a;
     recorderRef := recorderRef a; srcObject := srcObject a;
     sessionReadyPromiseRef := sessionReadyPromiseRef a;
     sessionReadyRef := sessionReadyRef a; resolveCalls := resolveCalls a;
     sent := sent a; console := console a |}.

Definition setPartsUploaded (v : Z) (a : App) : App :=
  {| status := status a; partsUploaded := v; bytesSent := bytesSent a;
     uploadKey := uploadKey a; errorMsg := errorMsg a; wsRef := wsRef a;
     recorderRef := recorderRef a; srcObject := srcObject a;
     sessionReadyPromiseRef := sessionReadyPromiseRef a;
     sessionReadyRef := sessionReadyRef a; resolveCalls := resolveCalls a;
     sent := sent a; console := console a |}.

Definition setBytesSent (v : Z) (a : App) : App :=
  {| status := status a; partsUploaded := partsUploaded a; bytesSent := v;
     uploadKey := uploadKey a; errorMsg := errorMsg a; wsRef := wsRef a;
     recorderRef := recorderRef a; srcObject := srcObject a;
     sessionReadyPromiseRef := sessionReadyPromiseRef a;
     sessionReadyRef := sessionReadyRef a; resolveCalls := resolveCalls a;
     sent := sent a; console := console a |}.

Definition setUploadKey (v : option string) (a : App) : App :=
  {| status := status a; partsUploaded := partsUploaded a; bytesSent := bytesSent a;
     uploadKey := v; errorMsg := errorMsg a; wsRef := wsRef a;
     recorderRef := recorderRef a; srcObject := srcObject a;
     sessionReadyPromiseRef := sessionReadyPromiseRef a;
     sessionReadyRef := sessionReadyRef a; resolveCalls := resolveCalls a;
     sent := sent a; console := console a |}.

Definition setErrorMsg (v : option string) (a : App) : App :=
  {| status := status a; partsUploaded := partsUploaded a; bytesSent := bytesSent a;
     uploadKey := uploadKey a; errorMsg := v; wsRef := wsRef a;
     recorderRef := recorderRef a; srcObject := srcObject a;
     sessionReadyPromiseRef := sessionReadyPromiseRef a;
     sessionReadyRef := sessionReadyRef a; resolveCalls := resolveCalls a;
     sent := sent a; console := console a |}.

Definition set_wsRef (v : option WebSocket) (a : App) : App :=
  {| status := status a; partsUploaded := partsUploaded a; bytesSent := bytesSent a;
     uploadKey := uploadKey a; errorMsg := errorMsg a; wsRef := v;
     recorderRef := recorderRef a; srcObject := srcObject a;
     sessionReadyPromiseRef := sessionReadyPromiseRef a;
     sessionReadyRef := sessionReadyRef a; resolveCalls := resolveCalls a;
     sent := sent a; console := console a |}.

Definition set_recorderRef (v : option RecorderState) (a : App) : App :=
  {| status := status a; partsUploaded := partsUploaded a; bytesSent := bytesSent a;
     uploadKey := uploadKey a; errorMsg := errorMsg a; wsRef := wsRef a;
     recorderRef := v; srcObject := srcObject a;
     sessionReadyPromiseRef := sessionReadyPromiseRef a;
     sessionReadyRef := sessionReadyRef a; resolveCalls := resolveCalls a;
     sent := sent a; console := console a |}.

Definition set_srcObject (v : bool) (a : App) : App :=
  {| status := status a; partsUploaded := partsUploaded a; bytesSent := bytesSent a;
     uploadKey := uploadKey a; errorMsg := errorMsg a; wsRef := wsRef a;
     recorderRef := recorderRef a; srcObject := v;
     sessionReadyPromiseRef := sessionReadyPromiseRef a;
     sessionReadyRef := sessionReadyRef a; resolveCalls := resolveCalls a;
     sent := sent a; console := console a |}.

Definition set_sessionReadyPromiseRef (v : option Promise) (a : App) : App :=
  {| status := status a; partsUploaded := partsUploaded a; bytesSent := bytesSent a;
     uploadKey := uploadKey a; errorMsg := errorMsg a; wsRef := wsRef a;
     recorderRef := recorderRef a; srcObject := srcObject a;
     sessionReadyPromiseRef := v;
     sessionReadyRef := sessionReadyRef a; resolveCalls := resolveCalls a;
     sent := sent a; console := console a |}.

Definition set_sessionReadyRef (v : bool) (a : App) : App :=
  {| status := status a; partsUploaded := partsUploaded a; bytesSent := bytesSent a;
     uploadKey := uploadKey a; errorMsg := errorMsg a; wsRef := wsRef a;
     recorderRef := recorderRef a; srcObject := srcObject a;
     sessionReadyPromiseRef := sessionReadyPromiseRef a;
     sessionReadyRef := v; resolveCalls := resolveCalls a;
     sent := sent a; console := console a |}.

Definition set_resolveCalls (v : nat) (a : App) : App :=
  {| status := status a; partsUploaded := partsUploaded a; bytesSent := bytesSent a;
     uploadKey := uploadKey a; errorMsg := errorMsg a; wsRef := wsRef a;
     recorderRef := recorderRef a; srcObject := srcObject a;
     sessionReadyPromiseRef := sessionReadyPromiseRef a;
     sessionReadyRef := sessionReadyRef a; resolveCalls := v;
     sent := sent a; console := console a |}.

Definition ws_send (m : Sent) (a : App) : App :=
  {| status := status a; partsUploaded := partsUploaded a; bytesSent := bytesSent a;
     uploadKey := uploadKey a; errorMsg := errorMsg a; wsRef := wsRef a;
     recorderRef := recorderRef a; srcObject := srcObject a;
     sessionReadyPromiseRef := sessionReadyPromiseRef a;
     sessionReadyRef := sessionReadyRef a; resolveCalls := resolveCalls a;
     sent := sent a ++ [m]; console := console a |}.

Definition console_write (c : Console) (a : App) : App :=
  {| status := status a; partsUploaded := partsUploaded a; bytesSent := bytesSent a;
     uploadKey := uploadKey a; errorMsg := errorMsg a; wsRef := wsRef a;
     recorderRef := recorderRef a; srcObject := srcObject a;
     sessionReadyPromiseRef := sessionReadyPromiseRef a;
     sessionReadyRef := sessionReadyRef a; resolveCalls := resolveCalls a;
     sent := sent a; console := console a ++ [c] |}.

(** [wsRef.current && wsRef.current.readyState === WebSocket.OPEN]. *)
Definition ws_is_open (a : App) : bool :=
  match wsRef a with
  | Some ws => isOPEN (readyState ws)
  | None => false
  end.

(** [resetSessionPromise]: a new pending promise, and the flag down. *)
Definition resetSessionPromise (a : App) : App :=
  set_sessionReadyRef false
    (set_resolveCalls 0 (set_sessionReadyPromiseRef (Some Pending) a)).

(** [resolveSessionReadyRef.current()]. *)
Definition resolveSessionReady (a : App) : App :=
  set_resolveCalls (S (resolveCalls a))
    (set_sessionReadyPromiseRef (Some Resolved) a).

(** The control messages of the server, after [JSON.parse(evt.data)];
    [other_message] is any value whose [type] is none of the four. *)
Inductive ServerMessage :=
| uploadInfo (key : string)
| partAck
| completed
| error (message : string)
| other_message.

Inductive MessageData :=
| not_JSON
| JSON (msg : ServerMessage).

(** [wsRef.current.onmessage], as installed by a [startConnection] that ran in
    a render whose [status] was [status_then]. *)
Definition onmessage (status_then : Status) (evt : MessageData) (a : App) : App :=
  match evt with
  | not_JSON => a
  | JSON (uploadInfo key) =>
      let a := setUploadKey (Some key) a in
      if negb (sessionReadyRef a)
      then setStatus Ready (resolveSessionReady (set_sessionReadyRef true a))
      else a
  | JSON partAck => setPartsUploaded (partsUploaded a + 1) a
  | JSON completed => setStatus Completed a
  | JSON (error message) =>
      let a := console_write (console_error "Server error:") a in
      let a := setErrorMsg (Some message) a in
      if negb (Status_eqb status_then Recording) then setStatus Error a else a
  | JSON other_message => a
  end.

(** [stopRecorderLocal], with [cleanupMedia]. *)
Definition stopRecorderLocal (a : App) : App :=
  let a := match recorderRef a with
           | Some recording => set_recorderRef (Some inactive) a
           | _ => a
           end in
  set_srcObject false a.

(** [startConnection], called from the render that shows [status a]. *)
Definition startConnection (a : App) : App :=
  if ws_is_open a then a
  else
    let status_then := status a in
    let a := resetSessionPromise a in
    let a := setStatus Connecting a in
    let a := setErrorMsg None a in
    set_wsRef (Some {| readyState := CONNECTING; handlers_status := status_then |}) a.

(** Events of the socket.  The transport changes [readyState] before it calls
    the handler. *)
Definition set_readyState (r : ReadyState) (a : App) : App :=
  match wsRef a with
  | Some ws => set_wsRef (Some {| readyState := r; handlers_status := handlers_status ws |}) a
  | None => a
  end.

Definition onopen (a : App) : App :=
  let a := set_readyState OPEN a in
  let a := setStatus StartingUpload a in
  let a := console_write (console_log "WS opened, sending start") a in
  ws_send send_start a.

Definition message_event (evt : MessageData) (a : App) : App :=
  match wsRef a with
  | Some ws => onmessage (handlers_status ws) evt a
  | None => a
  end.

Definition onerror (a : App) : App :=
  let a := console_write (console_error "WS error") a in
  let a := setErrorMsg (Some "WebSocket error"%string) a in
  setStatus Error a.

Definition onclose (a : App) : App :=
  match wsRef a with
  | Some ws =>
      let a := set_readyState CLOSED a in
      if Status_eqb (handlers_status ws) Recording
      then
        let a := stopRecorderLocal a in
        let a := setErrorMsg (Some "Connection lost during recording"%string) a in
        setStatus Error a
      else a
  | None => a
  end.

(** [ensureSessionReady] returns at once when the flag is up, and otherwise
    awaits the promise ([await] of a [null] ref or of a resolved promise goes
    on; of a pending one it suspends). *)
Definition ensureSessionReady_passes (a : App) : bool :=
  sessionReadyRef a
  || match sessionReadyPromiseRef a with
     | Some Pending => false
     | _ => true
     end.

(** What [startRecording] finds in the browser. *)
Inductive Media :=
| no_MediaRecorder
| getUserMedia_rejects (message : string)
| media_ok.

(** [startRecording]; [None] while it is suspended on the session promise. *)
Definition startRecording (m : Media) (a : App) : option App :=
  if ensureSessionReady_passes a then
    match m with
    | no_MediaRecorder =>
        Some (setStatus Error (setErrorMsg (Some "MediaRecorder not supported"%string) a))
    | getUserMedia_rejects message =>
        Some (setStatus Error (setErrorMsg (Some message)
               (console_write (console_error message) a)))
    | media_ok =>
        let a := set_srcObject true a in
        let a := set_recorderRef (Some recording) a in
        let a := setStatus Recording a in
        let a := setPartsUploaded 0 a in
        Some (setBytesSent 0 a)
    end
  else None.

(** [stopRecording], called from the render that shows [status a]. *)
Definition stopRecording (a : App) : App :=
  if negb (Status_eqb (status a) Recording) then a
  else
    let a := setStatus Stopping a in
    let a := stopRecorderLocal a in
    if ws_is_open a
    then set_sessionReadyRef false (ws_send send_stop a)
    else a.

Definition canConnect (a : App) : bool :=
  match status a with
  | Idle | Error | Completed => true
  | _ => false
  end.

Definition canRecord (a : App) : bool := Status_eqb (status a) Ready.
Definition canStop (a : App) : bool := Status_eqb (status a) Recording.

(** *** The send loop of [recorder.ondataavailable] *)

(** What one look at [wsRef.current] finds of the transport's side: the
    transport moves [readyState] and [bufferedAmount] while the handler is
    suspended, so a run is given the sequence of what its looks find. *)
Record Channel := {
  ch_readyState : ReadyState;
  ch_bufferedAmount : Z
}.

(** [wsRef.current && wsRef.current.readyState === WebSocket.OPEN] at a look. *)
Definition transmit_ready (a : App) (c : Channel) : bool :=
  match wsRef a with
  | Some _ => isOPEN (ch_readyState c)
  | None => false
  end.

(** [while (wsRef.current && ... OPEN && bufferedAmount > BACKPRESSURE_HIGH)
       await new Promise(r => setTimeout(r, 50));]
    from look [t]; the result is the look at which the loop exits. *)
Fixpoint backpressure_wait (fuel : nat) (a : App) (chan : nat -> Channel) (t : nat)
    : option nat :=
  match fuel with
  | O => None
  | S fuel' =>
      if transmit_ready a (chan t) && (BACKPRESSURE_HIGH <? ch_bufferedAmount (chan t))
      then backpressure_wait fuel' a chan (S t)
      else Some t
  end.

(** How a handler ends: the source of the send loop has no [throw]. *)
Inductive Completion :=
| returned
| threw (what : string).

(** [for (const c of chunks) { ...wait...; if (OPEN) { send(c); setBytesSent }
      else { console.warn(...); break; } }] *)
Fixpoint send_chunks (fuel : nat) (chan : nat -> Channel) (t : nat)
    (chunks : list ArrayBuffer) (a : App) : option (App * Completion) :=
  match chunks with
  | [] => Some (a, returned)
  | c :: rest =>
      match backpressure_wait fuel a chan t with
      | None => None
      | Some t' =>
          if transmit_ready a (chan t')
          then
            let a := ws_send (send_binary c) a in
            let a := setBytesSent (bytesSent a + byteLength c) a in
            send_chunks fuel chan (S t') rest a
          else Some (console_write (console_warn "Socket closed mid-send") a, returned)
      end
  end.

(** [recorder.ondataavailable] for a blob whose bytes are [data]. *)
Definition ondataavailable (fuel : nat) (chan : nat -> Channel) (data : ArrayBuffer)
    (a : App) : option (App * Completion) :=
  if byteLength data =? 0 then Some (a, returned)
  else if negb (sessionReadyRef a) then Some (a, returned)
  else
    match sliceIntoChunks fuel data (Some CHUNK_SIZE) with
    | None => None
    | Some chunks => send_chunks fuel chan 0 chunks a
    end.

(** *** The component as a transition system *)

(** What can happen to the component.  A button that the render disables
    ([canConnect], [canRecord], [canStop]) cannot be clicked. *)
Inductive Event :=
| click_Connect
| click_Record (m : Media)
| click_Stop
| socket_open
| socket_message (evt : MessageData)
| socket_error
| socket_close
| dataavailable (fuel : nat) (chan : nat -> Channel) (data : ArrayBuffer).

(** One event handled to its end, and then the next.  The handler of a
    blob is [async]: it suspends in [await e.data.arrayBuffer()] and in each
    50 ms wait of its send loop, and an event that occurs meanwhile is
    handled then and there.  [step] and [run] describe the executions in
    which none occurs at such a moment; handlers that overlap are described
    apart, by the handler cut at its awaits (ProducerOverlap and
    ProducerOverlapStop). *)
Definition step (e : Event) (a : App) : App :=
  match e with
  | click_Connect => if canConnect a then startConnection a else a
  | click_Record m =>
      if canRecord a
      then match startRecording m a with Some a' => a' | None => a end
      else a
  | click_Stop => if canStop a then stopRecording a else a
  | socket_open => match wsRef a with Some _ => onopen a | None => a end
  | socket_message evt => message_event evt a
  | socket_error => match wsRef a with Some _ => onerror a | None => a end
  | socket_close => onclose a
  | dataavailable fuel chan data =>
      match recorderRef a with
      | Some _ =>
          match ondataavailable fuel chan data a with
          | Some (a', _) => a'
          | None => a
          end
      | None => a
      end
  end.

Definition run (events : list Event) (a : App) : App :=
  fold_left (fun a e => step e a) events a.

End Producer.

(* ===================================================================== *)
(** ** src/server.mjs, the handlers of one connection                     *)
(* ===================================================================== *)

Module Aggregator.

Definition Buffer := list byte.

(** [data.length] *)
Definition Buffer_length (b : Buffer) : Z := Z.of_nat (length b).

(** [Buffer.concat(list, totalLength)]: the buffers in order, cut or
    zero-filled to [totalLength] bytes. *)
Definition Buffer_concat (l : list Buffer) (totalLength : Z) : Buffer :=
  let n := Z.to_nat totalLength in
  firstn n (concat l ++ repeat "000"%byte n).

Definition BUCKET : string := "vibhav-live-video".
Definition MIN_PART_SIZE : Z := 5 * 1024 * 1024.
Definition TARGET_PART_SIZE : Z := 6 * 1024 * 1024.

Record Part := {
  PartNumber : Z;
  ETag : string
}.

(** The object held by [session]; [session_key] is its [key] property. *)
Record Session := {
  session_key : option string;
  uploadId : string;
  parts : list Part
}.

Inductive S3Command :=
| CreateMultipartUploadCommand (Key : option string)
| UploadPartCommand (Key : option string) (UploadId : string) (PartNumber : Z) (Body : Buffer)
| CompleteMultipartUploadCommand (Key : option string) (UploadId : string) (Parts : list Part)
| AbortMultipartUploadCommand (Key : option string) (UploadId : string)
| PutObjectCommand (Key : option string) (Body : Buffer).

(** What [await s3.send(command)] gives: the property of the response that the
    caller reads ([UploadId], [ETag] or [Location]), or a rejection. *)
Inductive S3Result :=
| s3_ok (value : string)
| s3_error (message : string).

(** The control messages that [sendJSON] writes. *)
Inductive ControlMessage :=
| uploadInfo (key : option string) (uploadId : option string) (deferred : bool)
| partAck (partNumber : Z) (size : Z) (etag : string)
| completed (location : string) (key : option string)
| error (message : string).

(** What the connection has done to the outside, in order. *)
Inductive Effect :=
| s3_send (command : S3Command) (result : S3Result)
| ws_send (obj : ControlMessage).

(** The variables of the [connection] closure, and the effects so far. *)
Record State := {
  session : option Session;
  partNumber : Z;
  closed : bool;
  aggBuffers : list Buffer;
  aggBytes : Z;
  totalReceivedBytes : Z;
  usingMultipart : bool;
  key : option string;
  trace : list Effect
}.

Definition initial : State :=
  {| session := None; partNumber := 0; closed := false; aggBuffers := [];
     aggBytes := 0; totalReceivedBytes := 0; usingMultipart := false;
     key := None; trace := [] |}.

(** The outside of the connection.  Each answer may depend on how many effects
    have happened so far: what S3 answers to a command, whether the socket is
    OPEN when [sendJSON] looks, and the key made from [Date.now()] and
    [uuid()]. *)
Record World := {
  s3 : nat -> S3Command -> S3Result;
  ws_OPEN : nat -> bool;
  new_key : nat -> string
}.

(** How an [async] function ends. *)
Inductive Result (A : Type) :=
| Return (v : A)
| Throw (message : string).
Arguments Return {A} v.
Arguments Throw {A} message.

(** An [async] function of the connection, run to its end: every [await] is
    answered by the world before anything else touches the state. *)
Definition Async (A : Type) : Type := World -> State -> Result A * State.

Definition ret {A} (v : A) : Async A := fun _ st => (Return v, st).

Definition bind {A B} (m : Async A) (k : A -> Async B) : Async B :=
  fun w st =>
    match m w st with
    | (Return v, st') => k v w st'
    | (Throw e, st') => (Throw e, st')
    end.

Notation "x <- m ;; k" := (bind m (fun x => k))
  (at level 61, m at next level, right associativity).
Notation "m ;;; k" := (bind m (fun _ => k))
  (at level 61, right associativity).

Definition throw {A} (message : string) : Async A := fun _ st => (Throw message, st).

Definition get : Async State := fun _ st => (Return st, st).
Definition modify (f : State -> State) : Async unit := fun _ st => (Return tt, f st).

(** [try { body } catch (e) { handler(e) }] *)
Definition try_catch {A} (body : Async A) (handler : string -> Async A) : Async A :=
  fun w st =>
    match body w st with
    | (Return v, st') => (Return v, st')
    | (Throw e, st') => handler e w st'
    end.

(** [try { body } finally { finalizer }] *)
Definition try_finally {A} (body : Async A) (finalizer : Async unit) : Async A :=
  fun w st =>
    match body w st with
    | (r, st') =>
        match finalizer w st' with
        | (Return _, st'') => (r, st'')
        | (Throw e, st'') => (Throw e, st'')
        end
    end.

Definition set_session (v : option Session) (st : State) : State :=
  {| session := v; partNumber := partNumber st; closed := closed st;
     aggBuffers := aggBuffers st; aggBytes := aggBytes st;
     totalReceivedBytes := totalReceivedBytes st;
     usingMultipart := usingMultipart st; key := key st; trace := trace st |}.

Definition set_partNumber (v : Z) (st : State) : State :=
  {| session := session st; partNumber := v; closed := closed st;
     aggBuffers := aggBuffers st; aggBytes := aggBytes st;
     totalReceivedBytes := totalReceivedBytes st;
     usingMultipart := usingMultipart st; key := key st; trace := trace st |}.

Definition set_closed (v : bool) (st : State) : State :=
  {| session := session st; partNumber := partNumber st; closed := v;
     aggBuffers := aggBuffers st; aggBytes := aggBytes st;
     totalReceivedBytes := totalReceivedBytes st;
     usingMultipart := usingMultipart st; key := key st; trace := trace st |}.

Definition set_agg (buffers : list Buffer) (bytes : Z) (st : State) : State :=
  {| session := session st; partNumber := partNumber st; closed := closed st;
     aggBuffers := buffers; aggBytes := bytes;
     totalReceivedBytes := totalReceivedBytes st;
     usingMultipart := usingMultipart st; key := key st; trace := trace st |}.

Definition set_totalReceivedBytes (v : Z) (st : State) : State :=
  {| session := session st; partNumber := partNumber st; closed := closed st;
     aggBuffers := aggBuffers st; aggBytes := aggBytes st;
     totalReceivedBytes := v;
     usingMultipart := usingMultipart st; key := key st; trace := trace st |}.

Definition set_usingMultipart (v : bool) (st : State) : State :=
  {| session := session st; partNumber := partNumber st; closed := closed st;
     aggBuffers := aggBuffers st; aggBytes := aggBytes st;
     totalReceivedBytes := totalReceivedBytes st;
     usingMultipart := v; key := key st; trace := trace st |}.

Definition set_key (v : option string) (st : State) : State :=
  {| session := session st; partNumber := partNumber st; closed := closed st;
     aggBuffers := aggBuffers st; aggBytes := aggBytes st;
     totalReceivedBytes := totalReceivedBytes st;
     usingMultipart := usingMultipart st; key := v; trace := trace st |}.

Definition record (e : Effect) (st : State) : State :=
  {| session := session st; partNumber := partNumber st; closed := closed st;
     aggBuffers := aggBuffers st; aggBytes := aggBytes st;
     totalReceivedBytes := totalReceivedBytes st;
     usingMultipart := usingMultipart st; key := key st; trace := trace st ++ [e] |}.

(** [sendJSON]: written only [if (ws.readyState === ws.OPEN)]. *)
Definition sendJSON (obj : ControlMessage) : Async unit :=
  fun w st =>
    if ws_OPEN w (length (trace st))
    then (Return tt, record (ws_send obj) st)
    else (Return tt, st).

(** [await s3.send(command)] *)
Definition s3_await (command : S3Command) : Async string :=
  fun w st =>
    let result := s3 w (length (trace st)) command in
    let st' := record (s3_send command result) st in
    match result with
    | s3_ok value => (Return value, st')
    | s3_error message => (Throw message, st')
    end.

(** The message of the TypeError that reading [property] of [null] throws. *)
Definition TypeError_null (property : string) : string :=
  ("Cannot read properties of null (reading '" ++ property ++ "')")%string.

(** [startMultipart]; [key] is read again after the [await], and the flag is
    raised only then. *)
Definition startMultipart : Async unit :=
  st <- get ;;
  if usingMultipart st then ret tt
  else
    res_UploadId <- s3_await (CreateMultipartUploadCommand (key st)) ;;
    st1 <- get ;;
    modify (set_session (Some {| session_key := key st1; uploadId := res_UploadId;
                                 parts := [] |})) ;;;
    modify (set_usingMultipart true) ;;;
    sendJSON (uploadInfo (key st1) (Some res_UploadId) false).

(** [session.parts.push(part)] on the object that [session] holds then. *)
Definition push_part (p : Part) : Async unit :=
  st <- get ;;
  match session st with
  | Some s =>
      modify (set_session (Some {| session_key := session_key s; uploadId := uploadId s;
                                   parts := parts s ++ [p] |}))
  | None => throw (TypeError_null "parts")
  end.

(** [flushPart(isFinal)]; [partNumber] is read again after the [await]. *)
Definition flushPart (isFinal : bool) : Async unit :=
  st <- get ;;
  match usingMultipart st, session st with
  | true, Some s =>
      if aggBytes st =? 0 then ret tt
      else if negb isFinal && (aggBytes st <? MIN_PART_SIZE) then ret tt
      else
        modify (fun st => set_partNumber (partNumber st + 1) st) ;;;
        let body := Buffer_concat (aggBuffers st) (aggBytes st) in
        modify (set_agg [] 0) ;;;
        st1 <- get ;;
        uploadPartRes_ETag <-
          s3_await (UploadPartCommand (session_key s) (uploadId s) (partNumber st1) body) ;;
        st2 <- get ;;
        push_part {| PartNumber := partNumber st2; ETag := uploadPartRes_ETag |} ;;;
        sendJSON (partAck (partNumber st2) (Buffer_length body) uploadPartRes_ETag)
  | _, _ => ret tt
  end.

(** [session.parts.sort((a, b) => a.PartNumber - b.PartNumber)]: the sort of an
    array is stable. *)
Fixpoint insert_part (p : Part) (l : list Part) : list Part :=
  match l with
  | [] => [p]
  | q :: l' => if PartNumber p <? PartNumber q then p :: l else q :: insert_part p l'
  end.

Definition sort_parts (l : list Part) : list Part :=
  fold_left (fun acc p => insert_part p acc) l [].

(** [`s3://${BUCKET}/${key}`] *)
Definition single_put_location (k : option string) : string :=
  ("s3://" ++ BUCKET ++ "/" ++ match k with Some k => k | None => "null" end)%string.

(** [completeUpload] *)
Definition completeUpload : Async unit :=
  st <- get ;;
  if negb (usingMultipart st) then
    let singleBody := Buffer_concat (aggBuffers st) (aggBytes st) in
    s3_await (PutObjectCommand (key st) singleBody) ;;;
    sendJSON (completed (single_put_location (key st)) (key st))
  else
    flushPart true ;;;
    st <- get ;;
    match session st with
    | None => throw (TypeError_null "uploadId")
    | Some s =>
        let sorted := sort_parts (parts s) in
        modify (set_session (Some {| session_key := session_key s; uploadId := uploadId s;
                                     parts := sorted |})) ;;;
        completeRes_Location <-
          s3_await (CompleteMultipartUploadCommand (session_key s) (uploadId s) sorted) ;;
        sendJSON (completed completeRes_Location (session_key s))
    end.

(** A text frame after [JSON.parse(data.toString())]: the parse may throw,
    give [null] (reading [msg.type] then throws), or give a value whose
    [type] is read. *)
Inductive Control :=
| invalid_JSON
| parsed_null
| parsed (type : option string).

Inductive Message :=
| binary (data : Buffer)
| text (c : Control).

Definition type_is (type : option string) (name : string) : bool :=
  match type with
  | Some t => String.eqb t name
  | None => false
  end.

(** The [finally] block of the stop branch. *)
Definition reset (st : State) : State :=
  {| session := None; partNumber := 0; closed := closed st;
     aggBuffers := []; aggBytes := 0;
     totalReceivedBytes := totalReceivedBytes st;
     usingMultipart := false; key := None; trace := trace st |}.

Definition is_set (k : option string) : bool :=
  match k with Some _ => true | None => false end.

(** [`recordings/${Date.now()}-${uuid()}.webm`] *)
Definition make_key : Async string :=
  fun w st => (Return (new_key w (length (trace st))), st).

(** The branch [if (msg.type === 'start')]; the result tells whether the
    handler returned from inside it. *)
Definition on_start : Async bool :=
  st <- get ;;
  if is_set (key st) then
    sendJSON (error "Upload already in progress") ;;; ret true
  else
    k <- make_key ;;
    modify (set_key (Some k)) ;;;
    sendJSON (uploadInfo (Some k) None true) ;;;
    ret false.

(** The branch [if (msg.type === 'stop')]. *)
Definition on_stop : Async unit :=
  st <- get ;;
  if negb (is_set (key st)) then
    sendJSON (error "No active session to stop")
  else
    try_finally
      (try_catch completeUpload
         (fun _ => sendJSON (error "Complete multipart failed")))
      (modify reset).

(** The body of the outer [try] of [ws.on('message', ...)]. *)
Definition message_body (m : Message) : Async unit :=
  match m with
  | text invalid_JSON => sendJSON (error "Invalid JSON control message")
  | text parsed_null => throw (TypeError_null "type")
  | text (parsed type) =>
      returned <- (if type_is type "start" then on_start else ret false) ;;
      if returned then ret tt
      else if type_is type "stop" then on_stop
      else ret tt
  | binary data =>
      st <- get ;;
      if negb (is_set (key st)) then sendJSON (error "No active session")
      else
        modify (fun st => set_agg (aggBuffers st ++ [data])
                                  (aggBytes st + Buffer_length data) st) ;;;
        modify (fun st => set_totalReceivedBytes
                            (totalReceivedBytes st + Buffer_length data) st) ;;;
        st <- get ;;
        (if negb (usingMultipart st) && (MIN_PART_SIZE <=? aggBytes st)
         then startMultipart else ret tt) ;;;
        st <- get ;;
        if usingMultipart st && (TARGET_PART_SIZE <=? aggBytes st)
        then flushPart false else ret tt
  end.

(** [err.message || 'Upload error'] *)
Definition message_or_default (message : string) : string :=
  if String.eqb message "" then "Upload error"%string else message.

(** [ws.on('message', async (data, isBinary) => ...)] *)
Definition on_message (m : Message) : Async unit :=
  st <- get ;;
  if closed st then ret tt
  else try_catch (message_body m)
         (fun message => sendJSON (error (message_or_default message))).

(** [ws.on('close', ...)]: the rejection of the abort is swallowed. *)
Definition on_close : Async unit :=
  modify (set_closed true) ;;;
  st <- get ;;
  match usingMultipart st, session st with
  | true, Some s =>
      try_catch
        (s3_await (AbortMultipartUploadCommand (session_key s) (uploadId s)) ;;; ret tt)
        (fun _ => ret tt)
  | _, _ => ret tt
  end.

Inductive Event :=
| message (m : Message)
| close.

Definition handler (e : Event) : Async unit :=
  match e with
  | message m => on_message m
  | close => on_close
  end.

(** One event handled to its end, the S3 calls that its handler awaits
    settled, and then the next.  The handlers are [async]: a message that
    arrives while a handler awaits S3 is handled then and there.  [step] and
    [run] describe the executions in which none arrives at such a moment;
    handlers that overlap at an await are described apart, by the handlers
    cut at their awaits ([frame_until_begin] below, AggregatorOverlap and
    AggregatorOverlapStop). *)
Definition step (w : World) (st : State) (e : Event) : State :=
  snd (handler e w st).

Definition run (w : World) (events : list Event) (st : State) : State :=
  fold_left (step w) events st.

Definition start : Event := message (text (parsed (Some "start"%string))).
Definition stop : Event := message (text (parsed (Some "stop"%string))).
Definition frame (data : Buffer) : Event := message (binary data).

(** *** A binary frame, cut at the [await] inside [startMultipart] *)

(** The handler of a binary frame up to the point where [startMultipart]
    suspends on [s3.send(command)]: [Some command] then, [None] when the
    handler does not get there. *)
Definition frame_until_begin (data : Buffer) : Async (option S3Command) :=
  st <- get ;;
  if closed st then ret None
  else if negb (is_set (key st)) then
    sendJSON (error "No active session") ;;; ret None
  else
    modify (fun st => set_agg (aggBuffers st ++ [data])
                              (aggBytes st + Buffer_length data) st) ;;;
    modify (fun st => set_totalReceivedBytes
                        (totalReceivedBytes st + Buffer_length data) st) ;;;
    st <- get ;;
    if negb (usingMultipart st) && (MIN_PART_SIZE <=? aggBytes st)
    then (if usingMultipart st then ret None
          else ret (Some (CreateMultipartUploadCommand (key st))))
    else ret None.

(** The rest of that handler, from the moment the awaited call settles with
    [result]. *)
Definition frame_after_begin (command : S3Command) (result : S3Result) : Async unit :=
  try_catch
    (modify (record (s3_send command result)) ;;;
     match result with
     | s3_error rejection => throw rejection
     | s3_ok res_UploadId =>
         st1 <- get ;;
         modify (set_session (Some {| session_key := key st1; uploadId := res_UploadId;
                                      parts := [] |})) ;;;
         modify (set_usingMultipart true) ;;;
         sendJSON (uploadInfo (key st1) (Some res_UploadId) false) ;;;
         st <- get ;;
         if usingMultipart st && (TARGET_PART_SIZE <=? aggBytes st)
         then flushPart false else ret tt
     end)
    (fun rejection => sendJSON (error (message_or_default rejection))).

(** *** Reading a trace *)

(** The commit-part calls since the last begin-multipart call that S3
    accepted: part number, size of the body, and S3's answer. *)
Definition attempts_step (acc : list (Z * Z * S3Result)) (e : Effect)
    : list (Z * Z * S3Result) :=
  match e with
  | s3_send (CreateMultipartUploadCommand _) (s3_ok _) => []
  | s3_send (UploadPartCommand _ _ number body) result =>
      acc ++ [(number, Buffer_length body, result)]
  | _ => acc
  end.

Definition attempts (tr : list Effect) : list (Z * Z * S3Result) :=
  fold_left attempts_step tr [].

Definition is_create (e : Effect) : bool :=
  match e with
  | s3_send (CreateMultipartUploadCommand _) _ => true
  | _ => false
  end.

Definition is_accepted_create (e : Effect) : bool :=
  match e with
  | s3_send (CreateMultipartUploadCommand _) (s3_ok _) => true
  | _ => false
  end.

Definition count (f : Effect -> bool) (tr : list Effect) : nat :=
  length (filter f tr).

(** A frame of [n] bytes. *)
Definition frame_of_size (n : Z) : Buffer := repeat "000"%byte (Z.to_nat n).

Arguments sendJSON : simpl never.
Arguments s3_await : simpl never.
Arguments startMultipart : simpl never.
Arguments flushPart : simpl never.
Arguments completeUpload : simpl never.
Arguments on_start : simpl never.
Arguments on_stop : simpl never.
Arguments message_body : simpl never.
Arguments on_message : simpl never.
Arguments on_close : simpl never.
Arguments frame_until_begin : simpl never.
Arguments frame_after_begin : simpl never.
Arguments MIN_PART_SIZE : simpl never.
Arguments TARGET_PART_SIZE : simpl never.
Arguments Buffer_length : simpl never.
Arguments Buffer_concat : simpl never.
Arguments frame_of_size : simpl never.

End Aggregator.

(* ===================================================================== *)
(** ** Properties of the slicer                                           *)
(* ===================================================================== *)

Module SlicerFacts.
Import Slicer.

Example slice_5_by_2 :
  sliceIntoChunks 4 ["a"; "b"; "c"; "d"; "e"]%byte (Some 2)
  = Some [["a"; "b"]; ["c"; "d"]; ["e"]]%byte.
Proof. reflexivity. Qed.

Example slice_unset :
  sliceIntoChunks 0 ["a"; "b"]%byte None = Some [["a"; "b"]]%byte.
Proof. reflexivity. Qed.

Lemma byteLength_nonneg b : 0 <= byteLength b.
Proof. unfold byteLength. lia. Qed.

(** Inside the buffer, with a positive size, [slice] is the plain window. *)
Lemma slice_window b o size :
  0 <= o -> o < byteLength b -> 0 < size ->
  slice b o (o + size)
  = firstn (Z.to_nat (Z.min size (byteLength b - o))) (skipn (Z.to_nat o) b).
Proof.
  intros Ho Hlt Hs. unfold slice, relativeIndex.
  destruct (Z.ltb_spec o 0); [lia|].
  destruct (Z.ltb_spec (o + size) 0); [lia|].
  f_equal; [f_equal; lia | f_equal; lia].
Qed.

Lemma skipn_past (b : ArrayBuffer) (n : nat) :
  (length b <= n)%nat -> skipn n b = [].
Proof. intros H. apply skipn_all2. exact H. Qed.

Lemma window_then_rest (b : ArrayBuffer) o size :
  0 <= o -> o < byteLength b -> 0 < size ->
  firstn (Z.to_nat (Z.min size (byteLength b - o))) (skipn (Z.to_nat o) b)
  ++ skipn (Z.to_nat (o + size)) b
  = skipn (Z.to_nat o) b.
Proof.
  intros Ho Hlt Hs. unfold byteLength in *.
  set (k := Z.to_nat (Z.min size (Z.of_nat (length b) - o))).
  rewrite <- (firstn_skipn k (skipn (Z.to_nat o) b)) at 2.
  f_equal. rewrite skipn_skipn.
  destruct (Z.le_gt_cases size (Z.of_nat (length b) - o)) as [Hle|Hgt].
  - f_equal. subst k. lia.
  - rewrite !skipn_past; [reflexivity | subst k; lia | lia].
Qed.

Lemma ceil_div_step len size :
  0 < len -> 0 < size ->
  ceil_div len size = 1 + ceil_div (Z.max (len - size) 0) size.
Proof.
  intros Hl Hs. unfold ceil_div.
  destruct (Z.le_gt_cases size len) as [Hle|Hgt].
  - rewrite Z.max_l by lia.
    replace (len + size - 1) with ((len - size + size - 1) + 1 * size) by lia.
    rewrite Z.div_add by lia. lia.
  - rewrite Z.max_r by lia.
    replace (len + size - 1) with ((len - 1) + 1 * size) by lia.
    rewrite Z.div_add by lia.
    rewrite !Z.div_small by lia. lia.
Qed.

(** The loop from offset [o]: what it appends to [out]. *)
Lemma slice_loop_spec b size :
  0 < size ->
  forall fuel o out,
    0 <= o ->
    (Z.to_nat (byteLength b - o) < fuel)%nat ->
    exists rest,
      slice_loop fuel b size o out = Some (out ++ rest)
      /\ Forall (fun p => byteLength p <= size) rest
      /\ concat rest = skipn (Z.to_nat o) b
      /\ Z.of_nat (length rest) = ceil_div (Z.max (byteLength b - o) 0) size.
Proof.
  intros Hs. induction fuel as [|fuel IH]; intros o out Ho Hfuel; [lia|].
  cbn [slice_loop]. destruct (Z.ltb_spec o (byteLength b)) as [Hlt|Hge].
  - destruct (IH (o + size) (out ++ [slice b o (o + size)])) as
      (rest & Hrun & Hall & Hcat & Hlen); [lia | lia |].
    exists (slice b o (o + size) :: rest).
    rewrite Hrun, <- app_assoc. split; [reflexivity|].
    rewrite slice_window by lia. split; [|split].
    + constructor; [|exact Hall].
      unfold byteLength. rewrite length_firstn. lia.
    + cbn [concat]. rewrite Hcat. apply window_then_rest; lia.
    + cbn [length]. rewrite Nat2Z.inj_succ, Hlen.
      rewrite (ceil_div_step (Z.max (byteLength b - o) 0) size) by lia.
      replace (Z.max (Z.max (byteLength b - o) 0 - size) 0)
        with (Z.max (byteLength b - (o + size)) 0) by lia.
      lia.
  - exists []. rewrite app_nil_r. split; [reflexivity|].
    split; [constructor|]. split.
    + cbn [concat]. symmetry. apply skipn_past. unfold byteLength in Hge. lia.
    + rewrite Z.max_r by lia. unfold ceil_div.
      rewrite Z.div_small by lia. reflexivity.
Qed.

(** With a negative size the offset only moves away from the length. *)
Lemma slice_loop_negative b size :
  size < 0 -> 0 < byteLength b ->
  forall fuel o out, o <= 0 -> slice_loop fuel b size o out = None.
Proof.
  intros Hs Hb. induction fuel as [|fuel IH]; intros o out Ho; [reflexivity|].
  cbn [slice_loop]. destruct (Z.ltb_spec o (byteLength b)); [|lia].
  apply IH. lia.
Qed.

(** C1: for every input and every chunkSize > 0 the slicer returns (any fuel
    above the input's length is enough) pieces that are each at most chunkSize
    long, whose concatenation in order is the input, and whose number is
    ceil(length / chunkSize); a zero-length input gives no piece. *)
Theorem sliceIntoChunks_positive (arrayBuffer : ArrayBuffer) (size : Z) (fuel : nat) :
  0 < size ->
  (length arrayBuffer < fuel)%nat ->
  exists pieces,
    sliceIntoChunks fuel arrayBuffer (Some size) = Some pieces
    /\ Forall (fun p => byteLength p <= size) pieces
    /\ concat pieces = arrayBuffer
    /\ Z.of_nat (length pieces) = ceil_div (byteLength arrayBuffer) size
    /\ (arrayBuffer = [] -> pieces = []).
Proof.
  intros Hs Hfuel. unfold sliceIntoChunks, not_.
  destruct (Z.eqb_spec size 0); [lia|].
  destruct (slice_loop_spec arrayBuffer size Hs fuel 0 []) as
    (rest & Hrun & Hall & Hcat & Hlen); [lia | unfold byteLength; lia |].
  exists rest. cbn [app] in Hrun. cbn [Z.to_nat skipn] in Hcat.
  rewrite Z.sub_0_r, Z.max_l in Hlen by apply byteLength_nonneg.
  repeat split; try assumption.
  intros ->. cbn in Hlen. unfold ceil_div in Hlen.
  rewrite Z.div_small in Hlen by lia.
  destruct rest; [reflexivity | discriminate].
Qed.

Lemma sliceIntoChunks_positive_witness :
  exists pieces,
    sliceIntoChunks 4 ["a"; "b"; "c"]%byte (Some 2) = Some pieces
    /\ Forall (fun p => byteLength p <= 2) pieces
    /\ concat pieces = ["a"; "b"; "c"]%byte
    /\ Z.of_nat (length pieces) = ceil_div (byteLength ["a"; "b"; "c"]%byte) 2
    /\ (["a"; "b"; "c"]%byte = [] -> pieces = []).
Proof.
  apply (sliceIntoChunks_positive ["a"; "b"; "c"]%byte 2 4); [lia | simpl; lia].
Defined.

End SlicerFacts.

Module SlicerNonPositive.
Import Slicer SlicerFacts.

(** C8 (as amended): for a chunkSize that is zero or unset the slicer returns,
    whatever the fuel, exactly the single unsliced input, also for a
    zero-length input; for a positive chunkSize it returns within
    length + 1 turns of the loop; a negative chunkSize is not rejected:
    nothing is raised, and a zero-length input comes back as zero pieces. *)
Theorem sliceIntoChunks_not_positive (arrayBuffer : ArrayBuffer) (fuel : nat) :
  sliceIntoChunks fuel arrayBuffer None = Some [arrayBuffer]
  /\ sliceIntoChunks fuel arrayBuffer (Some 0) = Some [arrayBuffer]
  /\ (forall size, 0 < size ->
        exists pieces,
          sliceIntoChunks (S (length arrayBuffer)) arrayBuffer (Some size) = Some pieces)
  /\ (forall size, size < 0 -> sliceIntoChunks (S fuel) [] (Some size) = Some []).
Proof.
  split; [reflexivity|]. split; [reflexivity|]. split.
  - intros size Hs. unfold sliceIntoChunks, not_.
    destruct (Z.eqb_spec size 0); [lia|].
    destruct (slice_loop_spec arrayBuffer size Hs (S (length arrayBuffer)) 0 [])
      as (rest & Hrun & _); [lia | unfold byteLength; lia |].
    exists rest. exact Hrun.
  - intros size Hs. unfold sliceIntoChunks, not_.
    destruct (Z.eqb_spec size 0); [lia | reflexivity].
Qed.

(** C8 as the claim words it fails: with chunkSize = -1 a zero-length input
    comes back as zero pieces (not one, and nothing is raised), and a one-byte
    input never comes back. *)
Lemma sliceIntoChunks_negative_counterexample :
  sliceIntoChunks 1 [] (Some (-1)) = Some []
  /\ ~ (exists fuel pieces, sliceIntoChunks fuel ["a"%byte] (Some (-1)) = Some pieces).
Proof.
  split; [reflexivity|].
  intros (fuel & pieces & H).
  cbn [sliceIntoChunks not_ Z.eqb] in H.
  rewrite slice_loop_negative in H; [discriminate | lia | cbn; lia | lia].
Qed.

End SlicerNonPositive.

(* ===================================================================== *)
(** ** Properties of the producer                                         *)
(* ===================================================================== *)

Module ProducerFacts.
Import Slicer Producer.

Lemma setUploadKey_same a : setUploadKey (uploadKey a) a = a.
Proof. destruct a; reflexivity. Qed.

(** *** What holds in every state the component can reach *)

(** The handlers of the socket were made in a render in which Connect was
    enabled, and [status] is Ready only while the flag is up. *)
Definition well_formed (a : App) : Prop :=
  (forall ws, wsRef a = Some ws ->
     handlers_status ws = Idle \/ handlers_status ws = Error
     \/ handlers_status ws = Completed)
  /\ (status a = Ready -> sessionReadyRef a = true).

Lemma well_formed_initial : well_formed initial.
Proof. split; [intros ws H | intros H]; discriminate. Qed.

Lemma canConnect_status a :
  canConnect a = true -> status a = Idle \/ status a = Error \/ status a = Completed.
Proof. unfold canConnect. destruct (status a); auto; discriminate. Qed.

Lemma send_chunks_keeps fuel chan chunks :
  forall t a a' r,
    send_chunks fuel chan t chunks a = Some (a', r) ->
    wsRef a' = wsRef a /\ status a' = status a
    /\ sessionReadyRef a' = sessionReadyRef a /\ errorMsg a' = errorMsg a
    /\ r = returned.
Proof.
  induction chunks as [|c rest IH]; intros t a a' r H; cbn [send_chunks] in H.
  - injection H as <- <-. repeat split.
  - destruct (backpressure_wait fuel a chan t) as [t'|]; [|discriminate].
    destruct (transmit_ready a (chan t')).
    + apply IH in H. cbn in H. exact H.
    + injection H as <- <-. repeat split.
Qed.

Lemma ondataavailable_keeps fuel chan data a a' r :
  ondataavailable fuel chan data a = Some (a', r) ->
  wsRef a' = wsRef a /\ status a' = status a
  /\ sessionReadyRef a' = sessionReadyRef a /\ errorMsg a' = errorMsg a
  /\ r = returned.
Proof.
  unfold ondataavailable. intros H.
  destruct (byteLength data =? 0); [injection H as <- <-; repeat split|].
  destruct (negb (sessionReadyRef a)); [injection H as <- <-; repeat split|].
  destruct (sliceIntoChunks fuel data (Some CHUNK_SIZE)); [|discriminate].
  eapply send_chunks_keeps; eassumption.
Qed.

Lemma step_well_formed e a : well_formed a -> well_formed (step e a).
Proof.
  intros Hwf. pose proof Hwf as [Hws Hready]. destruct e; cbn [step].
  - (* Connect *)
    destruct (canConnect a) eqn:Hcan; [|exact Hwf].
    unfold startConnection. destruct (ws_is_open a); [exact Hwf|].
    split; [|cbn; discriminate].
    intros ws Heq; cbn in Heq; injection Heq as <-. cbn.
    apply canConnect_status. exact Hcan.
  - (* Record *)
    destruct (canRecord a); [|exact Hwf].
    unfold startRecording. destruct (ensureSessionReady_passes a); [|exact Hwf].
    destruct m; (split; [exact Hws | cbn; discriminate]).
  - (* Stop *)
    destruct (canStop a); [|exact Hwf].
    unfold stopRecording. destruct (negb (Status_eqb (status a) Recording));
      [exact Hwf|].
    unfold stopRecorderLocal. cbn [recorderRef setStatus].
    destruct (recorderRef a) as [[]|]; destruct (ws_is_open _);
      (split; [intros ws H; apply Hws; exact H | cbn; discriminate]).
  - (* open *)
    destruct (wsRef a) as [ws|] eqn:Hw; [|exact Hwf].
    unfold onopen, set_readyState. rewrite Hw.
    split; [intros ws' Heq; cbn in Heq; injection Heq as <-; cbn; auto | cbn; discriminate].
  - (* message *)
    unfold message_event. destruct (wsRef a) as [ws|] eqn:Hw; [|exact Hwf].
    destruct evt as [|[key| | |message|]]; cbn [onmessage]; try (exact Hwf).
    + cbn [setUploadKey sessionReadyRef].
      destruct (negb (sessionReadyRef a)) eqn:Hflag.
      * split; [cbn; rewrite Hw; exact Hws | reflexivity].
      * split; [cbn; rewrite Hw; exact Hws | cbn; exact Hready].
    + split; [cbn; rewrite Hw; exact Hws | cbn; discriminate].
    + destruct (negb (Status_eqb (handlers_status ws) Recording)).
      * split; [cbn; rewrite Hw; exact Hws | cbn; discriminate].
      * split; [cbn; rewrite Hw; exact Hws | cbn; exact Hready].
  - (* error *)
    destruct (wsRef a) eqn:Hw; [|exact Hwf].
    split; [cbn; rewrite Hw; exact Hws | cbn; discriminate].
  - (* close *)
    unfold onclose. destruct (wsRef a) as [ws|] eqn:Hw; [|exact Hwf].
    destruct (Status_eqb (handlers_status ws) Recording).
    + unfold set_readyState, stopRecorderLocal. rewrite Hw.
      cbn [recorderRef set_wsRef].
      destruct (recorderRef a) as [[]|];
        (split; [intros ws' Heq; cbn in Heq; injection Heq as <-; cbn; auto
                | cbn; discriminate]).
    + unfold set_readyState. rewrite Hw.
      split; [intros ws' Heq; cbn in Heq; injection Heq as <-; cbn; auto | cbn; exact Hready].
  - (* dataavailable *)
    destruct (recorderRef a); [|exact Hwf].
    destruct (ondataavailable fuel chan data a) as [[a' how]|] eqn:Hrun;
      [|exact Hwf].
    apply ondataavailable_keeps in Hrun as (Hw & Hst & Hflag & _ & _).
    split; [rewrite Hw; exact Hws | rewrite Hst, Hflag; exact Hready].
Qed.

Lemma run_well_formed events : forall a, well_formed a -> well_formed (run events a).
Proof.
  induction events as [|e events IH]; intros a H; [exact H|].
  apply IH. apply step_well_formed. exact H.
Qed.

(** *** The session-ready acknowledgment *)

(** The component after Connect, the socket opening, and a first
    acknowledgment that carries [key]. *)
Definition acknowledged (key : string) : App :=
  run [click_Connect; socket_open; socket_message (JSON (uploadInfo key))] initial.

Example acknowledged_is_Ready :
  status (acknowledged "k1") = Ready
  /\ sessionReadyRef (acknowledged "k1") = true
  /\ resolveCalls (acknowledged "k1") = 1%nat
  /\ uploadKey (acknowledged "k1") = Some "k1"%string.
Proof. repeat split. Qed.

(** C5 (as amended): an uploadInfo that arrives while the session-ready flag
    is up resolves no promise again, leaves [status] and every other field as
    they are, and only overwrites the upload key with the key it carries; so
    when it carries the key already held, nothing changes at all. *)
Theorem uploadInfo_when_session_ready (status_then : Status) (key : string) (a : App) :
  sessionReadyRef a = true ->
  onmessage status_then (JSON (uploadInfo key)) a = setUploadKey (Some key) a
  /\ resolveCalls (onmessage status_then (JSON (uploadInfo key)) a) = resolveCalls a
  /\ sessionReadyPromiseRef (onmessage status_then (JSON (uploadInfo key)) a)
     = sessionReadyPromiseRef a
  /\ status (onmessage status_then (JSON (uploadInfo key)) a) = status a
  /\ (uploadKey a = Some key ->
      onmessage status_then (JSON (uploadInfo key)) a = a).
Proof.
  intros Hflag.
  assert (Hrun : onmessage status_then (JSON (uploadInfo key)) a
                 = setUploadKey (Some key) a).
  { cbn [onmessage]. cbn [setUploadKey sessionReadyRef]. rewrite Hflag. reflexivity. }
  rewrite Hrun. repeat split.
  intros Hkey. rewrite <- Hkey. apply setUploadKey_same.
Qed.

Lemma uploadInfo_when_session_ready_witness :
  sessionReadyRef (acknowledged "k1") = true
  /\ onmessage Idle (JSON (uploadInfo "k1")) (acknowledged "k1") = acknowledged "k1".
Proof.
  split; [reflexivity|].
  apply (uploadInfo_when_session_ready Idle "k1" (acknowledged "k1")); reflexivity.
Defined.

(** [status] is Ready only once a handler of the socket has set it. *)
Definition ready_has_socket (a : App) : Prop :=
  status a = Ready -> wsRef a <> None.

Lemma step_ready_has_socket e a : ready_has_socket a -> ready_has_socket (step e a).
Proof.
  intros Ha. destruct e; cbn [step].
  - destruct (canConnect a); [|exact Ha]. unfold startConnection.
    destruct (ws_is_open a); [exact Ha | cbn; discriminate].
  - destruct (canRecord a); [|exact Ha]. unfold startRecording.
    destruct (ensureSessionReady_passes a); [|exact Ha].
    destruct m; cbn; discriminate.
  - destruct (canStop a); [|exact Ha]. unfold stopRecording.
    destruct (negb _); [exact Ha|].
    unfold stopRecorderLocal. cbn [recorderRef setStatus].
    destruct (recorderRef a) as [[]|]; destruct (ws_is_open _); cbn; discriminate.
  - destruct (wsRef a); [cbn; discriminate | exact Ha].
  - unfold message_event. destruct (wsRef a) as [ws|] eqn:Hw; [|exact Ha].
    intros _. destruct evt as [|[k| | |m|]]; cbn [onmessage];
      try (rewrite Hw; discriminate).
    + cbn [setUploadKey sessionReadyRef]. destruct (negb (sessionReadyRef a));
        cbn; rewrite Hw; discriminate.
    + cbn. rewrite Hw. discriminate.
    + cbn. rewrite Hw. discriminate.
    + destruct (negb _); cbn; rewrite Hw; discriminate.
  - destruct (wsRef a); [cbn; discriminate | exact Ha].
  - unfold onclose. destruct (wsRef a) as [ws|] eqn:Hw; [|exact Ha].
    intros _. unfold set_readyState, stopRecorderLocal. rewrite Hw.
    cbn [recorderRef set_wsRef].
    destruct (Status_eqb _ _); [destruct (recorderRef a) as [[]|]|]; cbn; discriminate.
  - destruct (recorderRef a); [|exact Ha].
    destruct (ondataavailable fuel chan data a) as [[a' how]|] eqn:Hrun; [|exact Ha].
    apply ondataavailable_keeps in Hrun as (Hw & Hst & _).
    unfold ready_has_socket. rewrite Hw, Hst. exact Ha.
Qed.

Lemma run_ready_has_socket events :
  forall a, ready_has_socket a -> ready_has_socket (run events a).
Proof.
  induction events as [|e events IH]; intros a H; [exact H|].
  apply IH. apply step_ready_has_socket. exact H.
Qed.

(** In a state the component can reach, [status = Ready] has the flag up, so
    the amended statement covers every acknowledgment received while Ready. *)
Lemma uploadInfo_while_Ready events key :
  let a := run events initial in
  status a = Ready ->
  step (socket_message (JSON (uploadInfo key))) a = setUploadKey (Some key) a.
Proof.
  intros a Hst.
  pose proof (run_well_formed events initial well_formed_initial) as [_ Hflag].
  assert (Hsock : ready_has_socket a)
    by (apply run_ready_has_socket; intros H; discriminate H).
  fold a in Hflag. specialize (Hflag Hst). specialize (Hsock Hst).
  cbn [step]. unfold message_event. destruct (wsRef a) as [ws|]; [|congruence].
  cbn [onmessage]. cbn [setUploadKey sessionReadyRef]. rewrite Hflag. reflexivity.
Qed.

(** C5 as the claim words it fails: a second acknowledgment that carries
    another key changes the upload key that the component shows. *)
Lemma second_uploadInfo_changes_uploadKey :
  status (acknowledged "k1") = Ready
  /\ uploadKey (acknowledged "k1") = Some "k1"%string
  /\ uploadKey (step (socket_message (JSON (uploadInfo "k2"))) (acknowledged "k1"))
     = Some "k2"%string
  /\ step (socket_message (JSON (uploadInfo "k2"))) (acknowledged "k1")
     <> acknowledged "k1".
Proof.
  repeat split. intros H. apply (f_equal uploadKey) in H. discriminate H.
Qed.

(** *** Error acknowledgments *)

Lemma error_ack_status status_then message a :
  status (onmessage status_then (JSON (error message)) a)
  = if Status_eqb status_then Recording then status a else Error.
Proof. cbn [onmessage]. destruct (Status_eqb status_then Recording); reflexivity. Qed.

(** The test [status !== 'Recording'] reads the [status] of the render in which
    Connect was clicked, and Connect is disabled while recording: in every
    state the component can reach, an error acknowledgment ends in Error. *)
Lemma error_ack_ends_in_Error events message :
  let a := run events initial in
  wsRef a <> None ->
  status (step (socket_message (JSON (error message))) a) = Error.
Proof.
  intros a Hws.
  pose proof (run_well_formed events initial well_formed_initial) as [Hh _].
  fold a in Hh. cbn [step]. unfold message_event.
  destruct (wsRef a) as [ws|] eqn:Hw; [|congruence].
  rewrite error_ack_status.
  destruct (Hh ws eq_refl) as [-> | [-> | ->]]; reflexivity.
Qed.

(** The component while recording: Connect from Idle, socket open, session
    acknowledged, Record. *)
Definition streaming : App :=
  step (click_Record media_ok) (acknowledged "k1").

(** C7: an error acknowledgment that arrives while [status] is Recording
    moves the component to Error. *)
Theorem error_ack_while_Recording :
  status streaming = Recording
  /\ status (step (socket_message (JSON (error "boom"))) streaming) = Error
  /\ errorMsg (step (socket_message (JSON (error "boom"))) streaming) = Some "boom"%string.
Proof. repeat split. Qed.

(** *** The send loop *)

Definition socket_closed_warning : Console := console_warn "Socket closed mid-send".

(** The loop sends a prefix of the pieces, each once and in order; when it
    stops early the rest is dropped with one console line. *)
Lemma send_chunks_sends_prefix fuel chan chunks :
  forall t a a' how,
    send_chunks fuel chan t chunks a = Some (a', how) ->
    exists n,
      (n <= length chunks)%nat
      /\ sent a' = sent a ++ map send_binary (firstn n chunks)
      /\ console a' = console a
           ++ (if (n <? length chunks)%nat then [socket_closed_warning] else []).
Proof.
  induction chunks as [|c rest IH]; intros t a a' how H; cbn [send_chunks] in H.
  - injection H as <- <-. exists 0%nat. cbn. rewrite !app_nil_r. auto.
  - destruct (backpressure_wait fuel a chan t) as [t'|]; [|discriminate].
    destruct (transmit_ready a (chan t')).
    + apply IH in H as (n & Hn & Hsent & Hcon). exists (S n).
      cbn [length firstn map]. split; [lia|]. split.
      * rewrite Hsent. cbn. rewrite <- app_assoc. reflexivity.
      * rewrite Hcon. cbn [console setBytesSent ws_send].
        replace (S n <? S (length rest))%nat with (n <? length rest)%nat; [reflexivity|].
        destruct (Nat.ltb_spec n (length rest)), (Nat.ltb_spec (S n) (S (length rest)));
          try reflexivity; lia.
    + injection H as <- <-. exists 0%nat. cbn. rewrite app_nil_r.
      split; [lia|]. split; reflexivity.
Qed.

(** C6 (as amended): when the look that ends the backpressure wait for a piece
    finds the channel not transmit-ready, the loop stops there: that piece and
    all remaining pieces of the frame are left unsent, nothing is retried, one
    line is written to the console, and the handler returns normally; nothing
    is thrown to the caller and neither [status] nor [errorMsg] changes. *)
Theorem send_chunks_channel_not_ready (fuel : nat) (chan : nat -> Channel)
    (t t' : nat) (c : ArrayBuffer) (rest : list ArrayBuffer) (a : App) :
  backpressure_wait fuel a chan t = Some t' ->
  transmit_ready a (chan t') = false ->
  exists a',
    send_chunks fuel chan t (c :: rest) a = Some (a', returned)
    /\ sent a' = sent a
    /\ bytesSent a' = bytesSent a
    /\ console a' = console a ++ [socket_closed_warning]
    /\ status a' = status a
    /\ errorMsg a' = errorMsg a.
Proof.
  intros Hwait Hnot. exists (console_write socket_closed_warning a).
  cbn [send_chunks]. rewrite Hwait, Hnot. repeat split.
Qed.

Definition channel_closed : nat -> Channel :=
  fun _ => {| ch_readyState := CLOSED; ch_bufferedAmount := 0 |}.

Lemma send_chunks_channel_not_ready_witness :
  exists a',
    send_chunks 1 channel_closed 0 [["a"%byte]; ["b"%byte]] streaming = Some (a', returned)
    /\ sent a' = sent streaming
    /\ bytesSent a' = bytesSent streaming
    /\ console a' = console streaming ++ [socket_closed_warning]
    /\ status a' = status streaming
    /\ errorMsg a' = errorMsg streaming.
Proof.
  apply (send_chunks_channel_not_ready 1 channel_closed 0 0 ["a"%byte] [["b"%byte]] streaming);
    reflexivity.
Defined.

(** C6 as the claim words it fails: the socket closes while recording, the
    next frame finds it closed, and the handler returns normally with
    [status] still Recording and no error message: nothing reaches the caller. *)
Lemma closed_socket_not_surfaced :
  exists a',
    ondataavailable 4 channel_closed ["a"; "b"; "c"]%byte (step socket_close streaming)
    = Some (a', returned)
    /\ status a' = Recording
    /\ errorMsg a' = None
    /\ sent a' = sent streaming.
Proof.
  exists (console_write socket_closed_warning (step socket_close streaming)).
  vm_compute. repeat split.
Qed.

(** *** Backpressure *)

(** X3: while the socket is open and more than the high-water mark is buffered,
    the wait polls again; it ends at the first look that finds otherwise.
    With [n] looks above the mark and then one at or below it, the wait ends
    after exactly [n] polls. *)
Theorem backpressure_wait_polls (a : App) (chan : nat -> Channel) (n : nat) :
  forall fuel t,
    wsRef a <> None ->
    (forall i, (i < n)%nat ->
       ch_readyState (chan (t + i)%nat) = OPEN
       /\ BACKPRESSURE_HIGH < ch_bufferedAmount (chan (t + i)%nat)) ->
    ch_bufferedAmount (chan (t + n)%nat) <= BACKPRESSURE_HIGH ->
    (n < fuel)%nat ->
    backpressure_wait fuel a chan t = Some (t + n)%nat.
Proof.
  induction n as [|n IH]; intros fuel t Hws Habove Hbelow Hfuel.
  - destruct fuel as [|fuel]; [lia|]. cbn [backpressure_wait].
    rewrite Nat.add_0_r in *.
    destruct (Z.ltb_spec BACKPRESSURE_HIGH (ch_bufferedAmount (chan t))); [lia|].
    rewrite andb_false_r. reflexivity.
  - destruct fuel as [|fuel]; [lia|]. cbn [backpressure_wait].
    destruct (Habove 0%nat) as [Hopen Hhigh]; [lia|]. rewrite Nat.add_0_r in Hopen, Hhigh.
    unfold transmit_ready. destruct (wsRef a) as [ws|]; [|congruence].
    rewrite Hopen. cbn [isOPEN andb].
    destruct (Z.ltb_spec BACKPRESSURE_HIGH (ch_bufferedAmount (chan t))); [|lia].
    rewrite (IH fuel (S t)).
    + f_equal. lia.
    + congruence.
    + intros i Hi. replace (S t + i)%nat with (t + S i)%nat by lia. apply Habove. lia.
    + replace (S t + n)%nat with (t + S n)%nat by lia. exact Hbelow.
    + lia.
Qed.

(** Open all along; 5 MiB buffered at the first [n] looks, nothing after. *)
Definition drains_after (n : nat) : nat -> Channel :=
  fun t => {| ch_readyState := OPEN;
              ch_bufferedAmount := if (t <? n)%nat then 5 * 1024 * 1024 else 0 |}.

Lemma backpressure_wait_polls_witness :
  backpressure_wait 4 streaming (drains_after 3) 0 = Some 3%nat.
Proof.
  apply (backpressure_wait_polls streaming (drains_after 3) 3 4 0).
  - discriminate.
  - intros i Hi. cbn. destruct i as [|[|[|i]]]; [split; reflexivity .. | lia].
  - vm_compute. discriminate.
  - lia.
Defined.

End ProducerFacts.

(* ===================================================================== *)
(** ** Properties of the aggregator                                       *)
(* ===================================================================== *)

Module AggregatorFacts.
Import Aggregator.

Definition Attempt : Type := Z * Z * S3Result.
Definition number_of (a : Attempt) : Z := fst (fst a).
Definition size_of (a : Attempt) : Z := snd (fst a).
Definition answer_of (a : Attempt) : S3Result := snd a.

(** The i-th commit-part call (from 0) carries part number i + 1. *)
Definition numbered (l : list Attempt) : Prop :=
  map number_of l = map (fun i => Z.of_nat i + 1) (seq 0 (length l)).

Definition big_enough (a : Attempt) : Prop := MIN_PART_SIZE <= size_of a.

(** The entries of [session.parts] that a list of commit-part calls leaves:
    one for each call that S3 accepted, with the ETag it answered. *)
Fixpoint recorded (l : list Attempt) : list Part :=
  match l with
  | [] => []
  | (number, _, s3_ok etag) :: l' =>
      {| PartNumber := number; ETag := etag |} :: recorded l'
  | (_, _, s3_error _) :: l' => recorded l'
  end.

Definition positive_upload (e : Effect) : Prop :=
  match e with
  | s3_send (UploadPartCommand _ _ _ body) _ => 0 < Buffer_length body
  | _ => True
  end.

(** Effects that leave [attempts] as it is. *)
Definition silent (e : Effect) : bool :=
  match e with
  | s3_send (CreateMultipartUploadCommand _) (s3_ok _) => false
  | s3_send (UploadPartCommand _ _ _ _) _ => false
  | _ => true
  end.

Definition trace_ok (tr : list Effect) : Prop :=
  numbered (attempts tr)
  /\ Forall big_enough (removelast (attempts tr))
  /\ Forall positive_upload tr.

(** What holds between two handlers. *)
Definition Inv (st : State) : Prop :=
  0 <= aggBytes st
  /\ trace_ok (trace st)
  /\ (usingMultipart st = false -> session st = None /\ partNumber st = 0)
  /\ (usingMultipart st = true ->
      exists s, session st = Some s
        /\ parts s = recorded (attempts (trace st))
        /\ partNumber st = Z.of_nat (length (attempts (trace st)))
        /\ Forall big_enough (attempts (trace st)))
  /\ (key st = None ->
      usingMultipart st = false /\ aggBuffers st = [] /\ aggBytes st = 0).

Lemma Buffer_length_nonneg b : 0 <= Buffer_length b.
Proof. unfold Buffer_length. lia. Qed.

Lemma Buffer_length_concat l n : 0 <= n -> Buffer_length (Buffer_concat l n) = n.
Proof.
  intros Hn. unfold Buffer_length, Buffer_concat.
  rewrite length_firstn, length_app, repeat_length. lia.
Qed.

Lemma Buffer_length_frame n : 0 <= n -> Buffer_length (frame_of_size n) = n.
Proof. intros Hn. unfold Buffer_length, frame_of_size. rewrite repeat_length. lia. Qed.

Lemma Buffer_concat_exact l :
  Buffer_concat l (Buffer_length (concat l)) = concat l.
Proof.
  unfold Buffer_concat, Buffer_length. rewrite Nat2Z.id.
  rewrite firstn_app, Nat.sub_diag, firstn_all. cbn. apply app_nil_r.
Qed.

Lemma attempts_snoc tr e : attempts (tr ++ [e]) = attempts_step (attempts tr) e.
Proof. unfold attempts. rewrite fold_left_app. reflexivity. Qed.

Lemma attempts_silent tr e : silent e = true -> attempts (tr ++ [e]) = attempts tr.
Proof.
  intros H. rewrite attempts_snoc.
  destruct e as [[k|k u n b|k u ps|k u|k b] [v|m]|obj]; cbn in *; congruence.
Qed.

Lemma positive_silent e : silent e = true -> positive_upload e.
Proof.
  destruct e as [[k|k u n b|k u ps|k u|k b] [v|m]|obj]; cbn; intros; try exact I; discriminate.
Qed.

Lemma trace_ok_silent tr e : silent e = true -> trace_ok tr -> trace_ok (tr ++ [e]).
Proof.
  intros He (Hn & Hb & Hp). unfold trace_ok. rewrite attempts_silent by exact He.
  split; [exact Hn|]. split; [exact Hb|].
  apply Forall_app. split; [exact Hp|]. constructor; [|constructor].
  apply positive_silent. exact He.
Qed.

Lemma numbered_nil : numbered [].
Proof. reflexivity. Qed.

Lemma numbered_snoc l a :
  numbered l -> number_of a = Z.of_nat (length l) + 1 -> numbered (l ++ [a]).
Proof.
  unfold numbered. intros Hl Ha.
  rewrite map_app, length_app, seq_app, map_app, Hl. cbn. rewrite Ha. reflexivity.
Qed.

Lemma numbered_nth l i a :
  numbered l -> nth_error l i = Some a -> number_of a = Z.of_nat i + 1.
Proof.
  unfold numbered. intros Hl Hi.
  assert (Hlt : (i < length l)%nat) by (apply nth_error_Some; congruence).
  apply (map_nth_error number_of) in Hi. rewrite Hl in Hi.
  assert (Hseq : nth_error (seq 0 (length l)) i = Some i).
  { rewrite nth_error_nth' with (d := 0%nat) by (rewrite length_seq; exact Hlt).
    rewrite seq_nth by exact Hlt. reflexivity. }
  apply (map_nth_error (fun i => Z.of_nat i + 1)) in Hseq. congruence.
Qed.

Lemma recorded_app l l' : recorded (l ++ l') = recorded l ++ recorded l'.
Proof.
  induction l as [|[[n sz] [e|m]] l IH]; cbn; [reflexivity | rewrite IH; reflexivity | exact IH].
Qed.

(** A new commit-part call after calls that were all big enough. *)
Lemma trace_ok_upload tr k u body result :
  trace_ok tr -> Forall big_enough (attempts tr) -> 0 < Buffer_length body ->
  trace_ok (tr ++ [s3_send (UploadPartCommand k u (Z.of_nat (length (attempts tr)) + 1) body)
                     result]).
Proof.
  intros (Hn & _ & Hp) Hall Hpos. unfold trace_ok.
  rewrite attempts_snoc. cbn [attempts_step].
  split; [apply numbered_snoc; [exact Hn | reflexivity]|].
  split; [rewrite removelast_last; exact Hall|].
  apply Forall_app. split; [exact Hp|]. constructor; [exact Hpos | constructor].
Qed.

(** A begin-multipart call that S3 accepts opens a new list of calls. *)
Lemma trace_ok_create tr k u :
  trace_ok tr -> trace_ok (tr ++ [s3_send (CreateMultipartUploadCommand k) (s3_ok u)]).
Proof.
  intros (_ & _ & Hp). unfold trace_ok. rewrite attempts_snoc. cbn [attempts_step].
  split; [exact numbered_nil|]. split; [constructor|].
  apply Forall_app. split; [exact Hp|]. constructor; [exact I | constructor].
Qed.

(** *** The handlers keep the invariant *)

Lemma Inv_initial : Inv initial.
Proof.
  unfold Inv, trace_ok. cbn. repeat split; try lia; try constructor; try discriminate.
Qed.

(** Reading a field of an updated state. *)
Ltac fields :=
  cbn [session partNumber closed aggBuffers aggBytes totalReceivedBytes
       usingMultipart key trace record set_session set_partNumber set_closed
       set_agg set_totalReceivedBytes set_usingMultipart set_key reset
       session_key uploadId parts fst snd] in *.

Lemma Inv_silent st e : silent e = true -> Inv st -> Inv (record e st).
Proof.
  intros He (Hb & Htr & Hoff & Hon & Hidle). unfold Inv. fields.
  split; [exact Hb|]. split; [apply trace_ok_silent; assumption|].
  rewrite attempts_silent by exact He.
  split; [exact Hoff|]. split; [exact Hon | exact Hidle].
Qed.

Lemma sendJSON_Return obj w st : fst (sendJSON obj w st) = Return tt.
Proof. unfold sendJSON. destruct (ws_OPEN w _); reflexivity. Qed.

Lemma sendJSON_cases obj w st :
  snd (sendJSON obj w st) = st \/ snd (sendJSON obj w st) = record (ws_send obj) st.
Proof. unfold sendJSON. destruct (ws_OPEN w _); auto. Qed.

Lemma sendJSON_Inv obj w st : Inv st -> Inv (snd (sendJSON obj w st)).
Proof.
  intros H. destruct (sendJSON_cases obj w st) as [-> | ->]; [exact H|].
  apply Inv_silent; [reflexivity | exact H].
Qed.

Lemma sendJSON_trace_ok obj w st :
  trace_ok (trace st) -> trace_ok (trace (snd (sendJSON obj w st))).
Proof.
  intros H. destruct (sendJSON_cases obj w st) as [-> | ->]; [exact H|].
  cbn. apply trace_ok_silent; [reflexivity | exact H].
Qed.

(** The state after the commit-part call of [flushPart] and what follows it. *)
Definition flushed (w : World) (st : State) (s : Session) : State :=
  let number := partNumber st + 1 in
  let body := Buffer_concat (aggBuffers st) (aggBytes st) in
  let command := UploadPartCommand (session_key s) (uploadId s) number body in
  let result := s3 w (length (trace st)) command in
  let st1 := record (s3_send command result) (set_agg [] 0 (set_partNumber number st)) in
  match result with
  | s3_ok etag =>
      snd (sendJSON (partAck number (Buffer_length body) etag) w
             (set_session (Some {| session_key := session_key s; uploadId := uploadId s;
                                   parts := parts s ++ [{| PartNumber := number; ETag := etag |}] |})
                st1))
  | s3_error _ => st1
  end.

(** [flushPart] either leaves the state as it is or commits the buffer. *)
Lemma flushPart_cases isFinal w st :
  snd (flushPart isFinal w st) = st
  \/ exists s,
       usingMultipart st = true /\ session st = Some s /\ aggBytes st <> 0
       /\ (isFinal = false -> MIN_PART_SIZE <= aggBytes st)
       /\ snd (flushPart isFinal w st) = flushed w st s.
Proof.
  unfold flushPart, bind, get. cbn.
  destruct (usingMultipart st) eqn:Hu; [|left; reflexivity].
  destruct (session st) as [s|] eqn:Hs; [|left; reflexivity].
  destruct (Z.eqb_spec (aggBytes st) 0) as [Hz|Hz]; [left; reflexivity|].
  destruct (negb isFinal && (aggBytes st <? MIN_PART_SIZE)) eqn:Hsmall; [left; reflexivity|].
  right. exists s. repeat split; try assumption.
  - intros ->. cbn in Hsmall. apply Z.ltb_ge in Hsmall. exact Hsmall.
  - unfold flushed, modify, s3_await, push_part, bind, get. cbn.
    destruct (s3 w _ _) eqn:Hres; cbn; [|reflexivity].
    rewrite Hs. cbn. destruct (sendJSON _ w _) as [[] st']; reflexivity.
Qed.

Lemma flushed_fields w st s :
  usingMultipart (flushed w st s) = usingMultipart st
  /\ key (flushed w st s) = key st
  /\ closed (flushed w st s) = closed st
  /\ aggBytes (flushed w st s) = 0
  /\ aggBuffers (flushed w st s) = []
  /\ partNumber (flushed w st s) = partNumber st + 1.
Proof.
  unfold flushed. destruct (s3 w _ _); [|repeat split].
  destruct (sendJSON_cases (partAck (partNumber st + 1)
              (Buffer_length (Buffer_concat (aggBuffers st) (aggBytes st))) value) w
              (set_session
                 (Some {| session_key := session_key s; uploadId := uploadId s;
                          parts := parts s ++ [{| PartNumber := partNumber st + 1;
                                                  ETag := value |}] |})
                 (record (s3_send (UploadPartCommand (session_key s) (uploadId s)
                                     (partNumber st + 1)
                                     (Buffer_concat (aggBuffers st) (aggBytes st)))
                            (s3_ok value))
                    (set_agg [] 0 (set_partNumber (partNumber st + 1) st)))))
    as [-> | ->]; repeat split.
Qed.

(** The commit of a buffer that is big enough keeps the invariant. *)
Lemma flushed_Inv w st s :
  Inv st -> usingMultipart st = true -> session st = Some s ->
  aggBytes st <> 0 -> MIN_PART_SIZE <= aggBytes st ->
  Inv (flushed w st s).
Proof.
  intros (Hb & Htr & Hoff & Hon & Hidle) Hu Hs Hz Hmin.
  destruct (Hon Hu) as (s' & Hs' & Hparts & Hnum & Hall).
  assert (s' = s) by congruence. subst s'.
  assert (Hlen : Buffer_length (Buffer_concat (aggBuffers st) (aggBytes st)) = aggBytes st)
    by (apply Buffer_length_concat; exact Hb).
  assert (Hkey : key st = None -> False) by (intros Hk; apply Hidle in Hk; intuition congruence).
  unfold flushed. rewrite Hnum.
  destruct (s3 w _ _) as [etag|msg] eqn:Hres.
  - apply sendJSON_Inv. unfold Inv. fields.
    split; [lia|]. split; [apply trace_ok_upload; [exact Htr | exact Hall | lia]|].
    rewrite attempts_snoc. cbn [attempts_step].
    split; [congruence|]. split; [|intros Hk; contradiction (Hkey Hk)].
    intros _. eexists. split; [reflexivity|]. fields.
    split; [rewrite recorded_app, Hparts; reflexivity|].
    split; [rewrite length_app; cbn [length]; lia|].
    apply Forall_app. split; [exact Hall|]. constructor; [|constructor].
    unfold big_enough, size_of. cbn [fst snd]. lia.
  - unfold Inv. fields.
    split; [lia|]. split; [apply trace_ok_upload; [exact Htr | exact Hall | lia]|].
    rewrite attempts_snoc. cbn [attempts_step].
    split; [congruence|]. split; [|intros Hk; contradiction (Hkey Hk)].
    intros _. exists s. split; [exact Hs|].
    split; [rewrite recorded_app, Hparts; cbn; rewrite app_nil_r; reflexivity|].
    split; [rewrite length_app; cbn [length]; lia|].
    apply Forall_app. split; [exact Hall|]. constructor; [|constructor].
    unfold big_enough, size_of. cbn [fst snd]. lia.
Qed.

(** The commit of any non-empty buffer leaves a trace that is in order. *)
Lemma flushed_trace_ok w st s :
  Inv st -> usingMultipart st = true -> session st = Some s -> aggBytes st <> 0 ->
  trace_ok (trace (flushed w st s)).
Proof.
  intros (Hb & Htr & Hoff & Hon & Hidle) Hu Hs Hz.
  destruct (Hon Hu) as (s' & Hs' & Hparts & Hnum & Hall).
  assert (Hlen : Buffer_length (Buffer_concat (aggBuffers st) (aggBytes st)) = aggBytes st)
    by (apply Buffer_length_concat; exact Hb).
  unfold flushed. rewrite Hnum.
  destruct (s3 w _ _) as [etag|msg] eqn:Hres.
  - apply sendJSON_trace_ok. fields. apply trace_ok_upload; [exact Htr | exact Hall | lia].
  - fields. apply trace_ok_upload; [exact Htr | exact Hall | lia].
Qed.

Lemma flushPart_Inv w st : Inv st -> Inv (snd (flushPart false w st)).
Proof.
  intros H. destruct (flushPart_cases false w st) as [-> | (s & Hu & Hs & Hz & Hmin & ->)];
    [exact H|].
  apply flushed_Inv; auto.
Qed.

Lemma flushPart_final_trace_ok w st :
  Inv st -> trace_ok (trace (snd (flushPart true w st))).
Proof.
  intros H. destruct (flushPart_cases true w st) as [-> | (s & Hu & Hs & Hz & Hmin & ->)];
    [apply H|].
  apply flushed_trace_ok; auto.
Qed.

Lemma s3_await_state command w st :
  snd (s3_await command w st)
  = record (s3_send command (s3 w (length (trace st)) command)) st.
Proof. unfold s3_await. destruct (s3 w _ _); reflexivity. Qed.

Lemma startMultipart_Inv w st :
  Inv st -> is_set (key st) = true -> Inv (snd (startMultipart w st)).
Proof.
  intros H Hkey. unfold startMultipart, bind, get. cbn.
  destruct (usingMultipart st) eqn:Hu; [exact H|].
  unfold s3_await. destruct (s3 w _ _) as [u|msg]; cbn.
  - apply sendJSON_Inv. destruct H as (Hb & Htr & Hoff & Hon & Hidle).
    destruct (Hoff Hu) as [_ Hzero].
    unfold Inv. fields. split; [exact Hb|]. split; [apply trace_ok_create; exact Htr|].
    rewrite attempts_snoc. cbn [attempts_step].
    split; [discriminate|]. split.
    + intros _. eexists. split; [reflexivity|]. fields. cbn [recorded length].
      repeat split; [lia | constructor].
    + intros Hk. rewrite Hk in Hkey. discriminate.
  - apply Inv_silent; [reflexivity | exact H].
Qed.

Lemma completeUpload_trace_ok w st :
  Inv st -> trace_ok (trace (snd (completeUpload w st))).
Proof.
  intros H. unfold completeUpload, bind, get. cbn.
  destruct (usingMultipart st) eqn:Hu; cbn.
  - pose proof (flushPart_final_trace_ok w st H) as Hflush.
    destruct (flushPart true w st) as [[[]|msg] st1]; cbn in Hflush |- *; [|exact Hflush].
    destruct (session st1) as [s|]; cbn; [|exact Hflush].
    unfold modify. cbn.
    destruct (s3_await _ w _) as [[loc|msg] st2] eqn:Hawait; cbn.
    + apply sendJSON_trace_ok. apply (f_equal snd) in Hawait. rewrite s3_await_state in Hawait.
      cbn [snd] in Hawait. subst st2. fields.
      apply trace_ok_silent; [reflexivity | exact Hflush].
    + apply (f_equal snd) in Hawait. rewrite s3_await_state in Hawait.
      cbn [snd] in Hawait. subst st2. fields.
      apply trace_ok_silent; [reflexivity | exact Hflush].
  - destruct H as (_ & Htr & _).
    destruct (s3_await _ w st) as [[loc|msg] st2] eqn:Hawait; cbn.
    + apply sendJSON_trace_ok. apply (f_equal snd) in Hawait. rewrite s3_await_state in Hawait.
      cbn [snd] in Hawait. subst st2. fields.
      apply trace_ok_silent; [reflexivity | exact Htr].
    + apply (f_equal snd) in Hawait. rewrite s3_await_state in Hawait.
      cbn [snd] in Hawait. subst st2. fields.
      apply trace_ok_silent; [reflexivity | exact Htr].
Qed.

Lemma Inv_reset st : trace_ok (trace st) -> Inv (reset st).
Proof.
  intros H. unfold Inv. fields. split; [lia|]. split; [exact H|].
  split; [auto|]. split; [discriminate | auto].
Qed.

(** The state in which the stop branch leaves an active session. *)
Lemma on_stop_active w st :
  is_set (key st) = true ->
  exists st', snd (on_stop w st) = reset st'
    /\ fst (on_stop w st) = Return tt
    /\ trace st' = trace (snd (try_catch completeUpload
                                 (fun _ => sendJSON (error "Complete multipart failed")) w st)).
Proof.
  intros Hkey. unfold on_stop, bind, get. cbn. rewrite Hkey. cbn.
  unfold try_finally, try_catch, modify.
  destruct (completeUpload w st) as [[[]|msg] st1]; cbn.
  - exists st1. auto.
  - pose proof (sendJSON_Return (error "Complete multipart failed") w st1) as Hret.
    destruct (sendJSON _ w st1) as [r st2]. cbn in Hret. subst r. cbn.
    exists st2. auto.
Qed.

Lemma on_stop_Inv w st : Inv st -> Inv (snd (on_stop w st)).
Proof.
  intros H. destruct (is_set (key st)) eqn:Hkey.
  - destruct (on_stop_active w st Hkey) as (st' & -> & _ & Htr).
    apply Inv_reset. rewrite Htr. unfold try_catch.
    pose proof (completeUpload_trace_ok w st H) as Hc.
    destruct (completeUpload w st) as [[[]|msg] st1]; cbn in Hc |- *; [exact Hc|].
    apply sendJSON_trace_ok. exact Hc.
  - unfold on_stop, bind, get. cbn. rewrite Hkey. cbn. apply sendJSON_Inv. exact H.
Qed.

Lemma on_start_Inv w st : Inv st -> Inv (snd (on_start w st)).
Proof.
  intros H. unfold on_start, bind, get. cbn.
  destruct (is_set (key st)) eqn:Hkey; cbn.
  - pose proof (sendJSON_Inv (error "Upload already in progress") w st H) as Hs.
    destruct (sendJSON _ w st) as [[[]|msg] st1]; exact Hs.
  - unfold make_key, modify. cbn.
    assert (Hk : Inv (set_key (Some (new_key w (length (trace st)))) st)).
    { destruct H as (Hb & Htr & Hoff & Hon & Hidle). unfold Inv. fields.
      split; [exact Hb|]. split; [exact Htr|]. split; [exact Hoff|].
      split; [exact Hon | discriminate]. }
    pose proof (sendJSON_Inv (uploadInfo (Some (new_key w (length (trace st)))) None true)
                  w _ Hk) as Hs.
    destruct (sendJSON _ w _) as [[[]|msg] st1]; exact Hs.
Qed.

(** A frame appended to the buffer of an active session. *)
Definition appended (data : Buffer) (st : State) : State :=
  set_totalReceivedBytes (totalReceivedBytes st + Buffer_length data)
    (set_agg (aggBuffers st ++ [data]) (aggBytes st + Buffer_length data) st).

Lemma appended_Inv data st : Inv st -> is_set (key st) = true -> Inv (appended data st).
Proof.
  intros (Hb & Htr & Hoff & Hon & Hidle) Hkey. unfold Inv, appended. fields.
  pose proof (Buffer_length_nonneg data).
  split; [lia|]. split; [exact Htr|]. split; [exact Hoff|]. split; [exact Hon|].
  intros Hk. rewrite Hk in Hkey. discriminate.
Qed.

Lemma message_body_Inv m w st : Inv st -> Inv (snd (message_body m w st)).
Proof.
  intros H. destruct m as [data|[| |type]]; unfold message_body.
  - unfold bind, get. cbn. destruct (is_set (key st)) eqn:Hkey; cbn.
    + unfold modify. cbn. fold (appended data st).
      pose proof (appended_Inv data st H Hkey) as Happ.
      assert (Hkey' : is_set (key (appended data st)) = true) by exact Hkey.
      set (st0 := appended data st) in *.
      change (usingMultipart st) with (usingMultipart st0).
      change (aggBytes st + Buffer_length data) with (aggBytes st0).
      assert (Hstart : Inv (snd ((if negb (usingMultipart st0) && (MIN_PART_SIZE <=? aggBytes st0)
                                  then startMultipart else ret tt) w st0))).
      { destruct (negb (usingMultipart st0) && (MIN_PART_SIZE <=? aggBytes st0));
          [apply startMultipart_Inv; assumption | exact Happ]. }
      destruct ((if negb (usingMultipart st0) && (MIN_PART_SIZE <=? aggBytes st0)
                 then startMultipart else ret tt) w st0) as [[[]|msg] st1];
        cbn in Hstart |- *; [|exact Hstart].
      destruct (usingMultipart st1 && (TARGET_PART_SIZE <=? aggBytes st1));
        [apply flushPart_Inv; exact Hstart | exact Hstart].
    + apply sendJSON_Inv. exact H.
  - apply sendJSON_Inv. exact H.
  - exact H.
  - unfold bind.
    assert (Hstart : Inv (snd ((if type_is type "start" then on_start else ret false) w st))).
    { destruct (type_is type "start"); [apply on_start_Inv; exact H | exact H]. }
    destruct ((if type_is type "start" then on_start else ret false) w st)
      as [[[]|msg] st1]; cbn in Hstart |- *; try exact Hstart.
    destruct (type_is type "stop"); [apply on_stop_Inv; exact Hstart | exact Hstart].
Qed.

Lemma on_message_Inv m w st : Inv st -> Inv (snd (on_message m w st)).
Proof.
  intros H. unfold on_message, bind, get. cbn. destruct (closed st); [exact H|].
  unfold try_catch. pose proof (message_body_Inv m w st H) as Hb.
  destruct (message_body m w st) as [[[]|msg] st1]; cbn in Hb |- *; [exact Hb|].
  apply sendJSON_Inv. exact Hb.
Qed.

Lemma on_close_Inv w st : Inv st -> Inv (snd (on_close w st)).
Proof.
  intros H. unfold on_close, bind, modify, get. cbn.
  destruct (usingMultipart st); [|exact H].
  destruct (session st) as [s|]; [|exact H].
  unfold try_catch, bind.
  destruct (s3_await _ w _) as [[v|msg] st1] eqn:Hawait; cbn;
    apply (f_equal snd) in Hawait; rewrite s3_await_state in Hawait;
    cbn [snd] in Hawait; subst st1;
    (apply Inv_silent; [reflexivity | exact H]).
Qed.

Lemma step_Inv w e st : Inv st -> Inv (step w st e).
Proof.
  intros H. unfold step. destruct e; cbn [handler];
    [apply on_message_Inv | apply on_close_Inv]; exact H.
Qed.

Lemma run_Inv w events : forall st, Inv st -> Inv (run w events st).
Proof.
  induction events as [|e events IH]; intros st H; [exact H|].
  cbn [run fold_left]. apply IH. apply step_Inv. exact H.
Qed.

(** *** Running a handler on a given state *)

Ltac unfold_handlers :=
  unfold step, handler, on_message, message_body, on_start, on_stop, on_close,
    startMultipart, flushPart, completeUpload, push_part, make_key, try_catch,
    try_finally, sendJSON, s3_await, bind, get, modify, ret, throw, start, stop, frame.

(** Evaluates the innermost [step] of the goal, on a state that is given in
    full; [tac] first rewrites the sizes of the frames. *)
Ltac one_step tac :=
  match goal with
  | |- context [step ?w ?st ?e] =>
      lazymatch st with
      | context [step] => fail
      | _ =>
          let E := fresh "E" in
          eassert (E : step w st e = _);
          [ unfold_handlers; tac;
            lazy -[Buffer_length Buffer_concat frame_of_size]; reflexivity
          | rewrite E; clear E ]
      end
  end.

Ltac frame_sizes :=
  rewrite ?Buffer_length_frame by (unfold MIN_PART_SIZE, TARGET_PART_SIZE; lia).

(** *** Part numbers and sizes *)

Lemma nth_error_removelast {A} (l : list A) i :
  (S i < length l)%nat -> nth_error (removelast l) i = nth_error l i.
Proof.
  revert i. induction l as [|x l IH]; intros i Hi; [cbn in Hi; lia|].
  destruct l as [|y l]; [cbn in Hi; lia|].
  destruct i as [|i]; [reflexivity|].
  cbn [removelast nth_error]. apply IH. cbn [length] in *. lia.
Qed.

(** The recorded parts sit, in order, among the numbered calls. *)
Lemma recorded_from l : forall k,
  map number_of l = map (fun i => Z.of_nat i + 1) (seq k (length l)) ->
  forall i p, nth_error (recorded l) i = Some p ->
    Z.of_nat (k + i) + 1 <= PartNumber p
    /\ ((forall a, In a l -> exists etag, answer_of a = s3_ok etag) ->
        PartNumber p = Z.of_nat (k + i) + 1).
Proof.
  induction l as [|[[n sz] r] l IH]; intros k Hnum i p Hi.
  - destruct i; discriminate.
  - cbn [map length seq] in Hnum. injection Hnum as Hn Hrest.
    unfold number_of in Hn. cbn [fst] in Hn.
    destruct r as [etag|msg]; cbn [recorded] in Hi.
    + destruct i as [|i].
      * injection Hi as <-. cbn [PartNumber]. rewrite Nat.add_0_r. split; [lia|]. intros _. lia.
      * cbn [nth_error] in Hi. destruct (IH (S k) Hrest i p Hi) as [Hle Heq].
        split; [lia|]. intros Hok. rewrite Heq; [lia|].
        intros a Ha. apply Hok. right. exact Ha.
    + destruct (IH (S k) Hrest i p Hi) as [Hle Heq].
      split; [lia|]. intros Hok.
      destruct (Hok (n, sz, s3_error msg)) as [etag Hbad]; [left; reflexivity|].
      discriminate Hbad.
Qed.

(** C3 (as amended): in every state a connection reaches, the i-th
    commit-part call (0-based) since the multipart upload began carries part
    number i + 1, and every such call except possibly the last has a body of
    at least the 5 MiB minimum; [session.parts] holds one entry for each call
    that S3 accepted, in order, so its i-th entry has a number of at least
    i + 1, and exactly i + 1 when no commit-part call was refused. *)
Theorem commit_calls_numbered (w : World) (events : list Event) :
  let st := run w events initial in
  let calls := attempts (trace st) in
  (forall i a, nth_error calls i = Some a ->
     number_of a = Z.of_nat i + 1
     /\ ((S i < length calls)%nat -> MIN_PART_SIZE <= size_of a))
  /\ (forall s, session st = Some s ->
        parts s = recorded calls
        /\ (forall i p, nth_error (parts s) i = Some p ->
              Z.of_nat i + 1 <= PartNumber p
              /\ ((forall a, In a calls -> exists etag, answer_of a = s3_ok etag) ->
                  PartNumber p = Z.of_nat i + 1))).
Proof.
  intros st calls.
  pose proof (run_Inv w events initial Inv_initial) as (Hb & (Hnum & Hbig & Hpos) & Hoff & Hon & Hidle).
  fold st in Hb, Hnum, Hbig, Hpos, Hoff, Hon, Hidle. fold calls in Hnum, Hbig, Hon.
  split.
  - intros i a Hi. split; [eapply numbered_nth; eassumption|].
    intros Hlt. rewrite <- nth_error_removelast in Hi by exact Hlt.
    apply nth_error_In in Hi. rewrite Forall_forall in Hbig. apply Hbig. exact Hi.
  - intros s Hs. destruct (usingMultipart st) eqn:Hu.
    + destruct (Hon eq_refl) as (s' & Hs' & Hparts & _).
      assert (s' = s) by congruence. subst s'. split; [exact Hparts|].
      intros i p Hi. rewrite Hparts in Hi.
      apply (recorded_from calls 0%nat Hnum i p Hi).
    + destruct (Hoff eq_refl) as [Hnone _]. congruence.
Qed.

(** S3 refuses the commit-part call that carries number 1 and accepts every
    other call. *)
Definition first_part_refused : World :=
  {| s3 := fun _ command =>
             match command with
             | UploadPartCommand _ _ 1 _ => s3_error "SlowDown"
             | _ => s3_ok "x"
             end;
     ws_OPEN := fun _ => true;
     new_key := fun _ => "k"%string |}.

(** C3 as the claim words it fails: after a refused commit-part call the
    session goes on, and the first part it records has number 2. *)
Lemma first_recorded_part_has_number_2 :
  exists s,
    session (run first_part_refused
               [start; frame (frame_of_size TARGET_PART_SIZE);
                frame (frame_of_size TARGET_PART_SIZE)] initial) = Some s
    /\ nth_error (parts s) 0 = Some {| PartNumber := 2; ETag := "x" |}.
Proof.
  cbn [run fold_left].
  one_step idtac. one_step frame_sizes. one_step frame_sizes.
  eexists. split; reflexivity.
Qed.

(** *** No empty part *)

Lemma flushPart_empty_buffer isFinal w st :
  aggBytes st = 0 -> flushPart isFinal w st = (Return tt, st).
Proof.
  intros Hz. unfold flushPart, bind, get. cbn.
  destruct (usingMultipart st); [|reflexivity].
  destruct (session st); [|reflexivity].
  rewrite Hz. reflexivity.
Qed.

(** C9: [flushPart] does nothing when the aggregation buffer is empty, forced
    or not, and in every state a connection reaches each commit-part call it
    has made, accepted or refused, carried a body of at least one byte. *)
Theorem no_zero_byte_part (w : World) (events : list Event) :
  (forall isFinal st, aggBytes st = 0 -> flushPart isFinal w st = (Return tt, st))
  /\ Forall positive_upload (trace (run w events initial))
  /\ Forall (fun a => 0 < size_of a) (attempts (trace (run w events initial))).
Proof.
  split; [intros isFinal st Hz; apply flushPart_empty_buffer; exact Hz|].
  pose proof (run_Inv w events initial Inv_initial) as (_ & (_ & _ & Hpos) & _).
  split; [exact Hpos|].
  revert Hpos. generalize (trace (run w events initial)) as tr.
  induction tr as [|e tr IH] using rev_ind; intros Hpos; [constructor|].
  apply Forall_app in Hpos as [Htr He]. specialize (IH Htr).
  rewrite attempts_snoc.
  destruct e as [[k|k u n b|k u ps|k u|k b] [v|m]|obj]; cbn [attempts_step];
    try exact IH; try constructor;
    (apply Forall_app; split; [exact IH|]; constructor; [|constructor];
     apply Forall_inv in He; exact He).
Qed.

(** *** Stop, then start *)

Lemma sendJSON_fields obj w st :
  let st' := snd (sendJSON obj w st) in
  session st' = session st /\ partNumber st' = partNumber st
  /\ closed st' = closed st /\ aggBuffers st' = aggBuffers st
  /\ aggBytes st' = aggBytes st /\ usingMultipart st' = usingMultipart st
  /\ key st' = key st.
Proof. cbn zeta. destruct (sendJSON_cases obj w st) as [-> | ->]; repeat split. Qed.

Lemma sendJSON_closed obj w st : closed (snd (sendJSON obj w st)) = closed st.
Proof. apply sendJSON_fields. Qed.

Lemma flushPart_closed isFinal w st : closed (snd (flushPart isFinal w st)) = closed st.
Proof.
  destruct (flushPart_cases isFinal w st) as [-> | (s & _ & _ & _ & _ & ->)];
    [reflexivity | apply flushed_fields].
Qed.

Lemma completeUpload_closed w st : closed (snd (completeUpload w st)) = closed st.
Proof.
  unfold completeUpload, bind, get. cbn. destruct (usingMultipart st); cbn.
  - pose proof (flushPart_closed true w st) as Hf.
    destruct (flushPart true w st) as [[[]|msg] st1]; cbn in Hf |- *; [|exact Hf].
    destruct (session st1) as [s|]; cbn; [|exact Hf].
    unfold modify. cbn.
    destruct (s3_await _ w _) as [[loc|msg] st2] eqn:Hawait; cbn;
      apply (f_equal snd) in Hawait; rewrite s3_await_state in Hawait;
      cbn [snd] in Hawait; subst st2; [rewrite sendJSON_closed|]; exact Hf.
  - destruct (s3_await _ w st) as [[loc|msg] st2] eqn:Hawait; cbn;
      apply (f_equal snd) in Hawait; rewrite s3_await_state in Hawait;
      cbn [snd] in Hawait; subst st2; [rewrite sendJSON_closed|]; reflexivity.
Qed.

Lemma on_stop_Return w st : fst (on_stop w st) = Return tt.
Proof.
  destruct (is_set (key st)) eqn:Hkey.
  - destruct (on_stop_active w st Hkey) as (st' & _ & Hret & _). exact Hret.
  - unfold on_stop, bind, get. cbn. rewrite Hkey. cbn. apply sendJSON_Return.
Qed.

Lemma step_stop w st : closed st = false -> step w st stop = snd (on_stop w st).
Proof.
  intros Hc. unfold step, stop, handler, on_message, bind, get. cbn. rewrite Hc.
  unfold try_catch, message_body, bind, ret. cbn.
  pose proof (on_stop_Return w st) as Hret.
  destruct (on_stop w st) as [r st']. cbn in Hret. subst r. reflexivity.
Qed.

Lemma on_stop_closed w st : closed (snd (on_stop w st)) = closed st.
Proof.
  unfold on_stop, bind, get. cbn. destruct (is_set (key st)); cbn.
  - unfold try_finally, try_catch, modify.
    pose proof (completeUpload_closed w st) as Hc.
    destruct (completeUpload w st) as [[[]|msg] st1]; cbn in Hc |- *; [exact Hc|].
    pose proof (sendJSON_closed (error "Complete multipart failed") w st1) as Hs.
    destruct (sendJSON _ w st1) as [[[]|msg'] st2]; cbn in Hs |- *; congruence.
  - apply sendJSON_closed.
Qed.

Lemma step_start_idle w st :
  closed st = false -> key st = None ->
  step w st start
  = snd (sendJSON (uploadInfo (Some (new_key w (length (trace st)))) None true) w
           (set_key (Some (new_key w (length (trace st)))) st)).
Proof.
  intros Hc Hk. unfold step, start, handler, on_message, bind, get. cbn. rewrite Hc.
  unfold try_catch, message_body, bind, ret. cbn.
  unfold on_start, bind, get, make_key, modify, ret. cbn. rewrite Hk. cbn.
  match goal with
  | |- context [sendJSON ?o w ?s] =>
      pose proof (sendJSON_Return o w s) as Hret; destruct (sendJSON o w s) as [r st']
  end.
  cbn in Hret. subst r. reflexivity.
Qed.

(** C10: in every state a connection reaches before it closes, once the
    handler of a stop request has run, whatever S3 answered and also when
    the finalize failed, the session record, the key, the part counter, the
    aggregation buffer and the multipart flag are all reset; a start request
    that follows is then given a new key and acknowledged with uploadInfo, and
    no conflict error is sent. *)
Theorem stop_resets_session (w : World) (events : list Event) :
  let st := run w events initial in
  closed st = false ->
  let st1 := step w st stop in
  let st2 := step w st1 start in
  let k := new_key w (length (trace st1)) in
  (session st1 = None /\ key st1 = None /\ partNumber st1 = 0
   /\ aggBuffers st1 = [] /\ aggBytes st1 = 0 /\ usingMultipart st1 = false)
  /\ key st2 = Some k
  /\ trace st2 = trace st1
       ++ (if ws_OPEN w (length (trace st1))
           then [ws_send (uploadInfo (Some k) None true)] else []).
Proof.
  intros st Hc st1 st2 k.
  pose proof (run_Inv w events initial Inv_initial) as HInv. fold st in HInv.
  assert (Hreset : session st1 = None /\ key st1 = None /\ partNumber st1 = 0
                   /\ aggBuffers st1 = [] /\ aggBytes st1 = 0
                   /\ usingMultipart st1 = false).
  { subst st1. rewrite step_stop by exact Hc.
    destruct (is_set (key st)) eqn:Hkey.
    - destruct (on_stop_active w st Hkey) as (st' & -> & _). repeat split.
    - unfold on_stop, bind, get. cbn. rewrite Hkey. cbn.
      destruct (sendJSON_fields (error "No active session to stop") w st)
        as (-> & -> & _ & -> & -> & -> & ->).
      destruct HInv as (_ & _ & Hoff & _ & Hidle).
      assert (Hk : key st = None) by (destruct (key st); [discriminate | reflexivity]).
      destruct (Hidle Hk) as (Hu & Hbuf & Hbytes). destruct (Hoff Hu) as [Hs Hn].
      repeat split; assumption. }
  split; [exact Hreset|].
  assert (Hc1 : closed st1 = false).
  { subst st1. rewrite step_stop by exact Hc. rewrite on_stop_closed. exact Hc. }
  destruct Hreset as (_ & Hk1 & _).
  subst st2. rewrite step_start_idle by assumption. fold k.
  unfold sendJSON. cbn [trace set_key].
  destruct (ws_OPEN w (length (trace st1))); cbn; [split; reflexivity|].
  split; [reflexivity | rewrite app_nil_r; reflexivity].
Qed.

Lemma stop_resets_session_witness :
  closed (run first_part_refused [start; frame ["a"%byte]] initial) = false
  /\ key (step first_part_refused
            (step first_part_refused
               (run first_part_refused [start; frame ["a"%byte]] initial) stop) start)
     = Some "k"%string.
Proof.
  split; [reflexivity|].
  apply (stop_resets_session first_part_refused [start; frame ["a"%byte]]).
  reflexivity.
Defined.

(** *** The begin-multipart call *)

Definition is_stop (e : Event) : bool :=
  match e with
  | message (text (parsed type)) => type_is type "stop"
  | _ => false
  end.

Definition creates (st : State) : nat := count is_create (trace st).
Definition accepted (st : State) : nat := count is_accepted_create (trace st).

(** Nothing that matters to the guard has changed. *)
Definition quiet (st st' : State) : Prop :=
  usingMultipart st' = usingMultipart st
  /\ creates st' = creates st /\ accepted st' = accepted st.

(** In Multipart mode no begin call is made and the mode stays; and a begin
    call that S3 accepts uses up the one that an Undecided session has. *)
Definition guarded (st st' : State) : Prop :=
  (usingMultipart st = true ->
   usingMultipart st' = true /\ creates st' = creates st)
  /\ (accepted st' + (if usingMultipart st' then 0 else 1)
      <= accepted st + (if usingMultipart st then 0 else 1))%nat.

Lemma count_snoc f tr e :
  count f (tr ++ [e]) = (count f tr + (if f e then 1 else 0))%nat.
Proof.
  unfold count. rewrite filter_app, length_app. cbn. destruct (f e); reflexivity.
Qed.

Lemma quiet_refl st : quiet st st.
Proof. repeat split. Qed.

Lemma quiet_trans st1 st2 st3 : quiet st1 st2 -> quiet st2 st3 -> quiet st1 st3.
Proof. unfold quiet. intuition congruence. Qed.

Lemma quiet_record e st : is_create e = false -> quiet st (record e st).
Proof.
  intros He. unfold quiet, creates, accepted. fields. rewrite !count_snoc, He.
  assert (Ha : is_accepted_create e = false).
  { destruct e as [[k|k u n b|k u ps|k u|k b] [v|m]|obj]; cbn in *; congruence. }
  rewrite Ha. repeat split; lia.
Qed.

Lemma quiet_sendJSON obj w st : quiet st (snd (sendJSON obj w st)).
Proof.
  destruct (sendJSON_cases obj w st) as [-> | ->];
    [apply quiet_refl | apply quiet_record; reflexivity].
Qed.

Lemma quiet_guarded st st' : quiet st st' -> guarded st st'.
Proof. unfold quiet, guarded. intros (-> & -> & ->). split; [auto | lia]. Qed.

Lemma guarded_trans st1 st2 st3 : guarded st1 st2 -> guarded st2 st3 -> guarded st1 st3.
Proof.
  unfold guarded. intros [H1 L1] [H2 L2]. split; [|lia].
  intros Hu. destruct (H1 Hu) as [Hu2 Hc2]. destruct (H2 Hu2) as [Hu3 Hc3].
  split; congruence.
Qed.

Lemma quiet_flushed w st s : quiet st (flushed w st s).
Proof.
  unfold flushed. destruct (s3 w _ _) as [etag|msg].
  - eapply quiet_trans; [|apply quiet_sendJSON].
    apply (quiet_record _ (set_agg [] 0 (set_partNumber (partNumber st + 1) st))).
    reflexivity.
  - apply (quiet_record _ (set_agg [] 0 (set_partNumber (partNumber st + 1) st))).
    reflexivity.
Qed.

Lemma quiet_flushPart isFinal w st : quiet st (snd (flushPart isFinal w st)).
Proof.
  destruct (flushPart_cases isFinal w st) as [-> | (s & _ & _ & _ & _ & ->)];
    [apply quiet_refl | apply quiet_flushed].
Qed.

Lemma guarded_startMultipart w st : guarded st (snd (startMultipart w st)).
Proof.
  unfold startMultipart, bind, get. cbn.
  destruct (usingMultipart st) eqn:Hu; [apply quiet_guarded, quiet_refl|].
  unfold s3_await. destruct (s3 w _ _) as [u|msg]; cbn.
  - match goal with
    | |- guarded st (snd (sendJSON ?o w ?s)) =>
        apply (guarded_trans st s); [|apply quiet_guarded, quiet_sendJSON]
    end.
    unfold guarded, accepted. fields. rewrite Hu, count_snoc. cbn. split; [discriminate | lia].
  - unfold guarded, accepted. fields. rewrite Hu, count_snoc. cbn. split; [discriminate | lia].
Qed.

Lemma quiet_on_start w st : quiet st (snd (on_start w st)).
Proof.
  unfold on_start, bind, get. cbn. destruct (is_set (key st)); cbn.
  - pose proof (quiet_sendJSON (error "Upload already in progress") w st) as Hq.
    destruct (sendJSON _ w st) as [[[]|msg] st1]; exact Hq.
  - unfold make_key, modify. cbn.
    match goal with
    | |- context [sendJSON ?o w ?s] => pose proof (quiet_sendJSON o w s) as Hq
    end.
    destruct (sendJSON _ w _) as [[[]|msg] st1]; exact Hq.
Qed.

Lemma guarded_message_body m w st :
  is_stop (message m) = false -> guarded st (snd (message_body m w st)).
Proof.
  intros Hns. destruct m as [data|[| |type]]; unfold message_body.
  - unfold bind, get. cbn. destruct (is_set (key st)); cbn;
      [|apply quiet_guarded, quiet_sendJSON].
    unfold modify. cbn. fold (appended data st).
    set (st0 := appended data st).
    change (usingMultipart st) with (usingMultipart st0).
    change (aggBytes st + Buffer_length data) with (aggBytes st0).
    apply (guarded_trans st st0); [apply quiet_guarded; repeat split|].
    assert (Hstart : guarded st0
              (snd ((if negb (usingMultipart st0) && (MIN_PART_SIZE <=? aggBytes st0)
                     then startMultipart else ret tt) w st0))).
    { destruct (negb (usingMultipart st0) && (MIN_PART_SIZE <=? aggBytes st0));
        [apply guarded_startMultipart | apply quiet_guarded, quiet_refl]. }
    destruct ((if negb (usingMultipart st0) && (MIN_PART_SIZE <=? aggBytes st0)
               then startMultipart else ret tt) w st0) as [[[]|msg] st1];
      cbn in Hstart |- *; [|exact Hstart].
    eapply guarded_trans; [exact Hstart|].
    destruct (usingMultipart st1 && (TARGET_PART_SIZE <=? aggBytes st1));
      apply quiet_guarded; [apply quiet_flushPart | apply quiet_refl].
  - apply quiet_guarded, quiet_sendJSON.
  - apply quiet_guarded, quiet_refl.
  - cbn [is_stop] in Hns. unfold bind.
    assert (Hstart : quiet st (snd ((if type_is type "start" then on_start else ret false) w st))).
    { destruct (type_is type "start"); [apply quiet_on_start | apply quiet_refl]. }
    destruct ((if type_is type "start" then on_start else ret false) w st)
      as [[[]|msg] st1]; cbn in Hstart |- *; try (apply quiet_guarded; exact Hstart).
    rewrite Hns. apply quiet_guarded. exact Hstart.
Qed.

Lemma guarded_step w st e : is_stop e = false -> guarded st (step w st e).
Proof.
  intros Hns. unfold step. destruct e as [m|]; cbn [handler].
  - unfold on_message, bind, get. cbn. destruct (closed st);
      [apply quiet_guarded, quiet_refl|].
    unfold try_catch. pose proof (guarded_message_body m w st Hns) as Hb.
    destruct (message_body m w st) as [[[]|msg] st1]; cbn in Hb |- *; [exact Hb|].
    eapply guarded_trans; [exact Hb | apply quiet_guarded, quiet_sendJSON].
  - unfold on_close, bind, modify, get. cbn.
    destruct (usingMultipart st) eqn:Hu; [|apply quiet_guarded; repeat split; exact Hu].
    destruct (session st) as [s|]; [|apply quiet_guarded; repeat split; exact Hu].
    unfold try_catch, bind.
    destruct (s3_await _ w _) as [[v|msg] st1] eqn:Hawait; cbn;
      apply (f_equal snd) in Hawait; rewrite s3_await_state in Hawait;
      cbn [snd] in Hawait; subst st1; apply quiet_guarded;
      (eapply quiet_trans; [|apply quiet_record; reflexivity]);
      repeat split; exact Hu.
Qed.

Lemma guarded_run w events : forall st,
  forallb (fun e => negb (is_stop e)) events = true -> guarded st (run w events st).
Proof.
  induction events as [|e events IH]; intros st Hns; [apply quiet_guarded, quiet_refl|].
  cbn [forallb] in Hns. apply andb_prop in Hns as [He Hrest].
  cbn [run fold_left]. eapply guarded_trans; [|apply IH; exact Hrest].
  apply guarded_step. destruct (is_stop e); [discriminate | reflexivity].
Qed.

(** The handler of [e] is the handler of a frame that finds the connection
    open with a session under way, the mode Undecided, and the threshold
    reached by the bytes buffered together with the frame. *)
Definition begins (st : State) (e : Event) : bool :=
  match e with
  | message (binary data) =>
      negb (closed st) && is_set (key st) && negb (usingMultipart st)
      && (MIN_PART_SIZE <=? aggBytes st + Buffer_length data)
  | _ => false
  end.

Lemma creates_record e st :
  creates (record e st) = (creates st + (if is_create e then 1 else 0))%nat.
Proof. unfold creates. fields. apply count_snoc. Qed.

Lemma creates_sendJSON obj w st : creates (snd (sendJSON obj w st)) = creates st.
Proof. apply quiet_sendJSON. Qed.

Lemma creates_flushPart isFinal w st : creates (snd (flushPart isFinal w st)) = creates st.
Proof. apply quiet_flushPart. Qed.

(** [startMultipart] in Undecided mode: one begin call, and the mode is
    Multipart afterwards exactly when S3 accepted the call. *)
Lemma startMultipart_undecided w st :
  usingMultipart st = false ->
  creates (snd (startMultipart w st)) = S (creates st)
  /\ closed (snd (startMultipart w st)) = closed st
  /\ key (snd (startMultipart w st)) = key st
  /\ aggBytes (snd (startMultipart w st)) = aggBytes st
  /\ match s3 w (length (trace st)) (CreateMultipartUploadCommand (key st)) with
     | s3_ok _ =>
         fst (startMultipart w st) = Return tt
         /\ usingMultipart (snd (startMultipart w st)) = true
     | s3_error rejection =>
         fst (startMultipart w st) = Throw rejection
         /\ usingMultipart (snd (startMultipart w st)) = false
     end.
Proof.
  intros Hu. unfold startMultipart, bind, get. cbn. rewrite Hu.
  unfold s3_await, modify. cbn.
  destruct (s3 w (length (trace st)) (CreateMultipartUploadCommand (key st))) as [u|msg];
    cbn [fst snd].
  - match goal with
    | |- context [sendJSON ?o w ?s] =>
        pose proof (sendJSON_fields o w s) as (_ & _ & Hc & _ & Hb & Hm & Hk);
        pose proof (creates_sendJSON o w s) as Hn;
        pose proof (sendJSON_Return o w s) as Hr
    end.
    cbn zeta in *. rewrite Hn, Hc, Hb, Hm, Hk, Hr. unfold creates. fields.
    rewrite count_snoc. cbn. repeat split. lia.
  - unfold creates. fields. rewrite count_snoc. cbn. repeat split; [lia | exact Hu].
Qed.

Lemma completeUpload_creates w st : creates (snd (completeUpload w st)) = creates st.
Proof.
  unfold completeUpload, bind, get. cbn. destruct (usingMultipart st); cbn.
  - pose proof (creates_flushPart true w st) as Hf.
    destruct (flushPart true w st) as [[[]|msg] st1]; cbn in Hf |- *; [|exact Hf].
    destruct (session st1) as [s|]; cbn; [|exact Hf].
    unfold modify. cbn.
    destruct (s3_await _ w _) as [[loc|msg] st2] eqn:Hawait; cbn;
      apply (f_equal snd) in Hawait; rewrite s3_await_state in Hawait;
      cbn [snd] in Hawait; subst st2; rewrite ?creates_sendJSON, creates_record;
      cbn; rewrite Nat.add_0_r; exact Hf.
  - destruct (s3_await _ w st) as [[loc|msg] st2] eqn:Hawait; cbn;
      apply (f_equal snd) in Hawait; rewrite s3_await_state in Hawait;
      cbn [snd] in Hawait; subst st2; rewrite ?creates_sendJSON, creates_record;
      cbn; apply Nat.add_0_r.
Qed.

Lemma on_stop_creates w st : creates (snd (on_stop w st)) = creates st.
Proof.
  destruct (is_set (key st)) eqn:Hkey.
  - destruct (on_stop_active w st Hkey) as (st' & -> & _ & Htr).
    unfold creates in *. fields. rewrite Htr. unfold try_catch.
    pose proof (completeUpload_creates w st) as Hc. unfold creates in Hc.
    destruct (completeUpload w st) as [[[]|msg] st1]; cbn in Hc |- *; [exact Hc|].
    pose proof (creates_sendJSON (error "Complete multipart failed") w st1) as Hs.
    unfold creates in Hs. congruence.
  - unfold on_stop, bind, get. cbn. rewrite Hkey. cbn. apply creates_sendJSON.
Qed.

Lemma flushPart_key isFinal w st : key (snd (flushPart isFinal w st)) = key st.
Proof.
  destruct (flushPart_cases isFinal w st) as [-> | (s & _ & _ & _ & _ & ->)];
    [reflexivity | apply flushed_fields].
Qed.

(** The commit that ends the handler of a frame. *)
Lemma commit_when_due w st :
  let st' := snd ((if usingMultipart st && (TARGET_PART_SIZE <=? aggBytes st)
                   then flushPart false else ret tt) w st) in
  closed st' = closed st /\ key st' = key st
  /\ usingMultipart st' = usingMultipart st /\ creates st' = creates st.
Proof.
  cbn zeta. destruct (usingMultipart st && (TARGET_PART_SIZE <=? aggBytes st)).
  - destruct (quiet_flushPart false w st) as (Hu & Hn & _).
    repeat split; [apply flushPart_closed | apply flushPart_key | exact Hu | exact Hn].
  - repeat split.
Qed.

(** What the handler of a frame does to the mode and to the number of begin
    calls. *)
Lemma frame_body_begins data w st :
  is_set (key st) = true ->
  let st' := snd (message_body (binary data) w st) in
  closed st' = closed st /\ key st' = key st
  /\ if negb (usingMultipart st) && (MIN_PART_SIZE <=? aggBytes st + Buffer_length data)
     then creates st' = S (creates st)
          /\ match s3 w (length (trace st)) (CreateMultipartUploadCommand (key st)) with
             | s3_ok _ => usingMultipart st' = true
             | s3_error _ =>
                 usingMultipart st' = false
                 /\ aggBytes st' = aggBytes st + Buffer_length data
             end
     else creates st' = creates st.
Proof.
  intros Hkey. cbn zeta. unfold message_body, bind, get. cbn. rewrite Hkey. cbn.
  unfold modify. cbn. fold (appended data st).
  set (st0 := appended data st).
  change (usingMultipart st) with (usingMultipart st0).
  change (aggBytes st + Buffer_length data) with (aggBytes st0).
  change (closed st) with (closed st0). change (key st) with (key st0).
  change (creates st) with (creates st0). change (trace st) with (trace st0).
  clearbody st0.
  destruct (negb (usingMultipart st0) && (MIN_PART_SIZE <=? aggBytes st0)) eqn:Hdue.
  - apply andb_prop in Hdue as [Hu0 _]. apply negb_true_iff in Hu0.
    destruct (startMultipart_undecided w st0 Hu0) as (Hn & Hc & Hk & Hb & Hres).
    destruct (s3 w (length (trace st0)) (CreateMultipartUploadCommand (key st0)))
      as [u|msg]; destruct Hres as [Hret Hu1];
      destruct (startMultipart w st0) as [r st1]; cbn [fst snd] in *; subst r;
      cbn [fst snd].
    + destruct (commit_when_due w st1) as (Hc2 & Hk2 & Hu2 & Hn2).
      repeat split; congruence.
    + repeat split; assumption.
  - unfold ret at 1. cbn [fst snd].
    destruct (commit_when_due w st0) as (Hc2 & Hk2 & Hu2 & Hn2).
    repeat split; assumption.
Qed.

(** A begin call is made by the handlers of the frames that find the session
    Undecided with the threshold reached, once by each, and by no other
    handler. *)
Lemma step_creates w st e :
  creates (step w st e) = (creates st + (if begins st e then 1 else 0))%nat.
Proof.
  unfold step. destruct e as [m|]; cbn [handler].
  - unfold on_message, bind, get. cbn [fst snd].
    destruct (closed st) eqn:Hc.
    { unfold ret. cbn [snd]. destruct m; cbn [begins]; rewrite ?Hc; cbn [negb andb]; lia. }
    unfold try_catch.
    assert (Hbody : creates (snd (message_body m w st))
                    = (creates st + (if begins st (message m) then 1 else 0))%nat).
    { destruct m as [data|[| |type]]; cbn [begins].
      - rewrite Hc. cbn [negb andb].
        destruct (is_set (key st)) eqn:Hkey; cbn [andb].
        + destruct (frame_body_begins data w st Hkey) as (_ & _ & Hn).
          destruct (negb (usingMultipart st)
                    && (MIN_PART_SIZE <=? aggBytes st + Buffer_length data));
            [destruct Hn as [-> _]; lia | rewrite Hn; lia].
        + unfold message_body, bind, get. cbn. rewrite Hkey. cbn.
          rewrite creates_sendJSON. lia.
      - unfold message_body. rewrite creates_sendJSON. lia.
      - unfold message_body, throw. cbn [snd]. lia.
      - unfold message_body, bind.
        assert (Hstart : creates (snd ((if type_is type "start" then on_start else ret false)
                                         w st)) = creates st).
        { destruct (type_is type "start"); [apply quiet_on_start | reflexivity]. }
        destruct ((if type_is type "start" then on_start else ret false) w st)
          as [[[]|msg] st1]; cbn in Hstart |- *; try lia.
        destruct (type_is type "stop"); [rewrite on_stop_creates|]; cbn; lia. }
    destruct (message_body m w st) as [[[]|msg] st1]; cbn in Hbody |- *; [exact Hbody|].
    rewrite creates_sendJSON. exact Hbody.
  - cbn [begins]. rewrite Nat.add_0_r. unfold on_close, bind, modify, get. cbn.
    destruct (usingMultipart st); [|reflexivity].
    destruct (session st) as [s|]; [|reflexivity].
    unfold try_catch, bind.
    destruct (s3_await _ w _) as [[v|msg] st1] eqn:Hawait; cbn;
      apply (f_equal snd) in Hawait; rewrite s3_await_state in Hawait;
      cbn [snd] in Hawait; subst st1; rewrite creates_record; cbn [is_create];
      rewrite Nat.add_0_r; reflexivity.
Qed.

(** The mode after such a handler: Multipart when S3 accepted the begin call,
    and still Undecided, with the frame buffered, when S3 refused it. *)
Lemma step_begins w st data :
  begins st (frame data) = true ->
  match s3 w (length (trace st)) (CreateMultipartUploadCommand (key st)) with
  | s3_ok _ => usingMultipart (step w st (frame data)) = true
  | s3_error _ =>
      usingMultipart (step w st (frame data)) = false
      /\ forall data', begins (step w st (frame data)) (frame data') = true
  end.
Proof.
  unfold frame. cbn [begins]. intros Hb.
  apply andb_prop in Hb as [Hb Hmin]. apply andb_prop in Hb as [Hb Hu].
  apply andb_prop in Hb as [Hc Hkey].
  apply negb_true_iff in Hc. apply Z.leb_le in Hmin.
  destruct (frame_body_begins data w st Hkey) as (Hc1 & Hk1 & Hcase).
  rewrite Hu in Hcase. cbn [andb] in Hcase.
  destruct (Z.leb_spec MIN_PART_SIZE (aggBytes st + Buffer_length data)); [|lia].
  destruct Hcase as [_ Hcase].
  unfold step. cbn [handler]. unfold on_message, bind, get. cbn. rewrite Hc.
  unfold try_catch.
  destruct (s3 w (length (trace st)) (CreateMultipartUploadCommand (key st))) as [u|msg].
  - destruct (message_body (binary data) w st) as [[[]|rejection] st1]; cbn in Hcase |- *;
      [exact Hcase|].
    destruct (sendJSON_fields (error (message_or_default rejection)) w st1)
      as (_ & _ & _ & _ & _ & -> & _). exact Hcase.
  - destruct Hcase as [Hu1 Hb1].
    assert (Hall : forall st', usingMultipart st' = false -> closed st' = false ->
                     key st' = key st -> aggBytes st' = aggBytes st + Buffer_length data ->
                     usingMultipart st' = false
                     /\ forall data', begins st' (message (binary data')) = true).
    { intros st' H1 H2 H3 H4. split; [exact H1|]. intros data'. cbn [begins].
      rewrite H1, H2, H3, Hkey, H4. cbn.
      pose proof (Buffer_length_nonneg data').
      destruct (Z.leb_spec MIN_PART_SIZE (aggBytes st + Buffer_length data + Buffer_length data'));
        [reflexivity | lia]. }
    destruct (message_body (binary data) w st) as [[[]|rejection] st1];
      cbn in Hc1, Hk1, Hu1, Hb1 |- *.
    + apply Hall; congruence.
    + destruct (sendJSON_fields (error (message_or_default rejection)) w st1)
        as (_ & _ & Hc2 & _ & Hb2 & Hu2 & Hk2).
      apply Hall; congruence.
Qed.

(** C4 (as amended): a begin-multipart call is made by the handler of a
    frame that finds the session Undecided with the threshold reached (the
    bytes buffered together with the frame are 5 MiB or more), exactly one
    by each such handler, and by no other handler.  When S3 accepts the call
    the mode is Multipart; when S3 refuses it the mode is still Undecided and
    the frame stays buffered, so the handler of the next frame, whatever the
    frame, finds the threshold reached and makes the call again.  Over any
    events with no stop request among them, so within one session, handled
    one at a time: once the mode is Multipart it stays Multipart and no
    further begin call is made, whatever frames arrive, and at most one
    begin call is accepted by S3. *)
Theorem begin_call_guarded (w : World) (st : State) (events : list Event) :
  forallb (fun e => negb (is_stop e)) events = true ->
  (forall e,
      count is_create (trace (step w st e))
      = (count is_create (trace st) + (if begins st e then 1 else 0))%nat)
  /\ (forall data,
        begins st (frame data) = true ->
        match s3 w (length (trace st)) (CreateMultipartUploadCommand (key st)) with
        | s3_ok _ => usingMultipart (step w st (frame data)) = true
        | s3_error _ =>
            usingMultipart (step w st (frame data)) = false
            /\ forall data', begins (step w st (frame data)) (frame data') = true
        end)
  /\ (usingMultipart st = true ->
      usingMultipart (run w events st) = true
      /\ count is_create (trace (run w events st)) = count is_create (trace st))
  /\ (count is_accepted_create (trace (run w events st))
      <= count is_accepted_create (trace st) + 1)%nat.
Proof.
  intros Hns. split; [intros e; apply step_creates|].
  split; [intros data Hb; apply step_begins; exact Hb|].
  destruct (guarded_run w events st Hns) as [Hon Hpot].
  split; [exact Hon|]. unfold accepted in Hpot.
  destruct (usingMultipart (run w events st)), (usingMultipart st); lia.
Qed.

(** A session under way with nothing buffered; a frame of 5 MiB then reaches
    the threshold. *)
Definition under_way : State := step first_part_refused initial start.

Lemma begin_call_guarded_witness :
  begins under_way (frame (frame_of_size MIN_PART_SIZE)) = true
  /\ count is_create
       (trace (step first_part_refused under_way (frame (frame_of_size MIN_PART_SIZE))))
     = 1%nat
  /\ usingMultipart (step first_part_refused under_way (frame (frame_of_size MIN_PART_SIZE)))
     = true
  /\ (count is_accepted_create
        (trace (run first_part_refused
                  [frame (frame_of_size MIN_PART_SIZE); frame ["a"%byte]] under_way))
      <= count is_accepted_create (trace under_way) + 1)%nat.
Proof.
  assert (Hb : begins under_way (frame (frame_of_size MIN_PART_SIZE)) = true).
  { unfold frame. cbn [begins].
    rewrite Buffer_length_frame by (unfold MIN_PART_SIZE; lia). reflexivity. }
  destruct (begin_call_guarded first_part_refused under_way
              [frame (frame_of_size MIN_PART_SIZE); frame ["a"%byte]] eq_refl)
    as (Hcount & Hmode & _ & Hone).
  split; [exact Hb|]. split; [rewrite Hcount, Hb; reflexivity|].
  split; [exact (Hmode _ Hb) | exact Hone].
Defined.

(** S3 refuses the second thing the connection does and accepts the rest. *)
Definition first_create_refused : World :=
  {| s3 := fun n _ => match n with 1%nat => s3_error "SlowDown" | _ => s3_ok "x" end;
     ws_OPEN := fun _ => true;
     new_key := fun _ => "k"%string |}.

(** C4 as the claim words it fails: the begin-multipart call of the frame that
    reaches 5 MiB is refused, and the next frame of the same session makes
    the call again. *)
Lemma begin_call_made_twice :
  count is_create
    (trace (run first_create_refused
              [start; frame (frame_of_size MIN_PART_SIZE); frame (frame_of_size 1)]
              initial))
  = 2%nat.
Proof.
  cbn [run fold_left].
  one_step idtac. one_step frame_sizes. one_step frame_sizes.
  reflexivity.
Qed.

(** *** Scenario A: three frames of 2 MiB *)

Definition MiB : Z := 1024 * 1024.

Lemma Buffer_length_app a b :
  Buffer_length (a ++ b) = Buffer_length a + Buffer_length b.
Proof. unfold Buffer_length. rewrite length_app. lia. Qed.

(** A world in which S3 accepts every call, with any answers, and the socket
    stays open. *)
Definition accepting (answer : nat -> S3Command -> string) (keys : nat -> string)
    : World :=
  {| s3 := fun n command => s3_ok (answer n command);
     ws_OPEN := fun _ => true;
     new_key := keys |}.

Definition fair_weather : World := accepting (fun _ _ => "x"%string) (fun _ => "k"%string).

(** C2 (as amended): with S3 accepting every call and the socket open, after
    start and two frames of 2 MiB the buffer holds 4 MiB, the mode is still
    Undecided and S3 has not been called; the third frame reaches 5 MiB, so
    multipart begins on frame 3, and in the same handler the 6 MiB buffered
    reach the 6 MiB target and are committed as part 1, of 6 MiB; stop then
    finds the buffer empty, commits nothing more and completes the multipart
    upload with exactly that one part. *)
Theorem scenario_A (answer : nat -> S3Command -> string) (keys : nat -> string)
    (f1 f2 f3 : Buffer) :
  Buffer_length f1 = 2 * MiB ->
  Buffer_length f2 = 2 * MiB ->
  Buffer_length f3 = 2 * MiB ->
  let w := accepting answer keys in
  let st2 := run w [start; frame f1; frame f2] initial in
  let st3 := step w st2 (frame f3) in
  let st4 := step w st3 stop in
  exists k u etag location,
    (usingMultipart st2 = false /\ aggBytes st2 = 4 * MiB
     /\ trace st2 = [ws_send (uploadInfo (Some k) None true)])
    /\ (usingMultipart st3 = true /\ aggBytes st3 = 0
        /\ trace st3
           = trace st2
             ++ [s3_send (CreateMultipartUploadCommand (Some k)) (s3_ok u);
                 ws_send (uploadInfo (Some k) (Some u) false);
                 s3_send (UploadPartCommand (Some k) u 1 (f1 ++ f2 ++ f3)) (s3_ok etag);
                 ws_send (partAck 1 (6 * MiB) etag)])
    /\ (session st4 = None /\ key st4 = None
        /\ trace st4
           = trace st3
             ++ [s3_send (CompleteMultipartUploadCommand (Some k) u
                            [{| PartNumber := 1; ETag := etag |}])
                   (s3_ok location);
                 ws_send (completed location (Some k))]).
Proof.
  intros H1 H2 H3 w st2 st3 st4. unfold MiB in H1, H2, H3.
  assert (Hbody : Buffer_concat [f1; f2; f3] 6291456 = f1 ++ f2 ++ f3).
  { replace 6291456 with (Buffer_length (concat [f1; f2; f3])).
    - rewrite Buffer_concat_exact. cbn [concat]. rewrite app_nil_r. reflexivity.
    - cbn [concat]. rewrite !Buffer_length_app, H1, H2, H3. reflexivity. }
  assert (Hsize : Buffer_length (f1 ++ f2 ++ f3) = 6291456).
  { rewrite !Buffer_length_app, H1, H2, H3. reflexivity. }
  subst st4 st3 st2 w. cbn [run fold_left].
  one_step idtac.
  one_step ltac:(rewrite ?H1).
  one_step ltac:(rewrite ?H2).
  cbn [usingMultipart aggBytes trace].
  one_step ltac:(rewrite ?H3).
  unfold Buffer in Hbody, Hsize. rewrite !Hbody, !Hsize.
  cbn [usingMultipart aggBytes trace].
  one_step idtac.
  cbn [session key trace].
  do 4 eexists. repeat split.
Qed.

Lemma scenario_A_witness :
  exists k u etag location,
    trace (step fair_weather
             (step fair_weather
                (run fair_weather
                   [start; frame (frame_of_size (2 * MiB)); frame (frame_of_size (2 * MiB))]
                   initial)
                (frame (frame_of_size (2 * MiB))))
             stop)
    = [ws_send (uploadInfo (Some k) None true);
       s3_send (CreateMultipartUploadCommand (Some k)) (s3_ok u);
       ws_send (uploadInfo (Some k) (Some u) false);
       s3_send (UploadPartCommand (Some k) u 1
                  (frame_of_size (2 * MiB) ++ frame_of_size (2 * MiB)
                   ++ frame_of_size (2 * MiB)))
         (s3_ok etag);
       ws_send (partAck 1 (6 * MiB) etag);
       s3_send (CompleteMultipartUploadCommand (Some k) u
                  [{| PartNumber := 1; ETag := etag |}])
         (s3_ok location);
       ws_send (completed location (Some k))].
Proof.
  assert (Hlen : Buffer_length (frame_of_size (2 * MiB)) = 2 * MiB)
    by (vm_compute; reflexivity).
  destruct (scenario_A (fun _ _ => "x"%string) (fun _ => "k"%string)
              (frame_of_size (2 * MiB)) (frame_of_size (2 * MiB))
              (frame_of_size (2 * MiB)) Hlen Hlen Hlen)
    as (k & u & etag & location & (_ & _ & E2) & (_ & _ & E3) & (_ & _ & E4)).
  exists k, u, etag, location. unfold fair_weather. rewrite E4, E3, E2. reflexivity.
Defined.

(** C2 as the claim words it fails: two frames of 2 MiB make 4 MiB, which
    is below the 5 MiB threshold; after frame 2 the mode is still Undecided
    and no begin-multipart call has been made. *)
Lemma threshold_not_crossed_on_frame_2 :
  usingMultipart
    (run fair_weather
       [start; frame (frame_of_size (2 * MiB)); frame (frame_of_size (2 * MiB))] initial)
  = false
  /\ aggBytes
       (run fair_weather
          [start; frame (frame_of_size (2 * MiB)); frame (frame_of_size (2 * MiB))] initial)
     = 4194304
  /\ count is_create
       (trace (run fair_weather
                 [start; frame (frame_of_size (2 * MiB)); frame (frame_of_size (2 * MiB))]
                 initial))
     = 0%nat.
Proof.
  assert (Hlen : Buffer_length (frame_of_size (2 * MiB)) = 2097152)
    by (apply Buffer_length_frame; unfold MiB; lia).
  cbn [run fold_left].
  one_step idtac. one_step ltac:(rewrite ?Hlen). one_step ltac:(rewrite ?Hlen).
  repeat split.
Qed.

(** *** A session that stays below the threshold *)

Fixpoint total_length (frames : list Buffer) : Z :=
  match frames with
  | [] => 0
  | f :: frames' => Buffer_length f + total_length frames'
  end.

(** The calls to S3 in a trace, in order. *)
Definition s3_calls (tr : list Effect) : list (S3Command * S3Result) :=
  flat_map (fun e => match e with
                     | s3_send command result => [(command, result)]
                     | ws_send _ => []
                     end) tr.

Lemma total_length_nonneg frames : 0 <= total_length frames.
Proof.
  induction frames as [|f frames IH]; cbn [total_length]; [lia|].
  pose proof (Buffer_length_nonneg f). lia.
Qed.

Lemma total_length_concat frames : Buffer_length (concat frames) = total_length frames.
Proof.
  induction frames as [|f frames IH]; cbn [concat total_length]; [reflexivity|].
  rewrite Buffer_length_app, IH. reflexivity.
Qed.

Lemma step_frame_buffered w st data :
  closed st = false -> is_set (key st) = true -> usingMultipart st = false ->
  aggBytes st + Buffer_length data < MIN_PART_SIZE ->
  step w st (frame data) = appended data st.
Proof.
  intros Hc Hkey Hu Hsmall. unfold step, frame, handler, on_message, bind, get. cbn.
  rewrite Hc. unfold try_catch, message_body, bind, get, modify, ret. cbn.
  rewrite Hkey. cbn. rewrite Hu. cbn.
  destruct (Z.leb_spec MIN_PART_SIZE (aggBytes st + Buffer_length data)); [lia|].
  cbn. rewrite Hu. reflexivity.
Qed.

(** The state with [frames] appended to the buffer. *)
Definition buffered (frames : list Buffer) (st : State) : State :=
  set_totalReceivedBytes (totalReceivedBytes st + total_length frames)
    (set_agg (aggBuffers st ++ frames) (aggBytes st + total_length frames) st).

Lemma run_frames_buffered w frames : forall st,
  closed st = false -> is_set (key st) = true -> usingMultipart st = false ->
  aggBytes st + total_length frames < MIN_PART_SIZE ->
  run w (map frame frames) st = buffered frames st.
Proof.
  induction frames as [|f frames IH]; intros st Hc Hkey Hu Hsmall.
  - destruct st. unfold buffered. cbn. rewrite app_nil_r, !Z.add_0_r. reflexivity.
  - cbn [map run fold_left]. cbn [total_length] in Hsmall.
    pose proof (total_length_nonneg frames).
    rewrite step_frame_buffered by (assumption || lia).
    fold (run w (map frame frames) (appended f st)).
    rewrite IH by (try assumption; unfold appended; fields; lia).
    unfold buffered, appended. fields. cbn [total_length].
    rewrite <- app_assoc, !Z.add_assoc. reflexivity.
Qed.

(** X1: a session whose frames add up to less than the 5 MiB minimum is written
    with one PutObject of the frames in order, whatever S3 answers: no
    multipart call is made and no part is recorded. *)
Theorem small_session_single_put (w : World) (frames : list Buffer) :
  total_length frames < MIN_PART_SIZE ->
  let st := run w (start :: map frame frames) initial in
  let st' := step w st stop in
  usingMultipart st = false /\ aggBytes st = total_length frames
  /\ s3_calls (trace st) = []
  /\ exists k result,
       s3_calls (trace st') = [(PutObjectCommand (Some k) (concat frames), result)]
       /\ session st' = None /\ key st' = None.
Proof.
  intros Hsmall st st'.
  assert (Hstart : exists tr,
            step w initial start
            = {| session := None; partNumber := 0; closed := false; aggBuffers := [];
                 aggBytes := 0; totalReceivedBytes := 0; usingMultipart := false;
                 key := Some (new_key w 0); trace := tr |}
            /\ s3_calls tr = []).
  { rewrite step_start_idle by reflexivity. unfold sendJSON. cbn.
    destruct (ws_OPEN w 0); eexists; split; reflexivity. }
  destruct Hstart as (tr & Hstart & Htr).
  assert (Hst : st = buffered frames (step w initial start)).
  { subst st. cbn [run fold_left]. fold (run w (map frame frames) (step w initial start)).
    rewrite Hstart. apply run_frames_buffered; try reflexivity. cbn. lia. }
  rewrite Hstart in Hst. unfold buffered in Hst. fields. cbn [app] in Hst.
  rewrite Z.add_0_l in Hst.
  split; [rewrite Hst; reflexivity|]. split; [rewrite Hst; reflexivity|].
  split; [rewrite Hst; exact Htr|].
  exists (new_key w 0). subst st'. rewrite Hst.
  rewrite step_stop by reflexivity.
  unfold on_stop, bind, get, try_finally, try_catch, completeUpload, modify. cbn.
  rewrite <- total_length_concat, Buffer_concat_exact.
  unfold s3_await, bind. cbn.
  destruct (s3 w (length tr) (PutObjectCommand (Some (new_key w 0)) (concat frames)))
    as [location|msg] eqn:Hres; cbn.
  - exists (s3_ok location). unfold sendJSON. cbn.
    destruct (ws_OPEN w _); cbn; unfold s3_calls in *;
      rewrite !flat_map_app, Htr; cbn; repeat split.
  - exists (s3_error msg). unfold sendJSON. cbn.
    destruct (ws_OPEN w _); cbn; unfold s3_calls in *;
      rewrite !flat_map_app, Htr; cbn; repeat split.
Qed.

Lemma small_session_single_put_witness :
  exists k result,
    s3_calls (trace (step fair_weather
                       (run fair_weather (start :: map frame [["a"]; ["b"; "c"]]%byte) initial)
                       stop))
    = [(PutObjectCommand (Some k) (concat [["a"]; ["b"; "c"]]%byte), result)]
    /\ session (step fair_weather
                  (run fair_weather (start :: map frame [["a"]; ["b"; "c"]]%byte) initial)
                  stop) = None
    /\ key (step fair_weather
              (run fair_weather (start :: map frame [["a"]; ["b"; "c"]]%byte) initial)
              stop) = None.
Proof.
  apply (small_session_single_put fair_weather [["a"]; ["b"; "c"]]%byte).
  vm_compute. reflexivity.
Defined.

(** *** Disconnect *)

(** X2: when the socket closes on a connection that is in Multipart mode, the
    close handler makes exactly one call to S3, the abort of the session's
    multipart upload, marks the connection closed, and ends normally also
    when S3 refuses the abort. *)
Theorem close_aborts_multipart (w : World) (events : list Event) :
  let st := run w events initial in
  usingMultipart st = true ->
  exists s result,
    session st = Some s
    /\ trace (step w st close)
       = trace st ++ [s3_send (AbortMultipartUploadCommand (session_key s) (uploadId s)) result]
    /\ closed (step w st close) = true
    /\ fst (handler close w st) = Return tt.
Proof.
  intros st Hu.
  pose proof (run_Inv w events initial Inv_initial) as (_ & _ & _ & Hon & _).
  fold st in Hon. destruct (Hon Hu) as (s & Hs & _).
  exists s, (s3 w (length (trace st)) (AbortMultipartUploadCommand (session_key s) (uploadId s))).
  split; [exact Hs|].
  unfold step, handler, on_close, bind, modify, get. cbn. rewrite Hu, Hs.
  unfold try_catch, bind, s3_await, ret. cbn.
  destruct (s3 w _ _); cbn; repeat split.
Qed.

Lemma close_aborts_multipart_witness :
  exists s result,
    session (run fair_weather [start; frame (frame_of_size MIN_PART_SIZE)] initial) = Some s
    /\ trace (step fair_weather
                (run fair_weather [start; frame (frame_of_size MIN_PART_SIZE)] initial) close)
       = trace (run fair_weather [start; frame (frame_of_size MIN_PART_SIZE)] initial)
         ++ [s3_send (AbortMultipartUploadCommand (session_key s) (uploadId s)) result]
    /\ closed (step fair_weather
                 (run fair_weather [start; frame (frame_of_size MIN_PART_SIZE)] initial) close)
       = true
    /\ fst (handler close fair_weather
              (run fair_weather [start; frame (frame_of_size MIN_PART_SIZE)] initial))
       = Return tt.
Proof.
  apply (close_aborts_multipart fair_weather [start; frame (frame_of_size MIN_PART_SIZE)]).
  vm_compute. reflexivity.
Defined.

(** *** Two frames, the second handled while the first awaits the begin call *)

(** Cutting the handler at the await changes nothing when the call settles at
    once: the two halves make up [on_message]. *)
Lemma frame_cut_at_begin w st data command st1 :
  frame_until_begin data w st = (Return (Some command), st1) ->
  on_message (binary data) w st
  = frame_after_begin command (s3 w (length (trace st1)) command) w st1.
Proof.
  intros H.
  assert (Hcase : closed st = false /\ is_set (key st) = true
                  /\ usingMultipart st = false
                  /\ (MIN_PART_SIZE <=? aggBytes st + Buffer_length data) = true
                  /\ command = CreateMultipartUploadCommand (key st)
                  /\ st1 = appended data st).
  { unfold frame_until_begin, bind, get, modify, ret in H. cbn in H.
    destruct (closed st); [discriminate|].
    destruct (is_set (key st)); cbn in H.
    - destruct (usingMultipart st); cbn in H; [discriminate|].
      destruct (MIN_PART_SIZE <=? aggBytes st + Buffer_length data); [|discriminate].
      injection H as <- <-. repeat split.
    - destruct (sendJSON _ w st) as [[[]|msg] st']; discriminate. }
  destruct Hcase as (Hc & Hk & Hu & Hmin & -> & ->).
  unfold on_message, bind, get. cbn. rewrite Hc.
  unfold frame_after_begin, try_catch, message_body, bind, get, modify, throw. cbn.
  rewrite Hk. cbn. rewrite Hu, Hmin. cbn.
  unfold startMultipart, s3_await, bind, get, modify. cbn. rewrite Hu. cbn.
  unfold appended. destruct (s3 w _ _); reflexivity.
Qed.

Lemma frame_until_begin_undecided w st data :
  closed st = false -> is_set (key st) = true -> usingMultipart st = false ->
  MIN_PART_SIZE <= aggBytes st + Buffer_length data ->
  frame_until_begin data w st
  = (Return (Some (CreateMultipartUploadCommand (key st))), appended data st).
Proof.
  intros Hc Hk Hu Hmin. unfold frame_until_begin, bind, get, modify, ret. cbn.
  rewrite Hc, Hk. cbn. rewrite Hu. cbn.
  destruct (Z.leb_spec MIN_PART_SIZE (aggBytes st + Buffer_length data)); [reflexivity | lia].
Qed.

Lemma frame_after_begin_counts k result w st :
  creates (snd (frame_after_begin (CreateMultipartUploadCommand k) result w st))
  = S (creates st)
  /\ accepted (snd (frame_after_begin (CreateMultipartUploadCommand k) result w st))
     = (accepted st + match result with s3_ok _ => 1 | s3_error _ => 0 end)%nat.
Proof.
  set (st0 := record (s3_send (CreateMultipartUploadCommand k) result) st).
  assert (H0 : creates st0 = S (creates st)
               /\ accepted st0
                  = (accepted st + match result with s3_ok _ => 1 | s3_error _ => 0 end)%nat).
  { unfold creates, accepted, st0. fields. rewrite !count_snoc. cbn.
    destruct result; split; lia. }
  enough (Hsame : creates (snd (frame_after_begin (CreateMultipartUploadCommand k) result w st))
                  = creates st0
                  /\ accepted (snd (frame_after_begin (CreateMultipartUploadCommand k) result w st))
                     = accepted st0)
    by (destruct Hsame as [-> ->]; exact H0).
  unfold frame_after_begin, try_catch, bind, get, modify, throw. cbn. fold st0.
  destruct result as [u|msg]; cbn.
  - match goal with
    | |- context [sendJSON ?o w ?s] =>
        pose proof (quiet_sendJSON o w s) as (_ & Hc1 & Ha1);
        pose proof (sendJSON_Return o w s) as Hr;
        destruct (sendJSON o w s) as [r s1]
    end.
    cbn in Hr, Hc1, Ha1. subst r. cbn.
    assert (H1 : creates s1 = creates st0 /\ accepted s1 = accepted st0)
      by (split; [exact Hc1 | exact Ha1]).
    destruct (usingMultipart s1 && (TARGET_PART_SIZE <=? aggBytes s1)); cbn; [|exact H1].
    pose proof (quiet_flushPart false w s1) as (_ & Hc2 & Ha2).
    destruct (flushPart false w s1) as [[[]|msg] s2]; cbn in Hc2, Ha2 |- *.
    + split; congruence.
    + destruct (quiet_sendJSON (error (message_or_default msg)) w s2) as (_ & Hc3 & Ha3).
      split; congruence.
  - destruct (quiet_sendJSON (error (message_or_default msg)) w st0) as (_ & Hc3 & Ha3).
    split; assumption.
Qed.

(** X4: the multipart flag is raised only after the awaited begin-multipart
    call has settled.  When a frame reaches the threshold, its handler
    suspends in that call (and, were the call to settle at once, the two
    halves make up the handler run to its end); when a second frame is
    handled meanwhile, its handler finds the flag down as well and makes the
    same call; once both have settled, two begin-multipart calls have been
    made for the one session, and S3 has accepted as many of them as it
    answered with ok. *)
Theorem begin_call_twice_when_overlapping (w : World) (st : State) (d1 d2 : Buffer)
    (r1 r2 : S3Result) :
  closed st = false -> is_set (key st) = true -> usingMultipart st = false ->
  MIN_PART_SIZE <= aggBytes st + Buffer_length d1 ->
  let begin := CreateMultipartUploadCommand (key st) in
  let st1 := appended d1 st in
  let st2 := appended d2 st1 in
  let st3 := snd (frame_after_begin begin r1 w st2) in
  let st4 := snd (frame_after_begin begin r2 w st3) in
  frame_until_begin d1 w st = (Return (Some begin), st1)
  /\ on_message (binary d1) w st
     = frame_after_begin begin (s3 w (length (trace st1)) begin) w st1
  /\ frame_until_begin d2 w st1 = (Return (Some begin), st2)
  /\ count is_create (trace st4) = S (S (count is_create (trace st)))
  /\ count is_accepted_create (trace st4)
     = (count is_accepted_create (trace st)
        + match r1 with s3_ok _ => 1 | s3_error _ => 0 end
        + match r2 with s3_ok _ => 1 | s3_error _ => 0 end)%nat.
Proof.
  intros Hc Hk Hu Hmin begin st1 st2 st3 st4.
  pose proof (Buffer_length_nonneg d2) as Hd2.
  split; [apply frame_until_begin_undecided; assumption|].
  split; [apply frame_cut_at_begin, frame_until_begin_undecided; assumption|].
  split.
  - subst st2 st1 begin. rewrite frame_until_begin_undecided; try assumption.
    + reflexivity.
    + unfold appended. fields. lia.
  - destruct (frame_after_begin_counts (key st) r1 w st2) as [Hc3 Ha3].
    destruct (frame_after_begin_counts (key st) r2 w st3) as [Hc4 Ha4].
    fold begin in Hc3, Ha3, Hc4, Ha4. fold st3 in Hc3, Ha3, Hc4, Ha4.
    fold st4 in Hc4, Ha4. unfold creates, accepted in *.
    split; [rewrite Hc4, Hc3; reflexivity | rewrite Ha4, Ha3; reflexivity].
Qed.

Lemma begin_call_twice_when_overlapping_witness :
  count is_accepted_create
    (trace (snd (frame_after_begin (CreateMultipartUploadCommand (Some "k"%string))
                   (s3_ok "u2") fair_weather
                   (snd (frame_after_begin (CreateMultipartUploadCommand (Some "k"%string))
                           (s3_ok "u1") fair_weather
                           (appended ["b"%byte]
                              (appended (frame_of_size MIN_PART_SIZE)
                                 (step fair_weather initial start))))))))
  = 2%nat.
Proof.
  assert (Hlen : MIN_PART_SIZE
                 <= aggBytes (step fair_weather initial start)
                    + Buffer_length (frame_of_size MIN_PART_SIZE))
    by (vm_compute; discriminate).
  apply (begin_call_twice_when_overlapping fair_weather (step fair_weather initial start)
           (frame_of_size MIN_PART_SIZE) ["b"%byte] (s3_ok "u1") (s3_ok "u2")
           eq_refl eq_refl eq_refl Hlen).
Defined.

End AggregatorFacts.

(* ===================================================================== *)
(** ** More about the slicer                                              *)
(* ===================================================================== *)

Module SlicerPieces.
Import Slicer SlicerFacts.

(** The loop from offset [o]: no piece is empty, and every piece before the
    last is full. *)
Lemma slice_loop_full b size :
  0 < size ->
  forall fuel o out,
    0 <= o ->
    (Z.to_nat (byteLength b - o) < fuel)%nat ->
    exists rest,
      slice_loop fuel b size o out = Some (out ++ rest)
      /\ Forall (fun p => 0 < byteLength p) rest
      /\ Forall (fun p => byteLength p = size) (removelast rest)
      /\ (byteLength b <= o -> rest = []).
Proof.
  intros Hs. induction fuel as [|fuel IH]; intros o out Ho Hfuel; [lia|].
  cbn [slice_loop]. destruct (Z.ltb_spec o (byteLength b)) as [Hlt|Hge].
  - destruct (IH (o + size) (out ++ [slice b o (o + size)])) as
      (rest & Hrun & Hpos & Hfull & Hend); [lia | lia |].
    exists (slice b o (o + size) :: rest).
    rewrite Hrun, <- app_assoc. split; [reflexivity|].
    assert (Hlen : byteLength (slice b o (o + size)) = Z.min size (byteLength b - o)).
    { rewrite slice_window by lia. unfold byteLength in *.
      rewrite length_firstn, length_skipn. lia. }
    split; [constructor; [rewrite Hlen; lia | exact Hpos]|].
    split; [|lia].
    destruct rest as [|p rest]; [constructor|].
    cbn [removelast] in *. constructor; [|exact Hfull].
    rewrite Hlen. destruct (Z.le_gt_cases (byteLength b) (o + size)) as [Hle|Hgt]; [|lia].
    specialize (Hend Hle). discriminate.
  - exists []. rewrite app_nil_r. repeat split; constructor.
Qed.

(** X5: for a chunkSize > 0 no piece is empty and every piece except the last
    has exactly chunkSize bytes; an input that is not empty and not longer
    than chunkSize comes back as the one piece that is the input. *)
Theorem sliceIntoChunks_full_pieces (arrayBuffer : ArrayBuffer) (size : Z) (fuel : nat) :
  0 < size ->
  (length arrayBuffer < fuel)%nat ->
  exists pieces,
    sliceIntoChunks fuel arrayBuffer (Some size) = Some pieces
    /\ Forall (fun p => 0 < byteLength p) pieces
    /\ Forall (fun p => byteLength p = size) (removelast pieces)
    /\ (arrayBuffer <> [] -> byteLength arrayBuffer <= size -> pieces = [arrayBuffer]).
Proof.
  intros Hs Hfuel. unfold sliceIntoChunks, not_.
  destruct (Z.eqb_spec size 0); [lia|].
  destruct (slice_loop_full arrayBuffer size Hs fuel 0 []) as
    (rest & Hrun & Hpos & Hfull & _); [lia | unfold byteLength; lia |].
  exists rest. cbn [app] in Hrun. repeat split; try assumption.
  intros Hne Hle.
  assert (Hlen : 0 < byteLength arrayBuffer).
  { unfold byteLength. destruct arrayBuffer; [congruence | cbn [length]; lia]. }
  destruct fuel as [|fuel]; [lia|]. cbn [slice_loop] in Hrun.
  destruct (Z.ltb_spec 0 (byteLength arrayBuffer)); [|lia].
  destruct (slice_loop_full arrayBuffer size Hs fuel (0 + size) ([] ++ [slice arrayBuffer 0 (0 + size)]))
    as (rest' & Hrun' & _ & _ & Hend); [lia | unfold byteLength in *; lia |].
  rewrite Hrun' in Hrun. rewrite (Hend ltac:(lia)) in Hrun. cbn [app] in Hrun.
  injection Hrun as <-. f_equal.
  change (slice arrayBuffer 0 size) with (slice arrayBuffer 0 (0 + size)).
  rewrite slice_window by lia. cbn [Z.to_nat skipn].
  apply firstn_all2. unfold byteLength in *. lia.
Qed.

Lemma sliceIntoChunks_full_pieces_witness :
  exists pieces,
    sliceIntoChunks 6 ["a"; "b"; "c"; "d"; "e"]%byte (Some 2) = Some pieces
    /\ Forall (fun p => 0 < byteLength p) pieces
    /\ Forall (fun p => byteLength p = 2) (removelast pieces)
    /\ (["a"; "b"; "c"; "d"; "e"]%byte <> [] ->
        byteLength ["a"; "b"; "c"; "d"; "e"]%byte <= 2 ->
        pieces = [["a"; "b"; "c"; "d"; "e"]%byte]).
Proof.
  apply (sliceIntoChunks_full_pieces ["a"; "b"; "c"; "d"; "e"]%byte 2 6); [lia | simpl; lia].
Defined.

End SlicerPieces.

(* ===================================================================== *)
(** ** The producer: frames, counters and buttons                         *)
(* ===================================================================== *)

Module ProducerStream.
Import Slicer Producer SlicerFacts SlicerPieces ProducerFacts.

(** *** A frame on a socket that stays open *)

(** The wait ends at or before a look that finds the buffer at or below the
    high-water mark, and not while the socket is open with more buffered. *)
Lemma backpressure_wait_ends a chan n :
  forall fuel t,
    (n < fuel)%nat ->
    ch_bufferedAmount (chan (t + n)%nat) <= BACKPRESSURE_HIGH ->
    exists t',
      backpressure_wait fuel a chan t = Some t'
      /\ (t <= t' <= t + n)%nat.
Proof.
  induction n as [|n IH]; intros fuel t Hfuel Hbelow.
  - destruct fuel as [|fuel]; [lia|]. cbn [backpressure_wait].
    rewrite Nat.add_0_r in Hbelow.
    destruct (Z.ltb_spec BACKPRESSURE_HIGH (ch_bufferedAmount (chan t))); [lia|].
    rewrite andb_false_r. exists t. split; [reflexivity | lia].
  - destruct fuel as [|fuel]; [lia|]. cbn [backpressure_wait].
    destruct (transmit_ready a (chan t) && (BACKPRESSURE_HIGH <? ch_bufferedAmount (chan t))).
    + destruct (IH fuel (S t)) as (t' & Hrun & Ht'); [lia | |].
      * replace (S t + n)%nat with (t + S n)%nat by lia. exact Hbelow.
      * exists t'. split; [exact Hrun | lia].
    + exists t. split; [reflexivity | lia].
Qed.

(** The socket is open at every look. *)
Definition stays_open (chan : nat -> Channel) : Prop :=
  forall t, ch_readyState (chan t) = OPEN.

(** From every look on, the buffer is found at or below the high-water mark
    within fewer than [fuel] polls. *)
Definition drains_within (fuel : nat) (chan : nat -> Channel) : Prop :=
  forall t, exists n, (n < fuel)%nat
    /\ ch_bufferedAmount (chan (t + n)%nat) <= BACKPRESSURE_HIGH.

(** What a handler of a blob leaves as it found it. *)
Definition same_session (a a' : App) : Prop :=
  wsRef a' = wsRef a /\ sessionReadyRef a' = sessionReadyRef a
  /\ recorderRef a' = recorderRef a /\ status a' = status a.

Lemma send_chunks_all fuel chan chunks :
  stays_open chan -> drains_within fuel chan ->
  forall t a,
    wsRef a <> None ->
    exists a',
      send_chunks fuel chan t chunks a = Some (a', returned)
      /\ sent a' = sent a ++ map send_binary chunks
      /\ bytesSent a' = bytesSent a + byteLength (concat chunks)
      /\ console a' = console a
      /\ same_session a a'.
Proof.
  intros Hopen Hdrain. induction chunks as [|c rest IH]; intros t a Hws.
  - exists a. cbn. rewrite app_nil_r, Z.add_0_r. repeat split.
  - cbn [send_chunks]. destruct (Hdrain t) as (n & Hn & Hbelow).
    destruct (backpressure_wait_ends a chan n fuel t Hn Hbelow) as (t' & -> & _).
    unfold transmit_ready at 1. destruct (wsRef a) as [ws|] eqn:Hw; [|congruence].
    rewrite Hopen. cbn [isOPEN].
    destruct (IH (S t') (setBytesSent (bytesSent (ws_send (send_binary c) a) + byteLength c)
                           (ws_send (send_binary c) a)))
      as (a' & Hrun & Hsent & Hbytes & Hcon & Hsame).
    { cbn. rewrite Hw. discriminate. }
    exists a'. split; [exact Hrun|]. split; [|split; [|split]].
    + rewrite Hsent. cbn. rewrite <- app_assoc. reflexivity.
    + rewrite Hbytes. cbn [bytesSent setBytesSent ws_send concat].
      unfold byteLength. rewrite length_app. lia.
    + rewrite Hcon. reflexivity.
    + destruct Hsame as (H1 & H2 & H3 & H4). cbn in H1, H2, H3, H4.
      unfold same_session. rewrite H1, H2, H3, H4, Hw. repeat split.
Qed.

(** What the slicer gives for a chunk size above zero. *)
Lemma sliceIntoChunks_pieces (data : ArrayBuffer) (size : Z) (fuel : nat) :
  0 < size -> (length data < fuel)%nat ->
  exists pieces,
    sliceIntoChunks fuel data (Some size) = Some pieces
    /\ concat pieces = data
    /\ Forall (fun p => 0 < byteLength p <= size) pieces.
Proof.
  intros Hs Hfuel. unfold sliceIntoChunks, not_.
  destruct (Z.eqb_spec size 0); [lia|].
  destruct (slice_loop_spec data size Hs fuel 0 []) as (rest & Hrun & Hmax & Hcat & _);
    [lia | unfold byteLength; lia |].
  destruct (slice_loop_full data size Hs fuel 0 []) as (rest' & Hrun' & Hpos & _);
    [lia | unfold byteLength; lia |].
  rewrite Hrun in Hrun'. injection Hrun' as Heq. cbn [app] in Heq. subst rest'.
  exists rest. cbn [app] in Hrun. split; [exact Hrun|]. split; [exact Hcat|].
  rewrite Forall_forall in *. intros p Hp. split; [apply Hpos | apply Hmax]; exact Hp.
Qed.

(** A blob handled while the session is ready, on a socket that stays open
    and whose buffer drains. *)
Lemma ondataavailable_whole fuel chan data a :
  wsRef a <> None -> sessionReadyRef a = true ->
  (length data < fuel)%nat ->
  stays_open chan -> drains_within fuel chan ->
  exists a' pieces,
    ondataavailable fuel chan data a = Some (a', returned)
    /\ sent a' = sent a ++ map send_binary pieces
    /\ concat pieces = data
    /\ Forall (fun p => 0 < byteLength p <= CHUNK_SIZE) pieces
    /\ bytesSent a' = bytesSent a + byteLength data
    /\ console a' = console a
    /\ same_session a a'.
Proof.
  intros Hws Hready Hfuel Hopen Hdrain. unfold ondataavailable.
  destruct (Z.eqb_spec (byteLength data) 0) as [Hz|_].
  { exists a, []. destruct data; [|unfold byteLength in Hz; cbn in Hz; lia].
    cbn. rewrite app_nil_r, Z.add_0_r. repeat split. constructor. }
  rewrite Hready. cbn [negb].
  destruct (sliceIntoChunks_pieces data CHUNK_SIZE fuel) as (pieces & -> & Hcat & Hall);
    [reflexivity | exact Hfuel |].
  destruct (send_chunks_all fuel chan pieces Hopen Hdrain 0%nat a Hws)
    as (a' & Hrun & Hsent & Hbytes & Hcon & Hsame).
  exists a', pieces. rewrite Hcat in Hbytes. auto 10.
Qed.

(** X6: a blob handled while the session is ready, on a socket that stays
    open and whose buffer drains, is sent whole: the binary messages sent are
    its pieces in order, none empty and none above the 256 KiB chunk size,
    their concatenation is the blob, the bytes counter grows by the blob's
    length, and no warning is written. *)
Theorem frame_sent_whole (fuel : nat) (chan : nat -> Channel) (data : ArrayBuffer)
    (a : App) :
  wsRef a <> None -> sessionReadyRef a = true ->
  (length data < fuel)%nat ->
  stays_open chan -> drains_within fuel chan ->
  exists a' pieces,
    ondataavailable fuel chan data a = Some (a', returned)
    /\ sent a' = sent a ++ map send_binary pieces
    /\ concat pieces = data
    /\ Forall (fun p => 0 < byteLength p <= CHUNK_SIZE) pieces
    /\ bytesSent a' = bytesSent a + byteLength data
    /\ console a' = console a.
Proof.
  intros Hws Hready Hfuel Hopen Hdrain.
  destruct (ondataavailable_whole fuel chan data a Hws Hready Hfuel Hopen Hdrain)
    as (a' & pieces & H1 & H2 & H3 & H4 & H5 & H6 & _).
  exists a', pieces. auto 10.
Qed.

Lemma frame_sent_whole_witness :
  exists a' pieces,
    ondataavailable 4 (drains_after 2) ["a"; "b"; "c"]%byte streaming = Some (a', returned)
    /\ sent a' = sent streaming ++ map send_binary pieces
    /\ concat pieces = ["a"; "b"; "c"]%byte
    /\ Forall (fun p => 0 < byteLength p <= CHUNK_SIZE) pieces
    /\ bytesSent a' = bytesSent streaming + byteLength ["a"; "b"; "c"]%byte
    /\ console a' = console streaming.
Proof.
  apply (frame_sent_whole 4 (drains_after 2) ["a"; "b"; "c"]%byte streaming).
  - discriminate.
  - reflexivity.
  - simpl. lia.
  - intros t. reflexivity.
  - intros t. exists 2%nat. split; [lia|].
    unfold drains_after, BACKPRESSURE_HIGH. cbn [ch_bufferedAmount].
    destruct (Nat.ltb_spec (t + 2) 2); lia.
Defined.

(** Blobs handled one after the other. *)
Lemma blobs_sent_whole fuel chan blobs :
  stays_open chan -> drains_within fuel chan ->
  Forall (fun data => (length data < fuel)%nat) blobs ->
  forall a,
    wsRef a <> None -> sessionReadyRef a = true -> recorderRef a <> None ->
    exists pieces,
      sent (run (map (dataavailable fuel chan) blobs) a) = sent a ++ map send_binary pieces
      /\ concat pieces = concat blobs
      /\ Forall (fun p => 0 < byteLength p <= CHUNK_SIZE) pieces
      /\ same_session a (run (map (dataavailable fuel chan) blobs) a).
Proof.
  intros Hopen Hdrain Hfuel. induction Hfuel as [|data blobs Hdata _ IH]; intros a Hws Hready Hrec.
  - exists []. cbn. rewrite app_nil_r. repeat split. constructor.
  - cbn [map run fold_left].
    destruct (ondataavailable_whole fuel chan data a Hws Hready Hdata Hopen Hdrain)
      as (a' & first & Hrun & Hsent & Hcat & Hall & _ & _ & (S1 & S2 & S3 & S4)).
    assert (Hstep : step (dataavailable fuel chan data) a = a').
    { cbn [step]. destruct (recorderRef a); [|congruence]. rewrite Hrun. reflexivity. }
    rewrite Hstep. fold (run (map (dataavailable fuel chan) blobs) a').
    destruct (IH a') as (rest & Hsent' & Hcat' & Hall' & (T1 & T2 & T3 & T4));
      [congruence | congruence | congruence |].
    exists (first ++ rest). split; [|split; [|split]].
    + rewrite Hsent', Hsent, map_app, app_assoc. reflexivity.
    + rewrite concat_app, Hcat, Hcat'. reflexivity.
    + apply Forall_app. split; assumption.
    + unfold same_session. repeat split; congruence.
Qed.

(** *** The bytes counter *)

(** The bytes of the binary messages among what was handed to the socket. *)
Fixpoint binary_bytes (l : list Sent) : Z :=
  match l with
  | [] => 0
  | send_binary c :: l' => byteLength c + binary_bytes l'
  | _ :: l' => binary_bytes l'
  end.

Lemma binary_bytes_app l l' : binary_bytes (l ++ l') = binary_bytes l + binary_bytes l'.
Proof.
  induction l as [|[| |c] l IH]; cbn [app binary_bytes]; rewrite ?IH; lia.
Qed.

(** Counter and socket move together. *)
Definition counted (a a' : App) : Prop :=
  bytesSent a' - bytesSent a = binary_bytes (sent a') - binary_bytes (sent a).

Lemma counted_refl a : counted a a.
Proof. unfold counted. lia. Qed.

Lemma counted_trans a b c : counted a b -> counted b c -> counted a c.
Proof. unfold counted. lia. Qed.

Lemma send_chunks_counted fuel chan chunks :
  forall t a a' how,
    send_chunks fuel chan t chunks a = Some (a', how) -> counted a a'.
Proof.
  induction chunks as [|c rest IH]; intros t a a' how H; cbn [send_chunks] in H.
  - injection H as <- _. apply counted_refl.
  - destruct (backpressure_wait fuel a chan t) as [t'|]; [|discriminate].
    destruct (transmit_ready a (chan t')).
    + apply IH in H. eapply counted_trans; [|exact H].
      unfold counted. cbn. rewrite binary_bytes_app. cbn. lia.
    + injection H as <- _. unfold counted. cbn. lia.
Qed.

Definition is_Record (e : Event) : bool :=
  match e with click_Record _ => true | _ => false end.

Lemma step_counted e a : is_Record e = false -> counted a (step e a).
Proof.
  intros He. destruct e; cbn [step]; try discriminate.
  - destruct (canConnect a); [|apply counted_refl].
    unfold startConnection. destruct (ws_is_open a); [apply counted_refl|].
    unfold counted. cbn. lia.
  - destruct (canStop a); [|apply counted_refl].
    unfold stopRecording. destruct (negb _); [apply counted_refl|].
    unfold stopRecorderLocal. cbn [recorderRef setStatus].
    destruct (recorderRef a) as [[]|]; destruct (ws_is_open _);
      unfold counted; cbn; rewrite ?binary_bytes_app; cbn; lia.
  - destruct (wsRef a) as [ws|] eqn:Hw; [|apply counted_refl].
    unfold counted, onopen, set_readyState. rewrite Hw. cbn.
    rewrite binary_bytes_app. cbn. lia.
  - unfold message_event. destruct (wsRef a) as [ws|]; [|apply counted_refl].
    destruct evt as [|[k| | |m|]]; cbn [onmessage]; try apply counted_refl;
      try (unfold counted; cbn; lia).
    + cbn [setUploadKey sessionReadyRef]. destruct (negb (sessionReadyRef a));
        unfold counted; cbn; lia.
    + destruct (negb _); unfold counted; cbn; lia.
  - destruct (wsRef a); [|apply counted_refl]. unfold counted. cbn. lia.
  - unfold onclose. destruct (wsRef a) as [ws|] eqn:Hw; [|apply counted_refl].
    unfold set_readyState, stopRecorderLocal. rewrite Hw. cbn [recorderRef set_wsRef].
    destruct (Status_eqb _ _); [destruct (recorderRef a) as [[]|]|];
      unfold counted; cbn; lia.
  - destruct (recorderRef a); [|apply counted_refl].
    destruct (ondataavailable fuel chan data a) as [[a' how]|] eqn:Hrun;
      [|apply counted_refl].
    unfold ondataavailable in Hrun.
    destruct (byteLength data =? 0); [injection Hrun as <- _; apply counted_refl|].
    destruct (negb (sessionReadyRef a)); [injection Hrun as <- _; apply counted_refl|].
    destruct (sliceIntoChunks fuel data (Some CHUNK_SIZE)); [|discriminate].
    eapply send_chunks_counted. exact Hrun.
Qed.

(** X7: over any events with no click on Record among them, the bytes counter
    grows by exactly the bytes of the binary messages handed to the socket:
    what is counted was sent, and what was sent is counted, also when a send
    loop stops early. *)
Theorem bytesSent_counts_sent (events : list Event) (a : App) :
  forallb (fun e => negb (is_Record e)) events = true ->
  bytesSent (run events a) - bytesSent a
  = binary_bytes (sent (run events a)) - binary_bytes (sent a).
Proof.
  revert a. induction events as [|e events IH]; intros a Hno; [cbn; lia|].
  cbn [forallb] in Hno. apply andb_prop in Hno as [He Hrest].
  cbn [run fold_left]. fold (run events (step e a)).
  apply (counted_trans a (step e a)); [|apply IH; exact Hrest].
  apply step_counted. destruct (is_Record e); [discriminate | reflexivity].
Qed.

Definition always_clear : nat -> Channel :=
  fun _ => {| ch_readyState := OPEN; ch_bufferedAmount := 0 |}.

Lemma bytesSent_counts_sent_witness :
  bytesSent (run [dataavailable 4 always_clear ["a"; "b"; "c"]%byte; click_Stop] streaming)
  - bytesSent streaming
  = binary_bytes
      (sent (run [dataavailable 4 always_clear ["a"; "b"; "c"]%byte; click_Stop] streaming))
    - binary_bytes (sent streaming).
Proof.
  apply (bytesSent_counts_sent
           [dataavailable 4 always_clear ["a"; "b"; "c"]%byte; click_Stop] streaming).
  reflexivity.
Defined.

(** *** Stop *)

Definition is_data (e : Event) : bool :=
  match e with dataavailable _ _ _ => true | _ => false end.

Lemma stopRecording_open a :
  status a = Recording -> ws_is_open a = true ->
  step click_Stop a
  = set_sessionReadyRef false (ws_send send_stop (stopRecorderLocal (setStatus Stopping a))).
Proof.
  intros Hst Hopen. cbn [step]. unfold canStop, stopRecording. rewrite Hst. cbn [Status_eqb negb].
  assert (Hsame : ws_is_open (stopRecorderLocal (setStatus Stopping a)) = ws_is_open a).
  { unfold ws_is_open, stopRecorderLocal. cbn [recorderRef setStatus].
    destruct (recorderRef a) as [[]|]; reflexivity. }
  rewrite Hsame, Hopen. reflexivity.
Qed.

Lemma data_dropped_when_not_ready e a :
  is_data e = true -> sessionReadyRef a = false -> step e a = a.
Proof.
  intros He Hflag. destruct e; try discriminate. cbn [step].
  destruct (recorderRef a); [|reflexivity].
  unfold ondataavailable. rewrite Hflag. cbn [negb].
  destruct (byteLength data =? 0); reflexivity.
Qed.

Lemma stop_sends_stop a :
  status a = Recording -> ws_is_open a = true ->
  sent (step click_Stop a) = sent a ++ [send_stop]
  /\ status (step click_Stop a) = Stopping
  /\ sessionReadyRef (step click_Stop a) = false.
Proof.
  intros Hst Hopen. rewrite stopRecording_open by assumption.
  unfold stopRecorderLocal. cbn [recorderRef setStatus].
  destruct (recorderRef a) as [[]|]; repeat split.
Qed.

(** X8: Stop while recording on an open socket sends one stop message and
    takes the session-ready flag down, so every blob whose handler starts
    after the click (the recorder's last one among them) is dropped: nothing
    more is sent and nothing else changes. *)
Theorem stop_drops_later_blobs (a : App) (events : list Event) :
  status a = Recording -> ws_is_open a = true ->
  forallb is_data events = true ->
  sent (step click_Stop a) = sent a ++ [send_stop]
  /\ status (step click_Stop a) = Stopping
  /\ sessionReadyRef (step click_Stop a) = false
  /\ run events (step click_Stop a) = step click_Stop a.
Proof.
  intros Hst Hopen Hdata.
  destruct (stop_sends_stop a Hst Hopen) as (Hsent & Hstatus & Hflag).
  split; [exact Hsent|]. split; [exact Hstatus|]. split; [exact Hflag|].
  generalize dependent (step click_Stop a). intros a1 _ _ Hflag.
  induction events as [|e events IH]; [reflexivity|].
  cbn [forallb] in Hdata. apply andb_prop in Hdata as [He Hrest].
  cbn [run fold_left]. rewrite data_dropped_when_not_ready by assumption.
  apply IH. exact Hrest.
Qed.

Lemma stop_drops_later_blobs_witness :
  sent (step click_Stop streaming) = sent streaming ++ [send_stop]
  /\ status (step click_Stop streaming) = Stopping
  /\ sessionReadyRef (step click_Stop streaming) = false
  /\ run [dataavailable 4 always_clear ["a"; "b"; "c"]%byte] (step click_Stop streaming)
     = step click_Stop streaming.
Proof.
  apply (stop_drops_later_blobs streaming [dataavailable 4 always_clear ["a"; "b"; "c"]%byte]);
    reflexivity.
Defined.

(** X9: an uploadInfo that arrives after Stop (the server sends one when the
    multipart upload begins, which a frame still under way can cause) finds
    the flag down: it resolves the session promise again and sets the status
    from Stopping to Ready, so that Record is enabled while the upload is
    being finalized. *)
Theorem uploadInfo_after_Stop (a : App) (key : string) :
  status a = Recording -> ws_is_open a = true ->
  let a1 := step click_Stop a in
  let a2 := step (socket_message (JSON (uploadInfo key))) a1 in
  status a1 = Stopping
  /\ status a2 = Ready /\ canRecord a2 = true
  /\ sessionReadyRef a2 = true
  /\ resolveCalls a2 = S (resolveCalls a)
  /\ uploadKey a2 = Some key.
Proof.
  intros Hst Hopen a1 a2. subst a2 a1. rewrite stopRecording_open by assumption.
  unfold ws_is_open in Hopen. destruct (wsRef a) as [ws|] eqn:Hw; [|discriminate].
  cbn [step]. unfold message_event, stopRecorderLocal. cbn [recorderRef setStatus].
  destruct (recorderRef a) as [[]|]; cbn; rewrite Hw; cbn; repeat split.
Qed.

Lemma uploadInfo_after_Stop_witness :
  status (step (socket_message (JSON (uploadInfo "k1"))) (step click_Stop streaming)) = Ready.
Proof.
  apply (uploadInfo_after_Stop streaming "k1"); reflexivity.
Defined.

(** *** The socket closes *)

(** X10: in every state the component can reach, the close handler of the
    socket changes nothing but the socket's readyState: its test
    [status === 'Recording'] reads the status of the render in which Connect
    was clicked, which is never Recording, so also while recording the
    recorder is not stopped, no error message is set and the status stays. *)
Theorem close_goes_unnoticed (events : list Event) :
  let a := run events initial in
  step socket_close a = set_readyState CLOSED a
  /\ status (step socket_close a) = status a
  /\ errorMsg (step socket_close a) = errorMsg a
  /\ recorderRef (step socket_close a) = recorderRef a
  /\ sent (step socket_close a) = sent a.
Proof.
  intros a.
  pose proof (run_well_formed events initial well_formed_initial) as [Hh _].
  fold a in Hh.
  assert (Hrun : step socket_close a = set_readyState CLOSED a).
  { cbn [step]. unfold onclose. destruct (wsRef a) as [ws|] eqn:Hw.
    - destruct (Hh ws eq_refl) as [-> | [-> | ->]]; reflexivity.
    - unfold set_readyState. rewrite Hw. reflexivity. }
  rewrite Hrun. split; [reflexivity|].
  unfold set_readyState. destruct (wsRef a); repeat split.
Qed.

(** *** Buttons *)

Definition is_click (e : Event) : bool :=
  match e with
  | click_Connect | click_Record _ | click_Stop => true
  | _ => false
  end.

Lemma click_does_nothing e a :
  is_click e = true ->
  status a <> Ready -> status a <> Recording ->
  (canConnect a = true -> ws_is_open a = true) ->
  step e a = a.
Proof.
  intros He Hr Hrec Hconn. destruct e; try discriminate; cbn [step].
  - destruct (canConnect a) eqn:Hcan; [|reflexivity].
    unfold startConnection. rewrite (Hconn eq_refl). reflexivity.
  - unfold canRecord. destruct (status a); try reflexivity. congruence.
  - unfold canStop. destruct (status a); try reflexivity. congruence.
Qed.

(** X11: while the status is neither Ready nor Recording, and the socket is
    open whenever Connect is enabled, no click on a button changes anything:
    Record and Stop are disabled and Connect returns at once.  So once an
    upload has completed or failed on a socket that is still open, no second
    recording can be started before a socket event arrives. *)
Theorem clicks_do_nothing (a : App) (events : list Event) :
  forallb is_click events = true ->
  status a <> Ready -> status a <> Recording ->
  (canConnect a = true -> ws_is_open a = true) ->
  run events a = a.
Proof.
  intros Hclicks Hr Hrec Hconn.
  induction events as [|e events IH]; [reflexivity|].
  cbn [forallb] in Hclicks. apply andb_prop in Hclicks as [He Hrest].
  cbn [run fold_left]. rewrite click_does_nothing by assumption.
  apply IH. exact Hrest.
Qed.

(** The component after a recording that was stopped and completed. *)
Definition uploaded : App :=
  run [click_Stop; socket_message (JSON completed)] streaming.

Lemma clicks_do_nothing_witness :
  status uploaded = Completed
  /\ run [click_Connect; click_Record media_ok; click_Stop; click_Connect] uploaded = uploaded.
Proof.
  split; [reflexivity|].
  apply (clicks_do_nothing uploaded
           [click_Connect; click_Record media_ok; click_Stop; click_Connect]).
  - reflexivity.
  - discriminate.
  - discriminate.
  - reflexivity.
Defined.

(** X12: in every state the component can reach, a click on Record while it
    is enabled does not wait for the session promise: the flag is up whenever
    the status is Ready, so with media available the component is Recording
    at once, with both counters at zero, and without media it is in Error. *)
Theorem Record_starts_at_once (events : list Event) (m : Media) :
  let a := run events initial in
  status a = Ready ->
  startRecording m a <> None
  /\ status (step (click_Record m) a)
     = match m with media_ok => Recording | _ => Error end
  /\ (m = media_ok ->
      partsUploaded (step (click_Record m) a) = 0
      /\ bytesSent (step (click_Record m) a) = 0
      /\ recorderRef (step (click_Record m) a) = Some recording).
Proof.
  intros a Hst.
  pose proof (run_well_formed events initial well_formed_initial) as [_ Hflag].
  fold a in Hflag. specialize (Hflag Hst).
  cbn [step]. unfold canRecord, startRecording, ensureSessionReady_passes.
  rewrite Hst, Hflag. cbn [Status_eqb orb].
  destruct m; (split; [discriminate|]); (split; [reflexivity|]);
    intros Hm; try discriminate Hm. repeat split.
Qed.

Lemma Record_starts_at_once_witness :
  status (step (click_Record media_ok) (acknowledged "k1")) = Recording.
Proof.
  apply (Record_starts_at_once
           [click_Connect; socket_open; socket_message (JSON (uploadInfo "k1"))] media_ok).
  reflexivity.
Defined.

(** *** Connect *)

(** X13: the handshake.  From any state in which Connect is enabled and the
    socket is not open, a click on Connect clears the error message, takes the
    session-ready flag down and sends nothing yet; when the socket opens, one
    start message is sent; and the session acknowledgment that follows
    resolves the session promise once, stores the key and makes the
    component Ready, with Record enabled. *)
Theorem connect_handshake (a : App) (key : string) :
  canConnect a = true -> ws_is_open a = false ->
  let a1 := step click_Connect a in
  let a2 := step socket_open a1 in
  let a3 := step (socket_message (JSON (uploadInfo key))) a2 in
  (status a1 = Connecting /\ errorMsg a1 = None /\ sessionReadyRef a1 = false
   /\ sent a1 = sent a)
  /\ (status a2 = StartingUpload /\ ws_is_open a2 = true
      /\ sent a2 = sent a ++ [send_start])
  /\ (status a3 = Ready /\ canRecord a3 = true /\ sessionReadyRef a3 = true
      /\ resolveCalls a3 = 1%nat /\ uploadKey a3 = Some key /\ sent a3 = sent a2).
Proof.
  intros Hcan Hopen a1 a2 a3.
  assert (H1 : a1 = set_wsRef (Some {| readyState := CONNECTING; handlers_status := status a |})
                      (setErrorMsg None (setStatus Connecting (resetSessionPromise a)))).
  { unfold a1. cbn [step]. rewrite Hcan. unfold startConnection. rewrite Hopen. reflexivity. }
  subst a3 a2. rewrite H1. repeat split.
Qed.

Lemma connect_handshake_witness :
  status (step (socket_message (JSON (uploadInfo "k1")))
            (step socket_open (step click_Connect initial))) = Ready.
Proof.
  apply (connect_handshake initial "k1"); reflexivity.
Defined.

End ProducerStream.

(* ===================================================================== *)
(** ** The aggregator: what reaches S3, and what is answered              *)
(* ===================================================================== *)

Module AggregatorStream.
Import Aggregator AggregatorFacts.

(** *** The bytes handed to S3 *)

(** The body that an effect hands to S3 for storing. *)
Definition handed_body (e : Effect) : Buffer :=
  match e with
  | s3_send (UploadPartCommand _ _ _ body) _ => body
  | s3_send (PutObjectCommand _ body) _ => body
  | _ => []
  end.

(** Everything handed to S3 for storing, in the order of the calls. *)
Definition handed (tr : list Effect) : Buffer := flat_map handed_body tr.

(** What the connection has been given and not dropped: handed on or still
    in the aggregation buffer. *)
Definition stream (st : State) : Buffer :=
  (handed (trace st) ++ concat (aggBuffers st))%list.

(** [aggBytes] is the number of bytes in [aggBuffers]. *)
Definition exact (st : State) : Prop :=
  aggBytes st = Buffer_length (concat (aggBuffers st)).

(** A part of a handler that neither takes bytes in nor drops any. *)
Definition kept (st st' : State) : Prop :=
  exact st' /\ stream st' = stream st /\ key st' = key st
  /\ closed st' = closed st /\ totalReceivedBytes st' = totalReceivedBytes st.

Lemma handed_app tr tr' : handed (tr ++ tr') = (handed tr ++ handed tr')%list.
Proof. apply flat_map_app. Qed.

Lemma kept_refl st : exact st -> kept st st.
Proof. intros H. repeat split. exact H. Qed.

Lemma kept_trans st1 st2 st3 : kept st1 st2 -> kept st2 st3 -> kept st1 st3.
Proof.
  intros (_ & H1 & K1 & C1 & T1) (E2 & H2 & K2 & C2 & T2).
  repeat split; [exact E2 | congruence ..].
Qed.

Lemma kept_record e st : handed_body e = [] -> exact st -> kept st (record e st).
Proof.
  intros He Hx. unfold kept, exact, stream. fields.
  rewrite handed_app. cbn [handed flat_map]. rewrite He. cbn [app].
  rewrite app_nil_r. repeat split. exact Hx.
Qed.

Lemma kept_sendJSON obj w st : exact st -> kept st (snd (sendJSON obj w st)).
Proof.
  intros Hx. destruct (sendJSON_cases obj w st) as [-> | ->];
    [apply kept_refl; exact Hx | apply kept_record; [reflexivity | exact Hx]].
Qed.

Lemma exact_empty st : exact st -> aggBytes st = 0 -> concat (aggBuffers st) = [].
Proof.
  unfold exact, Buffer_length. intros Hx Hz.
  destruct (concat (aggBuffers st)); [reflexivity | cbn in Hx; lia].
Qed.

Lemma exact_body st :
  exact st -> Buffer_concat (aggBuffers st) (aggBytes st) = concat (aggBuffers st).
Proof. intros Hx. rewrite Hx. apply Buffer_concat_exact. Qed.

Lemma kept_flushed w st s : exact st -> kept st (flushed w st s).
Proof.
  intros Hx. unfold flushed. rewrite (exact_body st Hx).
  set (st1 := record _ (set_agg [] 0 (set_partNumber (partNumber st + 1) st))).
  assert (H1 : kept st st1).
  { unfold kept, exact, stream, st1. fields. rewrite handed_app.
    cbn [handed flat_map handed_body concat]. rewrite !app_nil_r. repeat split. }
  destruct (s3 w _ _) as [etag|msg]; [|exact H1].
  eapply kept_trans; [|apply kept_sendJSON].
  - eapply kept_trans; [exact H1|]. repeat split.
  - apply H1.
Qed.

Lemma kept_flushPart isFinal w st : exact st -> kept st (snd (flushPart isFinal w st)).
Proof.
  intros Hx. destruct (flushPart_cases isFinal w st) as [-> | (s & _ & _ & _ & _ & ->)];
    [apply kept_refl | apply kept_flushed]; exact Hx.
Qed.

Lemma kept_startMultipart w st : exact st -> kept st (snd (startMultipart w st)).
Proof.
  intros Hx. unfold startMultipart, bind, get. cbn.
  destruct (usingMultipart st); [apply kept_refl; exact Hx|].
  unfold s3_await. destruct (s3 w _ _) as [u|msg]; cbn.
  - match goal with
    | |- kept st (snd (sendJSON ?o w ?s)) =>
        apply (kept_trans st s); [|apply kept_sendJSON]
    end.
    + unfold kept, exact, stream. fields. rewrite handed_app.
      cbn [handed flat_map handed_body]. rewrite !app_nil_r. repeat split. exact Hx.
    + exact Hx.
  - apply (kept_record (s3_send _ _)); [reflexivity | exact Hx].
Qed.

(** A frame taken in. *)
Definition taken (data : Buffer) (st st' : State) : Prop :=
  exact st' /\ stream st' = (stream st ++ data)%list /\ key st' = key st
  /\ closed st' = closed st
  /\ totalReceivedBytes st' = totalReceivedBytes st + Buffer_length data.

Lemma taken_kept data st1 st2 st3 : taken data st1 st2 -> kept st2 st3 -> taken data st1 st3.
Proof.
  intros (_ & H1 & K1 & C1 & T1) (E2 & H2 & K2 & C2 & T2).
  repeat split; [exact E2 | congruence ..].
Qed.

Lemma taken_appended data st : exact st -> taken data st (appended data st).
Proof.
  intros Hx. unfold taken, exact, stream, appended. fields.
  rewrite concat_app. cbn [concat]. rewrite app_nil_r, Buffer_length_app, <- Hx.
  rewrite app_assoc. repeat split.
Qed.

Lemma step_frame_taken w st data :
  closed st = false -> is_set (key st) = true -> exact st ->
  taken data st (step w st (frame data)).
Proof.
  intros Hc Hkey Hx. unfold step, frame, handler, on_message, bind, get. cbn.
  rewrite Hc. unfold try_catch.
  assert (Hbody : taken data st (snd (message_body (binary data) w st))).
  { unfold message_body, bind, get. cbn. rewrite Hkey. cbn.
    unfold modify. cbn. fold (appended data st).
    pose proof (taken_appended data st Hx) as Happ.
    set (st0 := appended data st) in *.
    change (usingMultipart st) with (usingMultipart st0).
    change (aggBytes st + Buffer_length data) with (aggBytes st0).
    assert (Hstart : kept st0
              (snd ((if negb (usingMultipart st0) && (MIN_PART_SIZE <=? aggBytes st0)
                     then startMultipart else ret tt) w st0))).
    { destruct (negb (usingMultipart st0) && (MIN_PART_SIZE <=? aggBytes st0));
        [apply kept_startMultipart | apply kept_refl]; apply Happ. }
    destruct ((if negb (usingMultipart st0) && (MIN_PART_SIZE <=? aggBytes st0)
               then startMultipart else ret tt) w st0) as [[[]|msg] st1];
      cbn in Hstart |- *; [|eapply taken_kept; eassumption].
    eapply taken_kept; [exact Happ|]. eapply kept_trans; [exact Hstart|].
    destruct (usingMultipart st1 && (TARGET_PART_SIZE <=? aggBytes st1));
      [apply kept_flushPart | apply kept_refl]; apply Hstart. }
  destruct (message_body (binary data) w st) as [[[]|msg] st1]; cbn in Hbody |- *;
    [exact Hbody|].
  eapply taken_kept; [exact Hbody | apply kept_sendJSON; apply Hbody].
Qed.

Lemma run_frames_taken w frames : forall st,
  closed st = false -> is_set (key st) = true -> exact st ->
  taken (concat frames) st (run w (map frame frames) st).
Proof.
  induction frames as [|f frames IH]; intros st Hc Hkey Hx.
  - cbn. unfold taken. rewrite app_nil_r. unfold Buffer_length. cbn.
    rewrite Z.add_0_r. repeat split. exact Hx.
  - cbn [map run fold_left]. fold (run w (map frame frames) (step w st (frame f))).
    destruct (step_frame_taken w st f Hc Hkey Hx) as (E1 & H1 & K1 & C1 & T1).
    destruct (IH (step w st (frame f))) as (E2 & H2 & K2 & C2 & T2);
      [congruence | congruence | exact E1 |].
    unfold taken. cbn [concat]. rewrite Buffer_length_app.
    repeat split; [exact E2 | | congruence | congruence | lia].
    rewrite H2, H1, app_assoc. reflexivity.
Qed.

(** *** Finalize *)

Lemma flushPart_final w st s :
  usingMultipart st = true -> session st = Some s ->
  snd (flushPart true w st) = if aggBytes st =? 0 then st else flushed w st s.
Proof.
  intros Hu Hs. unfold flushPart, bind, get. cbn. rewrite Hu, Hs.
  destruct (aggBytes st =? 0); [reflexivity|]. cbn.
  unfold flushed, modify, s3_await, push_part, bind, get. cbn.
  destruct (s3 w _ _) eqn:Hres; cbn; [|reflexivity].
  rewrite Hs. cbn. destruct (sendJSON _ w _) as [[] st']; reflexivity.
Qed.

(** After the forced flush of a multipart session nothing is left in the
    buffer. *)
Lemma flushPart_final_empties w st :
  Inv st -> exact st -> usingMultipart st = true ->
  handed (trace (snd (flushPart true w st))) = stream st.
Proof.
  intros (_ & _ & _ & Hon & _) Hx Hu. destruct (Hon Hu) as (s & Hs & _).
  rewrite (flushPart_final w st s Hu Hs).
  destruct (Z.eqb_spec (aggBytes st) 0) as [Hz|Hz].
  - unfold stream. rewrite (exact_empty st Hx Hz), app_nil_r. reflexivity.
  - destruct (kept_flushed w st s Hx) as (_ & Hstream & _).
    unfold stream in Hstream at 1.
    destruct (flushed_fields w st s) as (_ & _ & _ & _ & Hbuf & _).
    rewrite Hbuf in Hstream. cbn [concat] in Hstream. rewrite app_nil_r in Hstream.
    exact Hstream.
Qed.

Lemma handed_sendJSON obj w st :
  handed (trace (snd (sendJSON obj w st))) = handed (trace st).
Proof.
  destruct (sendJSON_cases obj w st) as [-> | ->]; [reflexivity|].
  fields. rewrite handed_app. cbn. apply app_nil_r.
Qed.

Lemma completeUpload_hands_all w st :
  Inv st -> exact st -> handed (trace (snd (completeUpload w st))) = stream st.
Proof.
  intros HInv Hx. unfold completeUpload, bind, get. cbn.
  destruct (usingMultipart st) eqn:Hu; cbn.
  - pose proof (flushPart_final_empties w st HInv Hx Hu) as Hflush.
    destruct (flushPart true w st) as [[[]|msg] st1]; cbn in Hflush |- *; [|exact Hflush].
    destruct (session st1) as [s|]; cbn; [|exact Hflush].
    unfold modify. cbn.
    destruct (s3_await _ w _) as [[loc|msg] st2] eqn:Hawait; cbn;
      apply (f_equal snd) in Hawait; rewrite s3_await_state in Hawait;
      cbn [snd] in Hawait; subst st2; rewrite ?handed_sendJSON; fields;
      rewrite handed_app; cbn; rewrite app_nil_r; exact Hflush.
  - rewrite (exact_body st Hx).
    destruct (s3_await _ w st) as [[loc|msg] st2] eqn:Hawait; cbn;
      apply (f_equal snd) in Hawait; rewrite s3_await_state in Hawait;
      cbn [snd] in Hawait; subst st2; rewrite ?handed_sendJSON; fields;
      rewrite handed_app; cbn; rewrite app_nil_r; reflexivity.
Qed.

Lemma step_stop_hands_all w st :
  Inv st -> exact st -> closed st = false -> is_set (key st) = true ->
  handed (trace (step w st stop)) = stream st.
Proof.
  intros HInv Hx Hc Hkey. rewrite step_stop by exact Hc.
  destruct (on_stop_active w st Hkey) as (st' & -> & _ & Htr).
  fields. rewrite Htr. unfold try_catch.
  pose proof (completeUpload_hands_all w st HInv Hx) as Hall.
  destruct (completeUpload w st) as [[[]|msg] st1]; cbn in Hall |- *; [exact Hall|].
  rewrite handed_sendJSON. exact Hall.
Qed.

Lemma run_app w l1 l2 st : run w (l1 ++ l2) st = run w l2 (run w l1 st).
Proof. unfold run. apply fold_left_app. Qed.

Lemma step_start_kept w st :
  closed st = false -> key st = None -> exact st ->
  let st' := step w st start in
  exact st' /\ stream st' = stream st /\ is_set (key st') = true /\ closed st' = false
  /\ totalReceivedBytes st' = totalReceivedBytes st.
Proof.
  intros Hc Hk Hx. cbn zeta. rewrite step_start_idle by assumption.
  set (st1 := set_key _ st).
  assert (Hx1 : exact st1) by exact Hx.
  destruct (kept_sendJSON (uploadInfo (Some (new_key w (length (trace st)))) None true)
              w st1 Hx1) as (E & H & K & C & T).
  split; [exact E|]. split; [rewrite H; reflexivity|]. split; [rewrite K; reflexivity|].
  split; [rewrite C; exact Hc | rewrite T; reflexivity].
Qed.

(** A session from a state with no session, [start] to [stop]. *)
Lemma session_stream w st0 frames :
  Inv st0 -> closed st0 = false -> key st0 = None ->
  let st := run w (start :: map frame frames) st0 in
  stream st = (handed (trace st0) ++ concat frames)%list
  /\ exact st
  /\ totalReceivedBytes st = totalReceivedBytes st0 + total_length frames
  /\ handed (trace (step w st stop)) = (handed (trace st0) ++ concat frames)%list.
Proof.
  intros HInv0 Hc Hk st.
  assert (Hx0 : exact st0).
  { destruct HInv0 as (_ & _ & _ & _ & Hidle). destruct (Hidle Hk) as (_ & Hb & Hz).
    unfold exact. rewrite Hb, Hz. reflexivity. }
  assert (Hs0 : stream st0 = handed (trace st0)).
  { destruct HInv0 as (_ & _ & _ & _ & Hidle). destruct (Hidle Hk) as (_ & Hb & _).
    unfold stream. rewrite Hb. apply app_nil_r. }
  destruct (step_start_kept w st0 Hc Hk Hx0) as (E1 & H1 & K1 & C1 & T1).
  destruct (run_frames_taken w frames (step w st0 start) C1 K1 E1)
    as (E2 & H2 & K2 & C2 & T2).
  change (run w (map frame frames) (step w st0 start)) with st in E2, H2, K2, C2, T2.
  assert (HInv : Inv st) by (apply run_Inv; exact HInv0).
  assert (Hstream : stream st = (handed (trace st0) ++ concat frames)%list)
    by (rewrite H2, H1, Hs0; reflexivity).
  split; [exact Hstream|]. split; [exact E2|].
  split; [rewrite T2, T1, total_length_concat; reflexivity|].
  rewrite step_stop_hands_all; [exact Hstream | exact HInv | exact E2 | congruence | congruence].
Qed.

(** X14: a session whose handlers run one at a time hands to S3, from start
    to stop, every byte it was given, once and in order.  The scope is that
    of [run]: each handler of the connection runs to its end, the S3 calls it
    awaits settled, before the next message is handled; a message handled
    while another handler awaits S3 is outside it, and then bytes can reach
    S3 twice (X24) or be left out of the completed upload (X25).  Within the
    scope, whatever S3 answers and whether or not the socket is still open:
    while frames arrive, the bodies handed to S3 so far followed by the
    aggregation buffer are the frames received so far, nothing is cut off or
    zero-filled, and once stop has been handled the bodies of the session's
    UploadPart and PutObject calls, concatenated in call order, are the
    frames concatenated in arrival order. *)
Theorem session_stream_handed_to_S3 (w : World) (events : list Event)
    (frames : list Buffer) :
  let st0 := run w events initial in
  closed st0 = false -> key st0 = None ->
  let st := run w (start :: map frame frames) st0 in
  (handed (trace st) ++ concat (aggBuffers st) = handed (trace st0) ++ concat frames)%list
  /\ aggBytes st = Buffer_length (concat (aggBuffers st))
  /\ totalReceivedBytes st = totalReceivedBytes st0 + total_length frames
  /\ handed (trace (step w st stop)) = (handed (trace st0) ++ concat frames)%list.
Proof.
  intros st0 Hc Hk st.
  apply (session_stream w st0 frames); [|exact Hc | exact Hk].
  apply run_Inv, Inv_initial.
Qed.

Lemma session_stream_handed_to_S3_witness :
  handed (trace (step fair_weather
                   (run fair_weather (start :: map frame [["a"]; ["b"; "c"]]%byte)
                      (run fair_weather [] initial))
                   stop))
  = (handed (trace (run fair_weather [] initial)) ++ concat [["a"]; ["b"; "c"]]%byte)%list.
Proof.
  apply (session_stream_handed_to_S3 fair_weather [] [["a"]; ["b"; "c"]]%byte); reflexivity.
Defined.

End AggregatorStream.

Module AggregatorProtocol.
Import Aggregator AggregatorFacts.

(** *** After the socket has closed *)

Lemma on_close_closes w st : closed (step w st close) = true.
Proof.
  unfold step, handler, on_close, bind, modify, get. cbn.
  destruct (usingMultipart st); [|reflexivity].
  destruct (session st) as [s|]; [|reflexivity].
  unfold try_catch, bind, s3_await. cbn.
  destruct (s3 w _ _); reflexivity.
Qed.

Lemma step_closed w st m : closed st = true -> step w st (message m) = st.
Proof.
  intros Hc. unfold step, handler, on_message, bind, get. cbn. rewrite Hc. reflexivity.
Qed.

Lemma on_close_undecided w st :
  usingMultipart st = false -> step w st close = set_closed true st.
Proof.
  intros Hu. unfold step, handler, on_close, bind, modify, get. cbn. rewrite Hu. reflexivity.
Qed.

(** X15: a connection that closes.  Outside Multipart mode the close handler
    only marks the connection closed: S3 is not called, so what was buffered
    for a single put is never stored.  And once the close handler has run,
    whatever S3 answered to an abort, every message that is still delivered,
    frame or control, is ignored: no state changes, S3 is not called and
    nothing is sent back. *)
Theorem messages_after_close_ignored (w : World) (st : State) (ms : list Message) :
  closed (step w st close) = true
  /\ (usingMultipart st = false -> step w st close = set_closed true st)
  /\ run w (map message ms) (step w st close) = step w st close.
Proof.
  split; [apply on_close_closes|]. split; [apply on_close_undecided|].
  pose proof (on_close_closes w st) as Hc.
  induction ms as [|m ms IH]; [reflexivity|].
  cbn [map run fold_left]. rewrite step_closed by exact Hc. exact IH.
Qed.

(** *** Messages that break the protocol *)

(** The error that a message is answered with when it cannot be served in
    the state it finds: a text frame that is not JSON or is the JSON [null],
    a start while a session is active, a stop or a frame while none is. *)
Definition refused (st : State) (m : Message) : option string :=
  match m with
  | text invalid_JSON => Some "Invalid JSON control message"%string
  | text parsed_null => Some (TypeError_null "type")
  | text (parsed type) =>
      if type_is type "start"
      then (if is_set (key st) then Some "Upload already in progress"%string else None)
      else if type_is type "stop"
           then (if is_set (key st) then None else Some "No active session to stop"%string)
           else None
  | binary _ => if is_set (key st) then None else Some "No active session"%string
  end.

Lemma step_sendJSON w st obj r st' :
  sendJSON obj w st = (r, st') -> r = Return tt /\ st' = snd (sendJSON obj w st).
Proof.
  intros H. pose proof (sendJSON_Return obj w st) as Hr. rewrite H in *. auto.
Qed.

Lemma step_refused w st m reason :
  closed st = false -> refused st m = Some reason ->
  step w st (message m) = snd (sendJSON (error reason) w st).
Proof.
  intros Hc Href. unfold step, handler, on_message, bind, get. cbn. rewrite Hc.
  unfold try_catch, message_body.
  destruct m as [data|[| |type]]; cbn [refused] in Href.
  - unfold bind, get. cbn. destruct (is_set (key st)); [discriminate|].
    injection Href as <-. cbn.
    destruct (sendJSON _ w st) as [r st'] eqn:Hs. apply step_sendJSON in Hs as [-> ->].
    reflexivity.
  - injection Href as <-.
    destruct (sendJSON _ w st) as [r st'] eqn:Hs. apply step_sendJSON in Hs as [-> ->].
    reflexivity.
  - injection Href as <-. reflexivity.
  - unfold bind. destruct (type_is type "start") eqn:Hstart.
    + unfold on_start, bind, get. cbn. destruct (is_set (key st)); [|discriminate].
      injection Href as <-.
      destruct (sendJSON _ w st) as [r st'] eqn:Hs. apply step_sendJSON in Hs as [-> ->].
      reflexivity.
    + cbn. destruct (type_is type "stop"); [|discriminate].
      unfold on_stop, bind, get. cbn. destruct (is_set (key st)); [discriminate|].
      injection Href as <-. cbn.
      destruct (sendJSON _ w st) as [r st'] eqn:Hs. apply step_sendJSON in Hs as [-> ->].
      reflexivity.
Qed.

(** X16: a message that cannot be served (a text frame that is not JSON or is
    the JSON null, a start while a session is active, a stop or a binary frame
    while none is) is answered with one error message, when the socket is
    open, and has no other effect: the frame is not buffered, the session is
    neither begun nor ended, and S3 is not called. *)
Theorem refused_message_only_answered (w : World) (st : State) (m : Message)
    (reason : string) :
  closed st = false -> refused st m = Some reason ->
  let st' := step w st (message m) in
  trace st' = trace st ++ (if ws_OPEN w (length (trace st))
                           then [ws_send (error reason)] else [])
  /\ s3_calls (trace st') = s3_calls (trace st)
  /\ session st' = session st /\ key st' = key st
  /\ usingMultipart st' = usingMultipart st /\ partNumber st' = partNumber st
  /\ aggBuffers st' = aggBuffers st /\ aggBytes st' = aggBytes st
  /\ totalReceivedBytes st' = totalReceivedBytes st.
Proof.
  intros Hc Href. cbn zeta. rewrite (step_refused w st m reason Hc Href).
  unfold sendJSON. destruct (ws_OPEN w (length (trace st))); cbn [snd]; fields.
  - unfold s3_calls. rewrite flat_map_app. cbn. rewrite !app_nil_r. repeat split.
  - rewrite app_nil_r. repeat split.
Qed.

Lemma refused_message_only_answered_witness :
  trace (step fair_weather initial (message (binary ["a"%byte])))
  = trace initial ++ [ws_send (error "No active session")].
Proof.
  apply (refused_message_only_answered fair_weather initial (binary ["a"%byte])
           "No active session"); reflexivity.
Defined.

(** *** What the acknowledgments report *)

(** The effect that a control message reports, given the effect just before
    it: a partAck the accepted commit-part call with its number, the size of
    its body and the ETag answered; completed the accepted complete call or
    the accepted single put, with the location; an uploadInfo that carries an
    upload id the accepted begin call that was answered with this id. *)
Definition reports (previous : option Effect) (obj : ControlMessage) : Prop :=
  match obj with
  | partAck number size etag =>
      exists k u body,
        previous = Some (s3_send (UploadPartCommand k u number body) (s3_ok etag))
        /\ size = Buffer_length body
  | completed location k =>
      (exists u ps,
          previous = Some (s3_send (CompleteMultipartUploadCommand k u ps) (s3_ok location)))
      \/ (exists body answer,
             previous = Some (s3_send (PutObjectCommand k body) (s3_ok answer))
             /\ location = single_put_location k)
  | uploadInfo k (Some u) _ =>
      previous = Some (s3_send (CreateMultipartUploadCommand k) (s3_ok u))
  | uploadInfo _ None _ => True
  | error _ => True
  end.

Definition last_effect (tr : list Effect) : option Effect := last (map Some tr) None.

(** Every control message in the trace reports the effect just before it. *)
Definition truthful (tr : list Effect) : Prop :=
  forall before obj after,
    tr = before ++ ws_send obj :: after -> reports (last_effect before) obj.

Lemma last_effect_snoc tr e : last_effect (tr ++ [e]) = Some e.
Proof. unfold last_effect. rewrite map_app. cbn [map]. apply last_last. Qed.

Lemma truthful_nil : truthful [].
Proof. intros before obj after H. destruct before; discriminate. Qed.

Lemma snoc_split (tr : list Effect) e before obj after :
  tr ++ [e] = before ++ ws_send obj :: after ->
  (after = [] /\ before = tr /\ e = ws_send obj)
  \/ (exists after', after = after' ++ [e] /\ tr = before ++ ws_send obj :: after').
Proof.
  intros H. destruct (exists_last (l := ws_send obj :: after)) as (l' & x & Hl);
    [discriminate|].
  rewrite Hl, app_assoc in H. apply app_inj_tail in H as [Htr He]. subst x.
  destruct after as [|y after].
  - left. destruct l' as [|z l']; [|destruct l'; discriminate].
    cbn in Hl. injection Hl as <-. rewrite app_nil_r in Htr. auto.
  - right. destruct l' as [|z l']; [discriminate|].
    cbn in Hl. injection Hl as <- Hafter. exists l'. split; [exact Hafter | exact Htr].
Qed.

Lemma truthful_s3 tr command result :
  truthful tr -> truthful (tr ++ [s3_send command result]).
Proof.
  intros Htr before obj after H.
  destruct (snoc_split _ _ _ _ _ H) as [(_ & _ & He) | (after' & _ & Heq)];
    [discriminate | eapply Htr; exact Heq].
Qed.

Lemma truthful_ws tr obj :
  truthful tr -> reports (last_effect tr) obj -> truthful (tr ++ [ws_send obj]).
Proof.
  intros Htr Hobj before obj' after H.
  destruct (snoc_split _ _ _ _ _ H) as [(_ & -> & He) | (after' & _ & Heq)].
  - injection He as <-. exact Hobj.
  - eapply Htr; exact Heq.
Qed.

(** The trace of the state is truthful. *)
Definition candid (st : State) : Prop := truthful (trace st).

Lemma candid_sendJSON obj w st :
  candid st -> reports (last_effect (trace st)) obj -> candid (snd (sendJSON obj w st)).
Proof.
  intros Hst Hobj. destruct (sendJSON_cases obj w st) as [-> | ->]; [exact Hst|].
  apply truthful_ws; assumption.
Qed.

Lemma candid_error message w st : candid st -> candid (snd (sendJSON (error message) w st)).
Proof. intros H. apply candid_sendJSON; [exact H | exact I]. Qed.

Lemma candid_flushed w st s : candid st -> candid (flushed w st s).
Proof.
  intros Hst. unfold flushed. destruct (s3 w _ _) as [etag|msg] eqn:Hres.
  - apply candid_sendJSON.
    + unfold candid. fields. apply truthful_s3. exact Hst.
    + fields. rewrite last_effect_snoc. cbn. eauto.
  - unfold candid. fields. apply truthful_s3. exact Hst.
Qed.

Lemma candid_flushPart isFinal w st : candid st -> candid (snd (flushPart isFinal w st)).
Proof.
  intros H. destruct (flushPart_cases isFinal w st) as [-> | (s & _ & _ & _ & _ & ->)];
    [exact H | apply candid_flushed; exact H].
Qed.

Lemma candid_startMultipart w st : candid st -> candid (snd (startMultipart w st)).
Proof.
  intros H. unfold startMultipart, bind, get. cbn.
  destruct (usingMultipart st); [exact H|].
  unfold s3_await. destruct (s3 w _ _) as [u|msg]; cbn.
  - apply candid_sendJSON.
    + unfold candid. fields. apply truthful_s3. exact H.
    + fields. rewrite last_effect_snoc. reflexivity.
  - unfold candid. fields. apply truthful_s3. exact H.
Qed.

Lemma candid_completeUpload w st : candid st -> candid (snd (completeUpload w st)).
Proof.
  intros H. unfold completeUpload, bind, get. cbn.
  destruct (usingMultipart st); cbn.
  - pose proof (candid_flushPart true w st H) as Hf.
    destruct (flushPart true w st) as [[[]|msg] st1]; cbn in Hf |- *; [|exact Hf].
    destruct (session st1) as [s|]; cbn; [|exact Hf].
    unfold modify, s3_await. cbn. destruct (s3 w _ _) as [loc|msg]; cbn.
    + apply candid_sendJSON.
      * unfold candid. fields. apply truthful_s3. exact Hf.
      * fields. rewrite last_effect_snoc. cbn. left. eauto.
    + unfold candid. fields. apply truthful_s3. exact Hf.
  - unfold s3_await. destruct (s3 w _ _) as [loc|msg]; cbn.
    + apply candid_sendJSON.
      * unfold candid. fields. apply truthful_s3. exact H.
      * fields. rewrite last_effect_snoc. cbn. right. eauto.
    + unfold candid. fields. apply truthful_s3. exact H.
Qed.

Lemma candid_on_stop w st : candid st -> candid (snd (on_stop w st)).
Proof.
  intros H. destruct (is_set (key st)) eqn:Hkey.
  - destruct (on_stop_active w st Hkey) as (st' & -> & _ & Htr).
    unfold candid. fields. rewrite Htr. unfold try_catch.
    pose proof (candid_completeUpload w st H) as Hc.
    destruct (completeUpload w st) as [[[]|msg] st1]; cbn in Hc |- *; [exact Hc|].
    apply candid_error. exact Hc.
  - unfold on_stop, bind, get. cbn. rewrite Hkey. cbn. apply candid_error. exact H.
Qed.

Lemma candid_on_start w st : candid st -> candid (snd (on_start w st)).
Proof.
  intros H. unfold on_start, bind, get. cbn.
  destruct (is_set (key st)); cbn.
  - pose proof (candid_error "Upload already in progress" w st H) as Hs.
    destruct (sendJSON _ w st) as [[[]|msg] st1]; exact Hs.
  - unfold make_key, modify. cbn.
    match goal with
    | |- context [sendJSON ?o w ?s] =>
        assert (Hs : candid (snd (sendJSON o w s)))
          by (apply candid_sendJSON; [exact H | exact I])
    end.
    destruct (sendJSON _ w _) as [[[]|msg] st1]; exact Hs.
Qed.

Lemma candid_message_body m w st : candid st -> candid (snd (message_body m w st)).
Proof.
  intros H. destruct m as [data|[| |type]]; unfold message_body.
  - unfold bind, get. cbn. destruct (is_set (key st)); cbn; [|apply candid_error; exact H].
    unfold modify. cbn. fold (appended data st).
    assert (Happ : candid (appended data st)) by exact H.
    set (st0 := appended data st) in *.
    change (usingMultipart st) with (usingMultipart st0).
    change (aggBytes st + Buffer_length data) with (aggBytes st0).
    assert (Hstart : candid
              (snd ((if negb (usingMultipart st0) && (MIN_PART_SIZE <=? aggBytes st0)
                     then startMultipart else ret tt) w st0))).
    { destruct (negb (usingMultipart st0) && (MIN_PART_SIZE <=? aggBytes st0));
        [apply candid_startMultipart | ]; exact Happ. }
    destruct ((if negb (usingMultipart st0) && (MIN_PART_SIZE <=? aggBytes st0)
               then startMultipart else ret tt) w st0) as [[[]|msg] st1];
      cbn in Hstart |- *; [|exact Hstart].
    destruct (usingMultipart st1 && (TARGET_PART_SIZE <=? aggBytes st1));
      [apply candid_flushPart|]; exact Hstart.
  - apply candid_error. exact H.
  - exact H.
  - unfold bind.
    assert (Hstart : candid (snd ((if type_is type "start" then on_start else ret false) w st))).
    { destruct (type_is type "start"); [apply candid_on_start|]; exact H. }
    destruct ((if type_is type "start" then on_start else ret false) w st)
      as [[[]|msg] st1]; cbn in Hstart |- *; try exact Hstart.
    destruct (type_is type "stop"); [apply candid_on_stop|]; exact Hstart.
Qed.

Lemma candid_step w st e : candid st -> candid (step w st e).
Proof.
  intros H. unfold step. destruct e as [m|]; cbn [handler].
  - unfold on_message, bind, get. cbn. destruct (closed st); [exact H|].
    unfold try_catch. pose proof (candid_message_body m w st H) as Hb.
    destruct (message_body m w st) as [[[]|msg] st1]; cbn in Hb |- *; [exact Hb|].
    apply candid_error. exact Hb.
  - unfold on_close, bind, modify, get. cbn.
    destruct (usingMultipart st); [|exact H].
    destruct (session st) as [s|]; [|exact H].
    unfold try_catch, bind, s3_await. cbn.
    destruct (s3 w _ _); cbn; unfold candid; fields; apply truthful_s3; exact H.
Qed.

Lemma candid_run w events : forall st, candid st -> candid (run w events st).
Proof.
  induction events as [|e events IH]; intros st H; [exact H|].
  cbn [run fold_left]. apply IH. apply candid_step. exact H.
Qed.

(** X17: a connection whose handlers run one at a time acknowledges only
    what S3 has accepted.  The scope is that of [run]: each handler runs to
    its end, the S3 calls it awaits settled, before the next message or the
    close is handled; when two commits overlap, the part number acknowledged
    is not the one the body was uploaded with (X22).  Within the scope, in
    every state the connection reaches, each partAck in the trace comes
    straight after the commit-part call it reports, accepted by S3, with that
    call's part number, the length of its body and the ETag that S3 answered;
    each completed comes straight after an accepted complete call, with the
    location answered, or an accepted single put of the same key; and each
    uploadInfo that carries an upload id comes straight after the accepted
    begin call for the same key that S3 answered with this id. *)
Theorem acknowledgments_report_accepted_calls (w : World) (events : list Event) :
  truthful (trace (run w events initial)).
Proof. apply (candid_run w events initial). exact truthful_nil. Qed.

End AggregatorProtocol.

Module AggregatorFinalize.
Import Aggregator AggregatorFacts.

(** *** The parts list of the complete call *)

(** Part numbers go strictly up along the list. *)
Fixpoint increasing (l : list Part) : Prop :=
  match l with
  | [] => True
  | p :: l' => Forall (fun q => PartNumber p < PartNumber q) l' /\ increasing l'
  end.

Lemma insert_part_last p l :
  Forall (fun q => PartNumber q <= PartNumber p) l -> insert_part p l = l ++ [p].
Proof.
  induction l as [|q l IH]; intros H; [reflexivity|].
  apply Forall_cons_iff in H as [Hq Hl]. cbn [insert_part].
  destruct (Z.ltb_spec (PartNumber p) (PartNumber q)); [lia|].
  rewrite IH by exact Hl. reflexivity.
Qed.

Lemma sort_parts_from acc l :
  increasing l ->
  Forall (fun q => Forall (fun p => PartNumber q <= PartNumber p) l) acc ->
  fold_left (fun acc p => insert_part p acc) l acc = acc ++ l.
Proof.
  revert acc. induction l as [|p l IH]; intros acc Hinc Hacc; [cbn; symmetry; apply app_nil_r|].
  cbn [fold_left]. destruct Hinc as [Hp Hl].
  rewrite insert_part_last.
  - rewrite IH; [rewrite <- app_assoc; reflexivity | exact Hl |].
    apply Forall_app. split.
    + eapply Forall_impl; [|exact Hacc]. intros q Hq. apply Forall_inv_tail in Hq. exact Hq.
    + constructor; [|constructor]. eapply Forall_impl; [|exact Hp]. cbn. intros; lia.
  - eapply Forall_impl; [|exact Hacc]. intros q Hq. apply Forall_inv in Hq. exact Hq.
Qed.

(** The sort of the complete call leaves a list that goes up as it is. *)
Lemma sort_parts_increasing l : increasing l -> sort_parts l = l.
Proof. intros H. unfold sort_parts. rewrite sort_parts_from; [reflexivity | exact H | constructor]. Qed.

Lemma recorded_increasing l : forall k,
  map number_of l = map (fun i => Z.of_nat i + 1) (seq k (length l)) ->
  increasing (recorded l)
  /\ Forall (fun p => Z.of_nat k < PartNumber p <= Z.of_nat (k + length l)) (recorded l).
Proof.
  induction l as [|[[n sz] r] l IH]; intros k Hnum; [split; constructor|].
  cbn [map length seq] in Hnum. injection Hnum as Hn Hrest.
  unfold number_of in Hn. cbn [fst] in Hn.
  destruct (IH (S k) Hrest) as [Hinc Hall].
  assert (Hall' : Forall (fun p => Z.of_nat k + 1 < PartNumber p
                                   <= Z.of_nat (k + S (length l))) (recorded l)).
  { eapply Forall_impl; [|exact Hall]. intros p Hp. cbn beta in *.
    unfold Attempt in *. lia. }
  cbn [length]. unfold Attempt in *.
  destruct r as [etag|msg]; cbn [recorded increasing].
  - split.
    + split; [|exact Hinc]. eapply Forall_impl; [|exact Hall'].
      intros p Hp. cbn beta in *. cbn [PartNumber]. lia.
    + constructor; [cbn [PartNumber]; lia|].
      eapply Forall_impl; [|exact Hall']. intros p Hp. cbn beta in *. lia.
  - split; [exact Hinc|]. eapply Forall_impl; [|exact Hall'].
    intros p Hp. cbn beta in *. lia.
Qed.

Lemma increasing_snoc l p :
  increasing l -> Forall (fun q => PartNumber q < PartNumber p) l -> increasing (l ++ [p]).
Proof.
  induction l as [|q l IH]; intros Hinc Hall; [repeat constructor|].
  destruct Hinc as [Hq Hl]. apply Forall_cons_iff in Hall as [Hqp Hlp].
  cbn [app increasing]. split; [|apply IH; assumption].
  apply Forall_app. split; [exact Hq | repeat constructor; exact Hqp].
Qed.

(** *** The calls that a stop makes in Multipart mode *)

Lemma s3_calls_app tr tr' : s3_calls (tr ++ tr') = s3_calls tr ++ s3_calls tr'.
Proof. apply flat_map_app. Qed.

Lemma s3_calls_sendJSON obj w st :
  s3_calls (trace (snd (sendJSON obj w st))) = s3_calls (trace st).
Proof.
  destruct (sendJSON_cases obj w st) as [-> | ->]; [reflexivity|].
  fields. rewrite s3_calls_app. cbn. apply app_nil_r.
Qed.

(** What the stop handler asks of S3 for a multipart session [s]: the commit
    of the bytes left in the buffer, when there are any, and then, unless
    that commit was refused, the complete call with the parts recorded. *)
Definition finalize_calls (st : State) (s : Session)
    (calls : list (S3Command * S3Result)) : Prop :=
  let last_part :=
    UploadPartCommand (session_key s) (uploadId s) (partNumber st + 1)
      (Buffer_concat (aggBuffers st) (aggBytes st)) in
  (aggBytes st = 0
   /\ exists answer,
        calls = [(CompleteMultipartUploadCommand (session_key s) (uploadId s) (parts s),
                  answer)])
  \/ (aggBytes st <> 0
      /\ exists etag answer,
           calls = [(last_part, s3_ok etag);
                    (CompleteMultipartUploadCommand (session_key s) (uploadId s)
                       (parts s ++ [{| PartNumber := partNumber st + 1; ETag := etag |}]),
                     answer)])
  \/ (aggBytes st <> 0
      /\ exists rejection, calls = [(last_part, s3_error rejection)]).

Lemma completeUpload_multipart w st s :
  usingMultipart st = true -> session st = Some s ->
  increasing (parts s) -> Forall (fun p => PartNumber p <= partNumber st) (parts s) ->
  exists calls,
    s3_calls (trace (snd (completeUpload w st))) = s3_calls (trace st) ++ calls
    /\ finalize_calls st s calls.
Proof.
  intros Hu Hs Hinc Hmax. unfold completeUpload, bind, get. cbn. rewrite Hu. cbn.
  unfold flushPart, bind, get. cbn. rewrite Hu, Hs.
  destruct (Z.eqb_spec (aggBytes st) 0) as [Hz|Hz]; cbn.
  - rewrite Hs. cbn. rewrite (sort_parts_increasing _ Hinc).
    unfold modify, s3_await. cbn.
    destruct (s3 w _ _); cbn; rewrite ?s3_calls_sendJSON; fields; rewrite s3_calls_app;
      (eexists; split; [reflexivity|]; left; split; [exact Hz | eexists; reflexivity]).
  - unfold modify, s3_await, push_part, bind, get. cbn.
    destruct (s3 w _ _) as [etag|msg] eqn:Hres; cbn.
    + rewrite Hs. cbn.
      match goal with
      | |- context [sendJSON ?o w ?s1] =>
          pose proof (sendJSON_fields o w s1) as (Hsess & _);
          pose proof (s3_calls_sendJSON o w s1) as Hcalls;
          pose proof (sendJSON_Return o w s1) as Hret;
          destruct (sendJSON o w s1) as [r st1]
      end.
      cbn [fst snd] in Hsess, Hcalls, Hret. fields. subst r. cbn. rewrite Hsess. cbn.
      match goal with
      | |- context [fold_left _ ?l []] =>
          change (fold_left (fun acc p => insert_part p acc) l []) with (sort_parts l)
      end.
      rewrite sort_parts_increasing.
      * match goal with
        | |- context [match s3 w ?n ?c with _ => _ end] => destruct (s3 w n c)
        end; cbn; rewrite ?s3_calls_sendJSON; fields;
          rewrite s3_calls_app, Hcalls, s3_calls_app, <- app_assoc;
          (eexists; split; [reflexivity|]; right; left; split;
           [exact Hz | do 2 eexists; reflexivity]).
      * apply increasing_snoc; [exact Hinc|].
        eapply Forall_impl; [|exact Hmax]. cbn. intros; lia.
    + eexists. split; [|right; right; split; [exact Hz | eexists; reflexivity]].
      rewrite s3_calls_app. reflexivity.
Qed.

(** X18: stop on a connection in Multipart mode whose handlers run one at a
    time.  The scope is that of [run] and [step]: each handler before the
    stop request has run to its end, the S3 calls it awaits settled, and so
    does the stop handler before anything else is handled; with commits that
    overlap the parts recorded are not in the order of their numbers (X22),
    and a frame handled while the stop handler awaits its last commit is
    left out of the complete call (X25).  Within the scope, the bytes left in
    the buffer are committed as one last part, whatever their number, and
    the complete call then lists exactly the parts that S3 accepted, in
    upload order, which is the order of their numbers (the sort changes
    nothing); when the last commit is refused no complete call is made.  In
    no case is the multipart upload aborted: the handler makes no abort call,
    and as it resets the session, neither does the close handler
    afterwards. *)
Theorem stop_in_multipart_mode (w : World) (events : list Event) :
  let st := run w events initial in
  closed st = false -> usingMultipart st = true ->
  let st' := step w st stop in
  exists s calls,
    session st = Some s
    /\ increasing (parts s)
    /\ s3_calls (trace st') = s3_calls (trace st) ++ calls
    /\ finalize_calls st s calls
    /\ usingMultipart st' = false
    /\ s3_calls (trace (step w st' close)) = s3_calls (trace st').
Proof.
  intros st Hc Hu st'.
  pose proof (run_Inv w events initial Inv_initial) as (_ & (Hnum & _) & _ & Hon & Hidle).
  fold st in Hnum, Hon, Hidle.
  destruct (Hon Hu) as (s & Hs & Hparts & Hcount & _).
  destruct (recorded_increasing (attempts (trace st)) 0 Hnum) as [Hinc Hall].
  rewrite <- Hparts in Hinc, Hall.
  assert (Hmax : Forall (fun p => PartNumber p <= partNumber st) (parts s)).
  { eapply Forall_impl; [|exact Hall]. intros p Hp. cbn beta in *. rewrite Hcount.
    unfold Attempt in *. lia. }
  assert (Hkey : is_set (key st) = true).
  { destruct (key st) eqn:Hk; [reflexivity|]. destruct (Hidle eq_refl) as (Hoff & _).
    congruence. }
  destruct (completeUpload_multipart w st s Hu Hs Hinc Hmax) as (calls & Hcalls & Hshape).
  assert (Hst' : exists st1, st' = reset st1
                   /\ s3_calls (trace st1) = s3_calls (trace st) ++ calls).
  { subst st'. rewrite step_stop by exact Hc.
    destruct (on_stop_active w st Hkey) as (st1 & -> & _ & Htr).
    exists st1. split; [reflexivity|]. rewrite Htr. unfold try_catch.
    destruct (completeUpload w st) as [[[]|msg] st2]; cbn in Hcalls |- *; [exact Hcalls|].
    rewrite s3_calls_sendJSON. exact Hcalls. }
  destruct Hst' as (st1 & -> & Htr).
  exists s, calls. split; [exact Hs|]. split; [exact Hinc|]. split; [exact Htr|].
  split; [exact Hshape|]. split; reflexivity.
Qed.

Lemma stop_in_multipart_mode_witness :
  exists s calls,
    session (run fair_weather [start; frame (frame_of_size MIN_PART_SIZE)] initial) = Some s
    /\ s3_calls (trace (step fair_weather
                          (run fair_weather [start; frame (frame_of_size MIN_PART_SIZE)] initial)
                          stop))
       = s3_calls (trace (run fair_weather [start; frame (frame_of_size MIN_PART_SIZE)] initial))
         ++ calls
    /\ finalize_calls (run fair_weather [start; frame (frame_of_size MIN_PART_SIZE)] initial)
         s calls.
Proof.
  destruct (stop_in_multipart_mode fair_weather [start; frame (frame_of_size MIN_PART_SIZE)])
    as (s & calls & Hs & _ & Hcalls & Hshape & _).
  - vm_compute. reflexivity.
  - vm_compute. reflexivity.
  - exists s, calls. auto.
Defined.

End AggregatorFinalize.

Module AggregatorBuffer.
Import Aggregator AggregatorFacts.

(** *** How much is buffered, and how big the parts are *)

Definition target_sized (a : Attempt) : Prop := TARGET_PART_SIZE <= size_of a.

(** Every commit-part call but the last had a body of the target size or
    more, and in Multipart mode the last one too. *)
Definition sized (st : State) : Prop :=
  Forall target_sized (removelast (attempts (trace st)))
  /\ (usingMultipart st = true -> Forall target_sized (attempts (trace st))).

(** What holds between two handlers: in Multipart mode the buffer holds less
    than the target size. *)
Definition disciplined (st : State) : Prop :=
  (usingMultipart st = true -> aggBytes st < TARGET_PART_SIZE) /\ sized st.

Lemma disciplined_initial : disciplined initial.
Proof. split; [discriminate|]. split; [constructor | intros _; constructor]. Qed.

Lemma sized_silent e st : silent e = true -> sized st -> sized (record e st).
Proof.
  intros He [H1 H2]. unfold sized. fields. rewrite attempts_silent by exact He.
  split; assumption.
Qed.

Lemma sized_sendJSON obj w st : sized st -> sized (snd (sendJSON obj w st)).
Proof.
  intros H. destruct (sendJSON_cases obj w st) as [-> | ->];
    [exact H | apply sized_silent; [reflexivity | exact H]].
Qed.

Lemma disciplined_sendJSON obj w st : disciplined st -> disciplined (snd (sendJSON obj w st)).
Proof.
  intros [Hb Hs]. split; [|apply sized_sendJSON; exact Hs].
  destruct (sendJSON_fields obj w st) as (_ & _ & _ & _ & -> & -> & _). exact Hb.
Qed.

Lemma sized_removelast st : sized st -> Forall target_sized (removelast (attempts (trace st))).
Proof. intros [H _]. exact H. Qed.

(** The commit of a buffer of the target size or more. *)
Lemma disciplined_flushed w st s :
  sized st -> usingMultipart st = true -> TARGET_PART_SIZE <= aggBytes st ->
  disciplined (flushed w st s).
Proof.
  intros [_ Hall] Hu Hbig. specialize (Hall Hu).
  assert (H0 : 0 <= aggBytes st) by (unfold TARGET_PART_SIZE in Hbig; lia).
  destruct (flushed_fields w st s) as (Hu' & _ & _ & Hbytes & _).
  split; [intros _; rewrite Hbytes; unfold TARGET_PART_SIZE; lia|].
  assert (Hnew : Forall target_sized
            (attempts (trace st)
             ++ [(partNumber st + 1,
                  Buffer_length (Buffer_concat (aggBuffers st) (aggBytes st)),
                  s3 w (length (trace st))
                    (UploadPartCommand (session_key s) (uploadId s) (partNumber st + 1)
                       (Buffer_concat (aggBuffers st) (aggBytes st))))])).
  { apply Forall_app. split; [exact Hall|]. constructor; [|constructor].
    unfold target_sized, size_of. cbn [fst snd].
    rewrite Buffer_length_concat by exact H0. exact Hbig. }
  assert (Hsized : sized (record (s3_send
                      (UploadPartCommand (session_key s) (uploadId s) (partNumber st + 1)
                         (Buffer_concat (aggBuffers st) (aggBytes st)))
                      (s3 w (length (trace st))
                         (UploadPartCommand (session_key s) (uploadId s) (partNumber st + 1)
                            (Buffer_concat (aggBuffers st) (aggBytes st)))))
                   (set_agg [] 0 (set_partNumber (partNumber st + 1) st)))).
  { unfold sized. fields. rewrite attempts_snoc. cbn [attempts_step].
    split; [rewrite removelast_last; exact Hall | intros _; exact Hnew]. }
  unfold flushed. destruct (s3 w _ _) as [etag|msg]; [|exact Hsized].
  apply sized_sendJSON. exact Hsized.
Qed.

(** The forced commit of what is left. *)
Lemma flushed_final_removelast w st s :
  sized st -> usingMultipart st = true ->
  Forall target_sized (removelast (attempts (trace (flushed w st s)))).
Proof.
  intros [_ Hall] Hu. specialize (Hall Hu).
  assert (Hrec : Forall target_sized
            (removelast (attempts (trace (record (s3_send
                      (UploadPartCommand (session_key s) (uploadId s) (partNumber st + 1)
                         (Buffer_concat (aggBuffers st) (aggBytes st)))
                      (s3 w (length (trace st))
                         (UploadPartCommand (session_key s) (uploadId s) (partNumber st + 1)
                            (Buffer_concat (aggBuffers st) (aggBytes st)))))
                   (set_agg [] 0 (set_partNumber (partNumber st + 1) st))))))).
  { fields. rewrite attempts_snoc. cbn [attempts_step]. rewrite removelast_last. exact Hall. }
  unfold flushed. destruct (s3 w _ _) as [etag|msg]; [|exact Hrec].
  match goal with
  | |- context [sendJSON ?o w ?s1] =>
      destruct (sendJSON_cases o w s1) as [-> | ->]
  end; [exact Hrec|].
  fields. rewrite attempts_silent by reflexivity. exact Hrec.
Qed.

Lemma flushPart_target w st s :
  usingMultipart st = true -> session st = Some s -> TARGET_PART_SIZE <= aggBytes st ->
  snd (flushPart false w st) = flushed w st s.
Proof.
  intros Hu Hs Hbig. unfold flushPart, bind, get. cbn. rewrite Hu, Hs.
  destruct (Z.eqb_spec (aggBytes st) 0) as [Hz|Hz];
    [unfold TARGET_PART_SIZE in Hbig; lia|].
  destruct (Z.ltb_spec (aggBytes st) MIN_PART_SIZE) as [Hlt|Hge];
    [unfold TARGET_PART_SIZE, MIN_PART_SIZE in *; lia|].
  cbn. unfold flushed, modify, s3_await, push_part, bind, get. cbn.
  destruct (s3 w _ _) eqn:Hres; cbn; [|reflexivity].
  rewrite Hs. cbn. destruct (sendJSON _ w _) as [[] st']; reflexivity.
Qed.

Lemma sized_startMultipart w st : sized st -> sized (snd (startMultipart w st)).
Proof.
  intros H. unfold startMultipart, bind, get. cbn.
  destruct (usingMultipart st) eqn:Hu; [exact H|].
  unfold s3_await. destruct (s3 w _ _) as [u|msg]; cbn.
  - apply sized_sendJSON. unfold sized. fields. rewrite attempts_snoc. cbn [attempts_step].
    split; [constructor | intros _; constructor].
  - apply sized_silent; [reflexivity | exact H].
Qed.

(** A refused begin call leaves the mode as it was. *)
Lemma startMultipart_Throw w st msg st1 :
  startMultipart w st = (Throw msg, st1) ->
  usingMultipart st1 = false.
Proof.
  unfold startMultipart, bind, get. cbn.
  destruct (usingMultipart st) eqn:Hu; [discriminate|].
  unfold s3_await. destruct (s3 w _ _) as [u|m]; cbn.
  - unfold modify. cbn.
    match goal with
    | |- context [sendJSON ?o w ?s1] =>
        pose proof (sendJSON_Return o w s1) as Hret; destruct (sendJSON o w s1) as [r s2]
    end.
    cbn in Hret. subst r. discriminate.
  - intros [= _ <-]. exact Hu.
Qed.

Lemma frame_body_disciplined data w st :
  Inv st -> disciplined st -> is_set (key st) = true ->
  disciplined (snd (message_body (binary data) w st)).
Proof.
  intros HInv [Hbuf Hsized] Hkey. unfold message_body, bind, get. cbn. rewrite Hkey. cbn.
  unfold modify. cbn. fold (appended data st).
  pose proof (appended_Inv data st HInv Hkey) as HInv0.
  assert (Hs0 : sized (appended data st)) by exact Hsized.
  set (st0 := appended data st) in *.
  change (usingMultipart st) with (usingMultipart st0).
  change (aggBytes st + Buffer_length data) with (aggBytes st0).
  assert (Hkey0 : is_set (key st0) = true) by exact Hkey.
  clearbody st0.
  destruct (negb (usingMultipart st0) && (MIN_PART_SIZE <=? aggBytes st0)) eqn:Hbegin.
  - pose proof (startMultipart_Inv w st0 HInv0 Hkey0) as HInv1.
    pose proof (sized_startMultipart w st0 Hs0) as Hs1.
    destruct (startMultipart w st0) as [[[]|msg] st1] eqn:Hstart; cbn in HInv1, Hs1 |- *.
    + destruct (usingMultipart st1 && (TARGET_PART_SIZE <=? aggBytes st1)) eqn:Hflush.
      * apply andb_prop in Hflush as [Hu1 Hbig]. apply Z.leb_le in Hbig.
        destruct HInv1 as (_ & _ & _ & Hon & _). destruct (Hon Hu1) as (s & Hs & _).
        rewrite (flushPart_target w st1 s Hu1 Hs Hbig).
        apply disciplined_flushed; assumption.
      * unfold ret. cbn [snd]. split; [|exact Hs1]. intros Hu1. rewrite Hu1 in Hflush.
        cbn in Hflush.
        apply Z.leb_gt in Hflush. exact Hflush.
    + split; [|exact Hs1]. intros Hu1.
      rewrite (startMultipart_Throw w st0 msg st1 Hstart) in Hu1. discriminate.
  - cbn.
    destruct (usingMultipart st0 && (TARGET_PART_SIZE <=? aggBytes st0)) eqn:Hflush.
    + apply andb_prop in Hflush as [Hu0 Hbig]. apply Z.leb_le in Hbig.
      destruct HInv0 as (_ & _ & _ & Hon & _). destruct (Hon Hu0) as (s & Hs & _).
      rewrite (flushPart_target w st0 s Hu0 Hs Hbig).
      apply disciplined_flushed; assumption.
    + unfold ret. cbn [snd]. split; [|exact Hs0]. intros Hu0. rewrite Hu0 in Hflush.
      cbn in Hflush.
      apply Z.leb_gt in Hflush. exact Hflush.
Qed.

Lemma completeUpload_removelast w st :
  Inv st -> sized st ->
  Forall target_sized (removelast (attempts (trace (snd (completeUpload w st))))).
Proof.
  intros HInv Hsized. unfold completeUpload, bind, get. cbn.
  destruct (usingMultipart st) eqn:Hu; cbn.
  - assert (Hflush : Forall target_sized
              (removelast (attempts (trace (snd (flushPart true w st)))))).
    { destruct (flushPart_cases true w st) as [-> | (s & _ & _ & _ & _ & ->)];
        [apply Hsized | apply flushed_final_removelast; assumption]. }
    destruct (flushPart true w st) as [[[]|msg] st1]; cbn in Hflush |- *; [|exact Hflush].
    destruct (session st1) as [s|]; cbn; [|exact Hflush].
    unfold modify. cbn.
    destruct (s3_await _ w _) as [[loc|msg] st2] eqn:Hawait; cbn;
      apply (f_equal snd) in Hawait; rewrite s3_await_state in Hawait;
      cbn [snd] in Hawait; subst st2.
    + match goal with
      | |- context [sendJSON ?o w ?s1] => destruct (sendJSON_cases o w s1) as [-> | ->]
      end; fields; rewrite ?(attempts_silent _ (ws_send _)) by reflexivity;
        rewrite attempts_silent by reflexivity; exact Hflush.
    + fields. rewrite attempts_silent by reflexivity. exact Hflush.
  - destruct (s3_await _ w st) as [[loc|msg] st2] eqn:Hawait; cbn;
      apply (f_equal snd) in Hawait; rewrite s3_await_state in Hawait;
      cbn [snd] in Hawait; subst st2.
    + match goal with
      | |- context [sendJSON ?o w ?s1] => destruct (sendJSON_cases o w s1) as [-> | ->]
      end; fields; rewrite ?(attempts_silent _ (ws_send _)) by reflexivity;
        rewrite attempts_silent by reflexivity; apply Hsized.
    + fields. rewrite attempts_silent by reflexivity. apply Hsized.
Qed.

Lemma disciplined_reset st :
  Forall target_sized (removelast (attempts (trace st))) -> disciplined (reset st).
Proof.
  intros H. split; [discriminate|]. split; [exact H | discriminate].
Qed.

Lemma on_stop_disciplined w st : Inv st -> disciplined st -> disciplined (snd (on_stop w st)).
Proof.
  intros HInv Hd. destruct (is_set (key st)) eqn:Hkey.
  - destruct (on_stop_active w st Hkey) as (st' & -> & _ & Htr).
    apply disciplined_reset. rewrite Htr. unfold try_catch.
    pose proof (completeUpload_removelast w st HInv (proj2 Hd)) as Hc.
    destruct (completeUpload w st) as [[[]|msg] st1]; cbn in Hc |- *; [exact Hc|].
    match goal with
    | |- context [sendJSON ?o w ?s1] => destruct (sendJSON_cases o w s1) as [-> | ->]
    end; [exact Hc|]. fields. rewrite attempts_silent by reflexivity. exact Hc.
  - unfold on_stop, bind, get. cbn. rewrite Hkey. cbn. apply disciplined_sendJSON. exact Hd.
Qed.

Lemma on_start_disciplined w st : disciplined st -> disciplined (snd (on_start w st)).
Proof.
  intros Hd. unfold on_start, bind, get. cbn. destruct (is_set (key st)); cbn.
  - pose proof (disciplined_sendJSON (error "Upload already in progress") w st Hd) as Hs.
    destruct (sendJSON _ w st) as [[[]|msg] st1]; exact Hs.
  - unfold make_key, modify. cbn.
    match goal with
    | |- context [sendJSON ?o w ?s] =>
        assert (Hs : disciplined (snd (sendJSON o w s)))
          by (apply disciplined_sendJSON; exact Hd)
    end.
    destruct (sendJSON _ w _) as [[[]|msg] st1]; exact Hs.
Qed.

Lemma message_body_disciplined m w st :
  Inv st -> disciplined st -> disciplined (snd (message_body m w st)).
Proof.
  intros HInv Hd. destruct m as [data|[| |type]].
  - destruct (is_set (key st)) eqn:Hkey; [apply frame_body_disciplined; assumption|].
    unfold message_body, bind, get. cbn. rewrite Hkey. cbn.
    apply disciplined_sendJSON. exact Hd.
  - apply disciplined_sendJSON. exact Hd.
  - exact Hd.
  - unfold message_body, bind.
    assert (Hstart : Inv (snd ((if type_is type "start" then on_start else ret false) w st))
                     /\ disciplined
                          (snd ((if type_is type "start" then on_start else ret false) w st))).
    { destruct (type_is type "start");
        [split; [apply on_start_Inv | apply on_start_disciplined]; assumption | split; assumption]. }
    destruct ((if type_is type "start" then on_start else ret false) w st)
      as [[[]|msg] st1]; cbn in Hstart |- *; try apply Hstart.
    destruct (type_is type "stop"); [apply on_stop_disciplined|]; apply Hstart.
Qed.

Lemma step_disciplined w st e : Inv st -> disciplined st -> disciplined (step w st e).
Proof.
  intros HInv Hd. unfold step. destruct e as [m|]; cbn [handler].
  - unfold on_message, bind, get. cbn. destruct (closed st); [exact Hd|].
    unfold try_catch. pose proof (message_body_disciplined m w st HInv Hd) as Hb.
    destruct (message_body m w st) as [[[]|msg] st1]; cbn in Hb |- *; [exact Hb|].
    apply disciplined_sendJSON. exact Hb.
  - unfold on_close, bind, modify, get. cbn.
    destruct (usingMultipart st) eqn:Hu; [|exact Hd].
    destruct (session st) as [s|]; [|exact Hd].
    unfold try_catch, bind.
    destruct (s3_await _ w _) as [[v|msg] st1] eqn:Hawait; cbn;
      apply (f_equal snd) in Hawait; rewrite s3_await_state in Hawait;
      cbn [snd] in Hawait; subst st1;
      (split; [exact (proj1 Hd) | apply (sized_silent (s3_send _ _)); [reflexivity | apply Hd]]).
Qed.

Lemma run_disciplined w events : forall st,
  Inv st -> disciplined st -> disciplined (run w events st).
Proof.
  induction events as [|e events IH]; intros st HInv Hd; [exact Hd|].
  cbn [run fold_left]. apply IH; [apply step_Inv; exact HInv | apply step_disciplined; assumption].
Qed.

(** X19: on a connection whose handlers run one at a time, buffering is
    bounded in Multipart mode and parts are cut at the 6 MiB target.  The
    scope is that of [run]: each handler runs to its end, the S3 calls it
    awaits settled, before the next message or the close is handled; a frame
    handled while the stop handler awaits its last commit is committed after
    a part of any size (X25).  Within the scope, in every state the
    connection reaches, between two handlers the aggregation buffer holds
    less than 6 MiB whenever the mode is Multipart (a frame that fills it to
    6 MiB or more is committed by its own handler, whatever S3 answers), and
    every commit-part call since the multipart upload began, except possibly
    the last one, carried a body of at least 6 MiB. *)
Theorem buffer_bounded_parts_at_target (w : World) (events : list Event) :
  let st := run w events initial in
  (usingMultipart st = true -> aggBytes st < TARGET_PART_SIZE)
  /\ (forall i a, nth_error (attempts (trace st)) i = Some a ->
        (S i < length (attempts (trace st)))%nat -> TARGET_PART_SIZE <= size_of a).
Proof.
  intros st.
  destruct (run_disciplined w events initial Inv_initial disciplined_initial)
    as (Hbuf & Hall & _).
  fold st in Hbuf, Hall. split; [exact Hbuf|].
  intros i a Hi Hlt. rewrite <- nth_error_removelast in Hi by exact Hlt.
  apply nth_error_In in Hi. rewrite Forall_forall in Hall. apply Hall. exact Hi.
Qed.

End AggregatorBuffer.

Module AggregatorKey.
Import Aggregator AggregatorFacts.

(** *** The key of a session *)

Definition command_key (command : S3Command) : option string :=
  match command with
  | CreateMultipartUploadCommand k => k
  | UploadPartCommand k _ _ _ => k
  | CompleteMultipartUploadCommand k _ _ => k
  | AbortMultipartUploadCommand k _ => k
  | PutObjectCommand k _ => k
  end.

(** The effect names the key [k]: a call to S3 is for the object [k], and an
    uploadInfo or a completed message carries [k]. *)
Definition names (k : string) (e : Effect) : Prop :=
  match e with
  | s3_send command _ => command_key command = Some k
  | ws_send (uploadInfo k' _ _) => k' = Some k
  | ws_send (completed _ k') => k' = Some k
  | ws_send _ => True
  end.

(** The trace has grown by effects that name [k]. *)
Definition extends (k : string) (tr tr' : list Effect) : Prop :=
  exists new, tr' = tr ++ new /\ Forall (names k) new.

(** The session under way is the one of key [k]. *)
Definition owned (k : string) (st : State) : Prop :=
  key st = Some k /\ (forall s, session st = Some s -> session_key s = Some k).

Lemma extends_refl k tr : extends k tr tr.
Proof. exists []. split; [symmetry; apply app_nil_r | constructor]. Qed.

Lemma extends_trans k tr1 tr2 tr3 :
  extends k tr1 tr2 -> extends k tr2 tr3 -> extends k tr1 tr3.
Proof.
  intros (n1 & -> & H1) (n2 & -> & H2). exists (n1 ++ n2).
  split; [rewrite app_assoc; reflexivity | apply Forall_app; split; assumption].
Qed.

Lemma extends_one k tr e : names k e -> extends k tr (tr ++ [e]).
Proof. intros H. exists [e]. split; [reflexivity | constructor; [exact H | constructor]]. Qed.

Lemma extends_sendJSON k obj w st :
  names k (ws_send obj) -> extends k (trace st) (trace (snd (sendJSON obj w st))).
Proof.
  intros H. destruct (sendJSON_cases obj w st) as [-> | ->];
    [apply extends_refl | apply extends_one; exact H].
Qed.

Lemma owned_sendJSON k obj w st : owned k st -> owned k (snd (sendJSON obj w st)).
Proof.
  intros H. destruct (sendJSON_fields obj w st) as (Hs & _ & _ & _ & _ & _ & Hk).
  unfold owned. rewrite Hs, Hk. exact H.
Qed.

Lemma flushed_names k w st s :
  owned k st -> session st = Some s ->
  extends k (trace st) (trace (flushed w st s)) /\ owned k (flushed w st s).
Proof.
  intros [Hk Hown] Hs. pose proof (Hown s Hs) as Hsk.
  unfold flushed. destruct (s3 w _ _) as [etag|msg].
  - split.
    + eapply extends_trans; [|apply extends_sendJSON; exact I].
      fields. apply extends_one. exact Hsk.
    + apply owned_sendJSON. split; [exact Hk|]. fields. intros s' [= <-]. exact Hsk.
  - split; [fields; apply extends_one; exact Hsk | split; [exact Hk | exact Hown]].
Qed.

Lemma flushPart_names k isFinal w st :
  owned k st ->
  extends k (trace st) (trace (snd (flushPart isFinal w st)))
  /\ owned k (snd (flushPart isFinal w st)).
Proof.
  intros H. destruct (flushPart_cases isFinal w st) as [-> | (s & _ & Hs & _ & _ & ->)];
    [split; [apply extends_refl | exact H] | apply flushed_names; assumption].
Qed.

Lemma startMultipart_names k w st :
  owned k st ->
  extends k (trace st) (trace (snd (startMultipart w st)))
  /\ owned k (snd (startMultipart w st)).
Proof.
  intros [Hk Hown]. unfold startMultipart, bind, get. cbn.
  destruct (usingMultipart st); [split; [apply extends_refl | split; assumption]|].
  unfold s3_await. destruct (s3 w _ _) as [u|msg]; cbn.
  - split.
    + eapply extends_trans; [|apply extends_sendJSON; exact Hk].
      fields. apply extends_one. exact Hk.
    + apply owned_sendJSON. split; [exact Hk|]. fields. intros s' [= <-]. exact Hk.
  - split; [fields; apply extends_one; exact Hk | split; assumption].
Qed.

Lemma step_frame_names k w st data :
  owned k st ->
  extends k (trace st) (trace (step w st (frame data)))
  /\ owned k (step w st (frame data))
  /\ closed (step w st (frame data)) = closed st.
Proof.
  intros Hown. unfold step, frame, handler, on_message, bind, get. cbn.
  destruct (closed st) eqn:Hc; [cbn; split; [apply extends_refl | split; [exact Hown | exact Hc]]|].
  unfold try_catch.
  assert (Hbody : extends k (trace st) (trace (snd (message_body (binary data) w st)))
                  /\ owned k (snd (message_body (binary data) w st))
                  /\ closed (snd (message_body (binary data) w st)) = false).
  { unfold message_body, bind, get. cbn. destruct Hown as [Hk Hown]. rewrite Hk. cbn.
    unfold modify. cbn. fold (appended data st).
    assert (H0 : owned k (appended data st)) by (split; assumption).
    assert (C0 : closed (appended data st) = false) by exact Hc.
    assert (T0 : trace (appended data st) = trace st) by reflexivity.
    set (st0 := appended data st) in *.
    change (usingMultipart st) with (usingMultipart st0).
    change (aggBytes st + Buffer_length data) with (aggBytes st0).
    rewrite <- T0. clearbody st0.
    assert (Hstart : extends k (trace st0)
              (trace (snd ((if negb (usingMultipart st0) && (MIN_PART_SIZE <=? aggBytes st0)
                            then startMultipart else ret tt) w st0)))
            /\ owned k (snd ((if negb (usingMultipart st0) && (MIN_PART_SIZE <=? aggBytes st0)
                              then startMultipart else ret tt) w st0))
            /\ closed (snd ((if negb (usingMultipart st0) && (MIN_PART_SIZE <=? aggBytes st0)
                             then startMultipart else ret tt) w st0)) = false).
    { destruct (negb (usingMultipart st0) && (MIN_PART_SIZE <=? aggBytes st0)).
      - destruct (startMultipart_names k w st0 H0) as [He Ho].
        split; [exact He|]. split; [exact Ho|].
        unfold startMultipart, bind, get. cbn.
        destruct (usingMultipart st0); [exact C0|].
        unfold s3_await. destruct (s3 w _ _); cbn; [|exact C0].
        rewrite sendJSON_closed. exact C0.
      - split; [apply extends_refl | split; assumption]. }
    destruct ((if negb (usingMultipart st0) && (MIN_PART_SIZE <=? aggBytes st0)
               then startMultipart else ret tt) w st0) as [[[]|msg] st1];
      cbn in Hstart |- *; [|exact Hstart].
    destruct Hstart as (E1 & O1 & C1).
    destruct (usingMultipart st1 && (TARGET_PART_SIZE <=? aggBytes st1)).
    - destruct (flushPart_names k false w st1 O1) as [E2 O2].
      split; [eapply extends_trans; eassumption|]. split; [exact O2|].
      rewrite flushPart_closed. exact C1.
    - split; [exact E1 | split; assumption]. }
  destruct (message_body (binary data) w st) as [[[]|msg] st1]; cbn in Hbody |- *;
    [exact Hbody|].
  destruct Hbody as (E & O & C).
  split; [eapply extends_trans; [exact E | apply extends_sendJSON; exact I]|].
  split; [apply owned_sendJSON; exact O | rewrite sendJSON_closed; exact C].
Qed.

Lemma run_frames_names k w frames : forall st,
  owned k st ->
  extends k (trace st) (trace (run w (map frame frames) st))
  /\ owned k (run w (map frame frames) st)
  /\ closed (run w (map frame frames) st) = closed st.
Proof.
  induction frames as [|f frames IH]; intros st Hown.
  - split; [apply extends_refl | split; [exact Hown | reflexivity]].
  - cbn [map run fold_left]. fold (run w (map frame frames) (step w st (frame f))).
    destruct (step_frame_names k w st f Hown) as (E1 & O1 & C1).
    destruct (IH _ O1) as (E2 & O2 & C2).
    split; [eapply extends_trans; eassumption|]. split; [exact O2 | congruence].
Qed.

Lemma completeUpload_names k w st :
  owned k st -> extends k (trace st) (trace (snd (completeUpload w st))).
Proof.
  intros Hown. unfold completeUpload, bind, get. cbn.
  destruct (usingMultipart st); cbn.
  - destruct (flushPart_names k true w st Hown) as [E1 O1].
    destruct (flushPart true w st) as [[[]|msg] st1]; cbn in E1, O1 |- *; [|exact E1].
    destruct (session st1) as [s|] eqn:Hs; cbn; [|exact E1].
    pose proof (proj2 O1 s Hs) as Hsk.
    unfold modify, s3_await. cbn. eapply extends_trans; [exact E1|].
    destruct (s3 w _ _) as [loc|msg]; cbn.
    + eapply extends_trans; [|apply extends_sendJSON; exact Hsk].
      fields. apply extends_one. exact Hsk.
    + fields. apply extends_one. exact Hsk.
  - destruct Hown as [Hk _]. unfold s3_await.
    destruct (s3 w _ _) as [loc|msg]; cbn.
    + eapply extends_trans; [|apply extends_sendJSON; exact Hk].
      fields. apply extends_one. exact Hk.
    + fields. apply extends_one. exact Hk.
Qed.

Lemma step_stop_names k w st :
  closed st = false -> owned k st -> extends k (trace st) (trace (step w st stop)).
Proof.
  intros Hc Hown. rewrite step_stop by exact Hc.
  assert (Hkey : is_set (key st) = true) by (destruct Hown as [-> _]; reflexivity).
  destruct (on_stop_active w st Hkey) as (st' & -> & _ & Htr).
  fields. rewrite Htr. unfold try_catch.
  pose proof (completeUpload_names k w st Hown) as Hc'.
  destruct (completeUpload w st) as [[[]|msg] st1]; cbn in Hc' |- *; [exact Hc'|].
  eapply extends_trans; [exact Hc' | apply extends_sendJSON; exact I].
Qed.

Lemma session_names w st0 frames :
  Inv st0 -> closed st0 = false -> key st0 = None ->
  extends (new_key w (length (trace st0))) (trace st0)
    (trace (step w (run w (start :: map frame frames) st0) stop)).
Proof.
  intros HInv Hc Hk. set (k := new_key w (length (trace st0))).
  cbn [run fold_left]. fold (run w (map frame frames) (step w st0 start)).
  assert (Hstart : extends k (trace st0) (trace (step w st0 start))
                   /\ owned k (step w st0 start) /\ closed (step w st0 start) = false).
  { rewrite step_start_idle by assumption. fold k.
    split; [apply (extends_sendJSON k _ w (set_key (Some k) st0)); reflexivity|].
    split; [|rewrite sendJSON_closed; exact Hc].
    apply owned_sendJSON. split; [reflexivity|]. fields.
    destruct HInv as (_ & _ & Hoff & _ & Hidle). destruct (Hidle Hk) as (Hu & _).
    destruct (Hoff Hu) as [Hnone _]. intros s Hs. congruence. }
  destruct Hstart as (E1 & O1 & C1).
  destruct (run_frames_names k w frames _ O1) as (E2 & O2 & C2).
  eapply extends_trans; [exact E1|]. eapply extends_trans; [exact E2|].
  apply step_stop_names; [congruence | exact O2].
Qed.

(** X20: a session uses one key throughout.  From a state with no session,
    start generates the key, and everything the connection then does up to
    and including the handling of stop names that key: each call to S3
    (begin, commit-part, complete or single put) is for the object of that
    key, and each uploadInfo and completed message carries it. *)
Theorem session_names_its_key (w : World) (events : list Event) (frames : list Buffer) :
  let st0 := run w events initial in
  closed st0 = false -> key st0 = None ->
  let k := new_key w (length (trace st0)) in
  exists new,
    trace (step w (run w (start :: map frame frames) st0) stop) = trace st0 ++ new
    /\ Forall (names k) new.
Proof.
  intros st0 Hc Hk k.
  apply (session_names w st0 frames); [|exact Hc | exact Hk].
  apply run_Inv, Inv_initial.
Qed.

Lemma session_names_its_key_witness :
  exists new,
    trace (step fair_weather
             (run fair_weather (start :: map frame [["a"]; ["b"; "c"]]%byte)
                (run fair_weather [] initial))
             stop)
    = trace (run fair_weather [] initial) ++ new
    /\ Forall (names (new_key fair_weather (length (trace (run fair_weather [] initial))))) new.
Proof.
  apply (session_names_its_key fair_weather [] [["a"]; ["b"; "c"]]%byte); reflexivity.
Defined.

End AggregatorKey.

(* ===================================================================== *)
(** ** Producer and aggregator together                                   *)
(* ===================================================================== *)

Module EndToEnd.
Import Slicer.

(** What the aggregator is delivered for a message that the producer hands
    to its socket. *)
Definition delivered (m : Producer.Sent) : Aggregator.Event :=
  match m with
  | Producer.send_start => Aggregator.start
  | Producer.send_stop => Aggregator.stop
  | Producer.send_binary c => Aggregator.frame c
  end.

(** A recording on the producer's side: Connect, the socket opens, the
    session is acknowledged, Record, the recorder's blobs, Stop. *)
Definition recording_session (key : string) (fuel : nat)
    (chan : nat -> Producer.Channel) (blobs : list ArrayBuffer) : list Producer.Event :=
  [Producer.click_Connect; Producer.socket_open;
   Producer.socket_message (Producer.JSON (Producer.uploadInfo key));
   Producer.click_Record Producer.media_ok]
  ++ map (Producer.dataavailable fuel chan) blobs ++ [Producer.click_Stop].

Lemma Producer_run_app l1 l2 a :
  Producer.run (l1 ++ l2) a = Producer.run l2 (Producer.run l1 a).
Proof. unfold Producer.run. apply fold_left_app. Qed.

(** Blobs whose handlers start once the session-ready flag is down are
    dropped. *)
Lemma late_blobs_dropped fuel chan late :
  forall a, Producer.sessionReadyRef a = false ->
            Producer.run (map (Producer.dataavailable fuel chan) late) a = a.
Proof.
  induction late as [|data late IH]; intros a Hflag; [reflexivity|].
  cbn [map Producer.run fold_left].
  rewrite ProducerStream.data_dropped_when_not_ready by (reflexivity || exact Hflag).
  apply IH. exact Hflag.
Qed.

(** X21: a recording, end to end, with the handlers of each side run one at a
    time: on the producer's side every handler (the send loop of a blob
    included) ends before the next event is handled, and the aggregator
    finishes with one message, its awaited S3 calls settled, before it
    handles the next.  The producer connects, is acknowledged, records
    [blobs] on a socket that stays open and drains, and stops; the blobs that
    the recorder emits after the click, [late], the one that
    [recorder.stop()] flushes among them, are dropped.  So what the producer
    hands to the socket is one start, the pieces of [blobs] in order, and one
    stop, and nothing of [late].  An aggregator that is delivered exactly
    these messages hands to S3, whatever S3 answers, bodies whose
    concatenation is the concatenation of [blobs]: the bytes of the blobs
    handled before Stop reach S3 once and in order, and the bytes recorded
    after them do not reach S3 at all.  (Handlers that overlap are treated
    in ProducerOverlap and AggregatorOverlap; there the order, and on the
    aggregator's side the bytes, can differ.) *)
Theorem blobs_before_Stop_reach_S3 (w : Aggregator.World) (key : string) (fuel : nat)
    (chan : nat -> Producer.Channel) (blobs late : list ArrayBuffer) :
  ProducerStream.stays_open chan -> ProducerStream.drains_within fuel chan ->
  Forall (fun data => (length data < fuel)%nat) blobs ->
  let a := Producer.run (recording_session key fuel chan blobs
                         ++ map (Producer.dataavailable fuel chan) late)
             Producer.initial in
  let st := Aggregator.run w (map delivered (Producer.sent a)) Aggregator.initial in
  (exists pieces,
      Producer.sent a
      = Producer.send_start :: map Producer.send_binary pieces ++ [Producer.send_stop]
      /\ concat pieces = concat blobs
      /\ Forall (fun p => 0 < byteLength p <= Producer.CHUNK_SIZE) pieces)
  /\ Producer.status a = Producer.Stopping
  /\ AggregatorStream.handed (Aggregator.trace st) = concat blobs.
Proof.
  intros Hopen Hdrain Hfuel a st.
  set (a0 := Producer.run
               [Producer.click_Connect; Producer.socket_open;
                Producer.socket_message (Producer.JSON (Producer.uploadInfo key));
                Producer.click_Record Producer.media_ok] Producer.initial).
  destruct (ProducerStream.blobs_sent_whole fuel chan blobs Hopen Hdrain Hfuel a0)
    as (pieces & Hsent & Hcat & Hall & (S1 & S2 & S3 & S4));
    [discriminate | reflexivity | discriminate |].
  set (a1 := Producer.run (map (Producer.dataavailable fuel chan) blobs) a0) in *.
  destruct (ProducerStream.stop_sends_stop a1) as (Hstop & Hstatus & Hflag).
  { rewrite S4. reflexivity. }
  { unfold Producer.ws_is_open. rewrite S1. reflexivity. }
  assert (Ha : a = Producer.step Producer.click_Stop a1).
  { unfold a, recording_session. rewrite Producer_run_app, Producer_run_app. fold a0.
    rewrite Producer_run_app. fold a1.
    change (Producer.run [Producer.click_Stop] a1) with (Producer.step Producer.click_Stop a1).
    apply late_blobs_dropped. exact Hflag. }
  rewrite <- Ha in Hstop, Hstatus.
  assert (Hall_sent : Producer.sent a
            = Producer.send_start :: map Producer.send_binary pieces ++ [Producer.send_stop]).
  { rewrite Hstop, Hsent. reflexivity. }
  split; [exists pieces; auto|]. split; [exact Hstatus|].
  unfold st. rewrite Hall_sent. cbn [map delivered].
  rewrite map_app, map_map. cbn [map delivered].
  change (Aggregator.start :: map (fun x => Aggregator.frame x) pieces ++ [Aggregator.stop])
    with ((Aggregator.start :: map Aggregator.frame pieces) ++ [Aggregator.stop]).
  rewrite AggregatorStream.run_app.
  match goal with
  | |- context [Aggregator.run w [Aggregator.stop] ?x] =>
      change (Aggregator.run w [Aggregator.stop] x)
        with (Aggregator.step w x Aggregator.stop)
  end.
  destruct (AggregatorStream.session_stream w Aggregator.initial pieces
              AggregatorFacts.Inv_initial eq_refl eq_refl) as (_ & _ & _ & Hhanded).
  rewrite Hhanded, Hcat. reflexivity.
Qed.

Lemma blobs_before_Stop_reach_S3_witness :
  AggregatorStream.handed
    (Aggregator.trace
       (Aggregator.run AggregatorFacts.fair_weather
          (map delivered
             (Producer.sent
                (Producer.run
                   (recording_session "k" 4 ProducerStream.always_clear
                      [["a"; "b"; "c"]; ["d"]]%byte
                    ++ map (Producer.dataavailable 4 ProducerStream.always_clear)
                         [["e"; "f"]]%byte)
                   Producer.initial)))
          Aggregator.initial))
  = concat [["a"; "b"; "c"]; ["d"]]%byte.
Proof.
  apply (blobs_before_Stop_reach_S3 AggregatorFacts.fair_weather "k" 4
           ProducerStream.always_clear [["a"; "b"; "c"]; ["d"]]%byte [["e"; "f"]]%byte).
  - intros t. reflexivity.
  - intros t. exists 0%nat. split; [lia|]. vm_compute. discriminate.
  - repeat constructor.
Defined.

End EndToEnd.

(* ===================================================================== *)
(** ** Handlers that overlap at an await                                  *)
(* ===================================================================== *)

Module AggregatorOverlap.
Import Aggregator AggregatorFacts.

(** *** [flushPart], cut at its await *)

(** [flushPart(isFinal)] up to the point where it suspends on
    [s3.send(new UploadPartCommand(...))]: the command, whose arguments are
    evaluated before the call, and [body.length]; [None] when it returns
    before. *)
Definition flush_until_upload (isFinal : bool) : Async (option (S3Command * Z)) :=
  st <- get ;;
  match usingMultipart st, session st with
  | true, Some s =>
      if aggBytes st =? 0 then ret None
      else if negb isFinal && (aggBytes st <? MIN_PART_SIZE) then ret None
      else
        modify (fun st => set_partNumber (partNumber st + 1) st) ;;;
        let body := Buffer_concat (aggBuffers st) (aggBytes st) in
        modify (set_agg [] 0) ;;;
        st1 <- get ;;
        ret (Some (UploadPartCommand (session_key s) (uploadId s) (partNumber st1) body,
                   Buffer_length body))
  | _, _ => ret None
  end.

(** The rest of [flushPart], from the moment the awaited call settles with
    [result]: [partNumber] and [session] are read then. *)
Definition flush_after_upload (command : S3Command) (size : Z) (result : S3Result)
    : Async unit :=
  modify (record (s3_send command result)) ;;;
  match result with
  | s3_error rejection => throw rejection
  | s3_ok uploadPartRes_ETag =>
      st2 <- get ;;
      push_part {| PartNumber := partNumber st2; ETag := uploadPartRes_ETag |} ;;;
      sendJSON (partAck (partNumber st2) size uploadPartRes_ETag)
  end.

(** The handler of a binary frame up to the point where [flushPart(false)]
    suspends; [None] when the handler does not get there. *)
Definition frame_until_upload (data : Buffer) : Async (option (S3Command * Z)) :=
  st <- get ;;
  if closed st then ret None
  else if negb (is_set (key st)) then
    sendJSON (error "No active session") ;;; ret None
  else
    modify (fun st => set_agg (aggBuffers st ++ [data])
                              (aggBytes st + Buffer_length data) st) ;;;
    modify (fun st => set_totalReceivedBytes
                        (totalReceivedBytes st + Buffer_length data) st) ;;;
    st <- get ;;
    if negb (usingMultipart st) && (MIN_PART_SIZE <=? aggBytes st) then ret None
    else if usingMultipart st && (TARGET_PART_SIZE <=? aggBytes st)
         then flush_until_upload false
         else ret None.

(** The rest of that handler. *)
Definition frame_after_upload (command : S3Command) (size : Z) (result : S3Result)
    : Async unit :=
  try_catch (flush_after_upload command size result)
    (fun rejection => sendJSON (error (message_or_default rejection))).

Arguments flush_until_upload : simpl never.
Arguments flush_after_upload : simpl never.
Arguments frame_until_upload : simpl never.
Arguments frame_after_upload : simpl never.

(** Cutting [flushPart] at the await changes nothing when the call settles at
    once. *)
Lemma flushPart_cut isFinal w st command size st1 :
  flush_until_upload isFinal w st = (Return (Some (command, size)), st1) ->
  flushPart isFinal w st
  = flush_after_upload command size (s3 w (length (trace st1)) command) w st1.
Proof.
  unfold flush_until_upload, flushPart, flush_after_upload, bind, get, modify, ret, s3_await.
  cbn. destruct (usingMultipart st); [|discriminate].
  destruct (session st) as [s|]; [|discriminate].
  destruct (aggBytes st =? 0); [discriminate|].
  destruct (negb isFinal && (aggBytes st <? MIN_PART_SIZE)); [discriminate|].
  cbn. intros [= <- <- <-]. cbn.
  destruct (s3 w _ _); reflexivity.
Qed.

(** The frame that fills the buffer of a multipart session to the target. *)
Lemma frame_until_upload_multipart w st s data :
  closed st = false -> is_set (key st) = true ->
  usingMultipart st = true -> session st = Some s ->
  0 <= aggBytes st -> TARGET_PART_SIZE <= aggBytes st + Buffer_length data ->
  frame_until_upload data w st
  = (Return (Some (UploadPartCommand (session_key s) (uploadId s) (partNumber st + 1)
                     (Buffer_concat (aggBuffers st ++ [data])
                        (aggBytes st + Buffer_length data)),
                   Buffer_length (Buffer_concat (aggBuffers st ++ [data])
                                    (aggBytes st + Buffer_length data)))),
     set_agg [] 0 (set_partNumber (partNumber st + 1) (appended data st))).
Proof.
  intros Hc Hk Hu Hs H0 Hbig.
  unfold frame_until_upload, flush_until_upload, bind, get, modify, ret. cbn.
  rewrite Hc, Hk. cbn. rewrite Hu. cbn.
  destruct (Z.leb_spec TARGET_PART_SIZE (aggBytes st + Buffer_length data)); [|lia].
  cbn. rewrite Hu, Hs.
  destruct (Z.eqb_spec (aggBytes st + Buffer_length data) 0);
    [unfold TARGET_PART_SIZE in *; lia|].
  destruct (Z.ltb_spec (aggBytes st + Buffer_length data) MIN_PART_SIZE);
    [unfold TARGET_PART_SIZE, MIN_PART_SIZE in *; lia|].
  reflexivity.
Qed.

Lemma frame_cut_at_upload w st data command size st1 :
  frame_until_upload data w st = (Return (Some (command, size)), st1) ->
  on_message (binary data) w st
  = frame_after_upload command size (s3 w (length (trace st1)) command) w st1.
Proof.
  intros H.
  assert (Hcase : closed st = false /\ is_set (key st) = true
                  /\ (negb (usingMultipart st)
                      && (MIN_PART_SIZE <=? aggBytes st + Buffer_length data)) = false
                  /\ (usingMultipart st
                      && (TARGET_PART_SIZE <=? aggBytes st + Buffer_length data)) = true
                  /\ flush_until_upload false w (appended data st)
                     = (Return (Some (command, size)), st1)).
  { unfold frame_until_upload, bind, get, modify, ret in H. cbn in H.
    destruct (closed st); [discriminate|].
    destruct (is_set (key st)); cbn in H.
    - destruct (negb (usingMultipart st)
                && (MIN_PART_SIZE <=? aggBytes st + Buffer_length data)); [discriminate|].
      destruct (usingMultipart st
                && (TARGET_PART_SIZE <=? aggBytes st + Buffer_length data)); [|discriminate].
      repeat split. exact H.
    - destruct (sendJSON _ w st) as [[[]|msg] st']; discriminate. }
  destruct Hcase as (Hc & Hk & Hbegin & Hflush & Hcut).
  apply flushPart_cut in Hcut.
  unfold on_message, bind, get. cbn. rewrite Hc.
  unfold frame_after_upload, try_catch, message_body, bind, get, modify. cbn.
  rewrite Hk. cbn. fold (appended data st).
  change (usingMultipart st) with (usingMultipart (appended data st)) in Hbegin, Hflush |- *.
  change (aggBytes st + Buffer_length data) with (aggBytes (appended data st))
    in Hbegin, Hflush |- *.
  rewrite Hbegin. unfold ret. cbn [fst snd]. rewrite Hflush, Hcut. reflexivity.
Qed.

(** What the rest of the handler does once its commit-part call is answered
    with an ETag. *)
Lemma frame_after_upload_ok w st s command size etag :
  session st = Some s ->
  exists st',
    snd (frame_after_upload command size (s3_ok etag) w st) = st'
    /\ session st'
       = Some {| session_key := session_key s; uploadId := uploadId s;
                 parts := parts s ++ [{| PartNumber := partNumber st; ETag := etag |}] |}
    /\ partNumber st' = partNumber st
    /\ trace st'
       = trace st ++ s3_send command (s3_ok etag)
           :: (if ws_OPEN w (S (length (trace st)))
               then [ws_send (partAck (partNumber st) size etag)] else []).
Proof.
  intros Hs. eexists. split; [reflexivity|].
  unfold frame_after_upload, flush_after_upload, try_catch, push_part, bind, get, modify.
  cbn. rewrite Hs. cbn. unfold sendJSON. cbn. rewrite length_app. cbn [length].
  rewrite Nat.add_1_r.
  destruct (ws_OPEN w (S (length (trace st)))); cbn; repeat split.
  rewrite <- app_assoc. reflexivity.
Qed.

(** X22: the part number of a commit is read again after its await.  In a
    multipart session, let a frame fill the buffer to the 6 MiB target, so
    that its handler suspends in the commit-part call for part n + 1, and let
    a second frame of 6 MiB or more be handled before that call settles: its
    handler suspends in the commit-part call for part n + 2.  When the calls
    then settle, both accepted, the first handler records and acknowledges
    its part under the number n + 2: the parts list ends with two entries
    numbered n + 2, and no entry has the number n + 1 under which the first
    body was uploaded.  (Were the first call to settle at once, the cut
    handler is the handler run to its end.) *)
Theorem part_number_read_after_await (w : World) (st : State) (s : Session)
    (d1 d2 : Buffer) (etag1 etag2 : string) :
  closed st = false -> is_set (key st) = true ->
  usingMultipart st = true -> session st = Some s ->
  0 <= aggBytes st ->
  TARGET_PART_SIZE <= aggBytes st + Buffer_length d1 ->
  TARGET_PART_SIZE <= Buffer_length d2 ->
  let n := partNumber st in
  let body1 := Buffer_concat (aggBuffers st ++ [d1]) (aggBytes st + Buffer_length d1) in
  let body2 := Buffer_concat [d2] (Buffer_length d2) in
  let upload1 := UploadPartCommand (session_key s) (uploadId s) (n + 1) body1 in
  let upload2 := UploadPartCommand (session_key s) (uploadId s) (n + 2) body2 in
  exists st1 st2,
    frame_until_upload d1 w st = (Return (Some (upload1, Buffer_length body1)), st1)
    /\ on_message (binary d1) w st
       = frame_after_upload upload1 (Buffer_length body1)
           (s3 w (length (trace st1)) upload1) w st1
    /\ frame_until_upload d2 w st1 = (Return (Some (upload2, Buffer_length body2)), st2)
    /\ session
         (snd (frame_after_upload upload2 (Buffer_length body2) (s3_ok etag2) w
                 (snd (frame_after_upload upload1 (Buffer_length body1) (s3_ok etag1) w st2))))
       = Some {| session_key := session_key s; uploadId := uploadId s;
                 parts := parts s ++ [{| PartNumber := n + 2; ETag := etag1 |};
                                      {| PartNumber := n + 2; ETag := etag2 |}] |}.
Proof.
  intros Hc Hk Hu Hs H0 Hbig1 Hbig2 n body1 body2 upload1 upload2.
  pose proof (frame_until_upload_multipart w st s d1 Hc Hk Hu Hs H0 Hbig1) as Hcut1.
  set (st1 := set_agg [] 0 (set_partNumber (partNumber st + 1) (appended d1 st))) in *.
  assert (Hcut2 : frame_until_upload d2 w st1
                  = (Return (Some (upload2, Buffer_length body2)),
                     set_agg [] 0 (set_partNumber (partNumber st1 + 1) (appended d2 st1)))).
  { rewrite (frame_until_upload_multipart w st1 s d2); try assumption; try reflexivity.
    unfold upload2, body2, n, st1. fields. cbn [app]. rewrite Z.add_0_l.
    replace (partNumber st + 1 + 1) with (partNumber st + 2) by lia. reflexivity. }
  set (st2 := set_agg [] 0 (set_partNumber (partNumber st1 + 1) (appended d2 st1))) in *.
  exists st1, st2. split; [exact Hcut1|].
  split; [apply frame_cut_at_upload; exact Hcut1|]. split; [exact Hcut2|].
  destruct (frame_after_upload_ok w st2 s upload1 (Buffer_length body1) etag1)
    as (st3 & -> & Hs3 & Hn3 & _); [exact Hs|].
  destruct (frame_after_upload_ok w st3 _ upload2 (Buffer_length body2) etag2 Hs3)
    as (st4 & -> & Hs4 & _).
  rewrite Hs4, Hn3. cbn [session_key uploadId parts].
  rewrite <- app_assoc. cbn [app].
  replace (partNumber st2) with (n + 2) by (unfold st2, st1, n; fields; lia).
  reflexivity.
Qed.

Definition uploading : State :=
  run fair_weather [start; frame (frame_of_size MIN_PART_SIZE)] initial.

Lemma part_number_read_after_await_witness :
  exists s st2,
    session uploading = Some s
    /\ session
         (snd (frame_after_upload
                 (UploadPartCommand (session_key s) (uploadId s) 2
                    (Buffer_concat [frame_of_size TARGET_PART_SIZE]
                       (Buffer_length (frame_of_size TARGET_PART_SIZE))))
                 (Buffer_length
                    (Buffer_concat [frame_of_size TARGET_PART_SIZE]
                       (Buffer_length (frame_of_size TARGET_PART_SIZE))))
                 (s3_ok "e2") fair_weather
                 (snd (frame_after_upload
                         (UploadPartCommand (session_key s) (uploadId s) 1
                            (Buffer_concat
                               (aggBuffers uploading ++ [frame_of_size MiB])
                               (aggBytes uploading + Buffer_length (frame_of_size MiB))))
                         (Buffer_length
                            (Buffer_concat
                               (aggBuffers uploading ++ [frame_of_size MiB])
                               (aggBytes uploading + Buffer_length (frame_of_size MiB))))
                         (s3_ok "e1") fair_weather st2))))
       = Some {| session_key := session_key s; uploadId := uploadId s;
                 parts := parts s ++ [{| PartNumber := 2; ETag := "e1" |};
                                      {| PartNumber := 2; ETag := "e2" |}] |}.
Proof.
  assert (Hs : exists s, session uploading = Some s /\ partNumber uploading = 0
                         /\ closed uploading = false /\ is_set (key uploading) = true
                         /\ usingMultipart uploading = true
                         /\ aggBytes uploading = MIN_PART_SIZE).
  { unfold uploading. cbn [run fold_left].
    one_step idtac. one_step frame_sizes. eexists. repeat split. }
  destruct Hs as (s & Hs & Hn & Hc & Hk & Hu & Hbytes).
  assert (Hlen1 : Buffer_length (frame_of_size MiB) = MiB)
    by (apply Buffer_length_frame; unfold MiB; lia).
  assert (Hlen2 : Buffer_length (frame_of_size TARGET_PART_SIZE) = TARGET_PART_SIZE)
    by (apply Buffer_length_frame; unfold TARGET_PART_SIZE; lia).
  destruct (part_number_read_after_await fair_weather uploading s
              (frame_of_size MiB) (frame_of_size TARGET_PART_SIZE) "e1" "e2")
    as (st1 & st2 & _ & _ & _ & Hparts);
    try assumption.
  - rewrite Hbytes. unfold MIN_PART_SIZE. lia.
  - rewrite Hbytes, Hlen1. unfold MIN_PART_SIZE, TARGET_PART_SIZE, MiB. lia.
  - rewrite Hlen2. lia.
  - exists s, st2. split; [exact Hs|]. rewrite Hn in Hparts. exact Hparts.
Defined.

End AggregatorOverlap.

Module ProducerOverlap.
Import Slicer Producer ProducerFacts ProducerStream.

(** *** The send loop, cut at its await *)

(** The send loop from look [t] up to the point where it first suspends in
    [await new Promise(r => setTimeout(r, 50))]: the pieces not yet sent,
    the first of which it is waiting to send, and the look at which the
    [while] test is made again; [None] when the loop ends without waiting. *)
Fixpoint send_until_wait (chan : nat -> Channel) (t : nat) (chunks : list ArrayBuffer)
    (a : App) : App * option (list ArrayBuffer * nat) :=
  match chunks with
  | [] => (a, None)
  | c :: rest =>
      if transmit_ready a (chan t) && (BACKPRESSURE_HIGH <? ch_bufferedAmount (chan t))
      then (a, Some (chunks, S t))
      else if transmit_ready a (chan t)
           then
             let a := ws_send (send_binary c) a in
             let a := setBytesSent (bytesSent a + byteLength c) a in
             send_until_wait chan (S t) rest a
           else (console_write (console_warn "Socket closed mid-send") a, None)
  end.

Lemma backpressure_wait_more_fuel a chan fuel :
  forall t t', backpressure_wait fuel a chan t = Some t' ->
               backpressure_wait (S fuel) a chan t = Some t'.
Proof.
  induction fuel as [|fuel IH]; intros t t' H; [discriminate|].
  cbn [backpressure_wait] in H. change (backpressure_wait (S (S fuel)) a chan t)
    with (if transmit_ready a (chan t) && (BACKPRESSURE_HIGH <? ch_bufferedAmount (chan t))
          then backpressure_wait (S fuel) a chan (S t) else Some t).
  destruct (transmit_ready a (chan t) && (BACKPRESSURE_HIGH <? ch_bufferedAmount (chan t)));
    [apply IH; exact H | exact H].
Qed.

(** Cutting the loop at its first wait changes nothing when no other handler
    runs meanwhile: the loop resumed at the cut ends as the uncut loop does. *)
Lemma send_chunks_cut fuel chan chunks :
  forall t a r,
    send_chunks fuel chan t chunks a = Some r ->
    match send_until_wait chan t chunks a with
    | (a1, None) => r = (a1, returned)
    | (a1, Some (rest, t1)) => send_chunks fuel chan t1 rest a1 = Some r
    end.
Proof.
  induction chunks as [|c rest IH]; intros t a r H.
  - cbn in H |- *. congruence.
  - cbn [send_chunks] in H. cbn [send_until_wait].
    destruct fuel as [|fuel]; [discriminate|]. cbn [backpressure_wait] in H.
    destruct (transmit_ready a (chan t) && (BACKPRESSURE_HIGH <? ch_bufferedAmount (chan t))).
    + cbn [send_chunks].
      destruct (backpressure_wait fuel a chan (S t)) as [t'|] eqn:Hwait; [|discriminate].
      rewrite (backpressure_wait_more_fuel a chan fuel (S t) t' Hwait). exact H.
    + destruct (transmit_ready a (chan t)); [|congruence].
      apply IH. exact H.
Qed.

(** What has been sent when the loop suspends. *)
Lemma send_until_wait_suspended chan chunks :
  forall t a a1 rest t1,
    send_until_wait chan t chunks a = (a1, Some (rest, t1)) ->
    exists sent_so_far,
      chunks = sent_so_far ++ rest /\ rest <> []
      /\ sent a1 = sent a ++ map send_binary sent_so_far
      /\ wsRef a1 = wsRef a.
Proof.
  induction chunks as [|c more IH]; intros t a a1 rest t1 H; cbn [send_until_wait] in H.
  - discriminate.
  - destruct (transmit_ready a (chan t) && (BACKPRESSURE_HIGH <? ch_bufferedAmount (chan t))).
    + injection H as <- <- _. exists []. cbn. rewrite app_nil_r.
      repeat split. discriminate.
    + destruct (transmit_ready a (chan t)); [|discriminate].
      apply IH in H as (l & Hl & Hne & Hsent & Hws). exists (c :: l).
      cbn [app map]. split; [rewrite Hl; reflexivity|]. split; [exact Hne|].
      split; [rewrite Hsent; cbn; rewrite <- app_assoc; reflexivity | exact Hws].
Qed.

(** X23: blobs can overtake one another at the backpressure wait.  Let the
    send loop of one blob suspend in its wait, some pieces sent and others
    not, and let the handler of the next blob run before the wait is over, on
    a socket that is open and has drained: it sends all its pieces.  When
    the first loop resumes it sends its remaining pieces after them.  So the
    socket is handed the first blob's leading pieces, then the second blob's
    pieces, then the first blob's remaining ones: a piece of the first blob
    comes after the pieces of the second.  (When no other handler runs
    meanwhile, the loop resumed at the cut ends as the uncut loop does.) *)
Theorem pieces_overtake_at_backpressure_wait (fuel : nat) (chanA chanB : nat -> Channel)
    (chunksA chunksB restA : list ArrayBuffer) (t1 : nat) (a a1 : App) :
  wsRef a <> None ->
  send_until_wait chanA 0 chunksA a = (a1, Some (restA, t1)) ->
  stays_open chanB -> drains_within fuel chanB ->
  stays_open chanA -> drains_within fuel chanA ->
  exists sentA a2 a3,
    chunksA = sentA ++ restA /\ restA <> []
    /\ send_chunks fuel chanB 0 chunksB a1 = Some (a2, returned)
    /\ send_chunks fuel chanA t1 restA a2 = Some (a3, returned)
    /\ sent a3 = sent a ++ map send_binary (sentA ++ chunksB ++ restA)
    /\ (forall r, send_chunks fuel chanA 0 chunksA a = Some r ->
                  send_chunks fuel chanA t1 restA a1 = Some r).
Proof.
  intros Hws Hcut HopenB HdrainB HopenA HdrainA.
  destruct (send_until_wait_suspended chanA chunksA 0 a a1 restA t1 Hcut)
    as (sentA & Hsplit & Hne & Hsent1 & Hws1).
  destruct (send_chunks_all fuel chanB chunksB HopenB HdrainB 0%nat a1)
    as (a2 & Hrun2 & Hsent2 & _ & _ & (Hws2 & _)); [congruence|].
  destruct (send_chunks_all fuel chanA restA HopenA HdrainA t1 a2)
    as (a3 & Hrun3 & Hsent3 & _); [congruence|].
  exists sentA, a2, a3. split; [exact Hsplit|]. split; [exact Hne|].
  split; [exact Hrun2|]. split; [exact Hrun3|]. split.
  - rewrite Hsent3, Hsent2, Hsent1, !map_app, <- !app_assoc. reflexivity.
  - intros r Hr. pose proof (send_chunks_cut fuel chanA chunksA 0 a r Hr) as Hcut'.
    rewrite Hcut in Hcut'. exact Hcut'.
Qed.

(** Open all along; 5 MiB buffered at look 1, nothing otherwise. *)
Definition busy_at_1 : nat -> Channel :=
  fun t => {| ch_readyState := OPEN;
              ch_bufferedAmount := if (t =? 1)%nat then 5 * 1024 * 1024 else 0 |}.

(** The first loop, suspended before its second piece. *)
Definition suspended : App :=
  fst (send_until_wait busy_at_1 0 [["a"%byte]; ["b"%byte]] streaming).

Lemma pieces_overtake_at_backpressure_wait_witness :
  exists sentA a2 a3,
    [["a"%byte]; ["b"%byte]] = sentA ++ [["b"%byte]] /\ [["b"%byte]] <> []
    /\ send_chunks 3 always_clear 0 [["x"%byte]] suspended = Some (a2, returned)
    /\ send_chunks 3 busy_at_1 2 [["b"%byte]] a2 = Some (a3, returned)
    /\ sent a3 = sent streaming ++ map send_binary (sentA ++ [["x"%byte]] ++ [["b"%byte]])
    /\ (forall r, send_chunks 3 busy_at_1 0 [["a"%byte]; ["b"%byte]] streaming = Some r ->
                  send_chunks 3 busy_at_1 2 [["b"%byte]] suspended = Some r).
Proof.
  apply (pieces_overtake_at_backpressure_wait 3 busy_at_1 always_clear
           [["a"%byte]; ["b"%byte]] [["x"%byte]] [["b"%byte]] 2 streaming suspended).
  - discriminate.
  - reflexivity.
  - intros t. reflexivity.
  - intros t. exists 0%nat. split; [lia|]. unfold BACKPRESSURE_HIGH. cbn. lia.
  - intros t. reflexivity.
  - intros t. exists 2%nat. split; [lia|].
    unfold busy_at_1, BACKPRESSURE_HIGH. cbn [ch_bufferedAmount].
    destruct (Nat.eqb_spec (t + 2) 1); lia.
Defined.

End ProducerOverlap.

(* ===================================================================== *)
(** ** A stop request that overlaps a frame                               *)
(* ===================================================================== *)

Module AggregatorOverlapStop.
Import Aggregator AggregatorFacts AggregatorOverlap AggregatorStream AggregatorFinalize.

(** *** A stop request, cut at the await of its single put *)

(** The handler of a stop request up to the point where [completeUpload]
    suspends on [s3.send(new PutObjectCommand(...))]: [Some command] then,
    the body concatenated before the call; [None] when the handler does not
    get there. *)
Definition stop_until_put : Async (option S3Command) :=
  st <- get ;;
  if closed st then ret None
  else if negb (is_set (key st)) then
    sendJSON (error "No active session to stop") ;;; ret None
  else if negb (usingMultipart st)
       then ret (Some (PutObjectCommand (key st)
                         (Buffer_concat (aggBuffers st) (aggBytes st))))
       else ret None.

(** The rest of that handler, from the moment the awaited call settles with
    [result]: [key] is read then, and the [finally] block runs last. *)
Definition stop_after_put (command : S3Command) (result : S3Result) : Async unit :=
  try_catch
    (try_finally
       (try_catch
          (modify (record (s3_send command result)) ;;;
           match result with
           | s3_error rejection => throw rejection
           | s3_ok _ =>
               st <- get ;;
               sendJSON (completed (single_put_location (key st)) (key st))
           end)
          (fun _ => sendJSON (error "Complete multipart failed")))
       (modify reset))
    (fun rejection => sendJSON (error (message_or_default rejection))).

(** *** A stop request, cut at the await of its last commit *)

(** The handler of a stop request up to the point where [flushPart(true)]
    suspends on [s3.send(new UploadPartCommand(...))]; [None] when the
    handler does not get there. *)
Definition stop_until_upload : Async (option (S3Command * Z)) :=
  st <- get ;;
  if closed st then ret None
  else if negb (is_set (key st)) then
    sendJSON (error "No active session to stop") ;;; ret None
  else if negb (usingMultipart st) then ret None
  else flush_until_upload true.

(** The rest of that handler: the rest of [flushPart], then the complete
    call with the parts that [session] holds then, and the [finally] block
    last. *)
Definition stop_after_upload (command : S3Command) (size : Z) (result : S3Result)
    : Async unit :=
  try_catch
    (try_finally
       (try_catch
          (flush_after_upload command size result ;;;
           st <- get ;;
           match session st with
           | None => throw (TypeError_null "uploadId")
           | Some s =>
               let sorted := sort_parts (parts s) in
               modify (set_session (Some {| session_key := session_key s;
                                            uploadId := uploadId s;
                                            parts := sorted |})) ;;;
               completeRes_Location <-
                 s3_await (CompleteMultipartUploadCommand (session_key s) (uploadId s)
                             sorted) ;;
               sendJSON (completed completeRes_Location (session_key s))
           end)
          (fun _ => sendJSON (error "Complete multipart failed")))
       (modify reset))
    (fun rejection => sendJSON (error (message_or_default rejection))).

Arguments stop_until_put : simpl never.
Arguments stop_after_put : simpl never.
Arguments stop_until_upload : simpl never.
Arguments stop_after_upload : simpl never.

(** Cutting the stop handler at the await of its single put changes nothing
    when the call settles at once. *)
Lemma stop_cut_at_put w st command st1 :
  stop_until_put w st = (Return (Some command), st1) ->
  on_message (text (parsed (Some "stop"%string))) w st
  = stop_after_put command (s3 w (length (trace st1)) command) w st1.
Proof.
  unfold stop_until_put, bind, get, ret. cbn. intros H.
  unfold on_message, bind, get. cbn.
  destruct (closed st); [discriminate|].
  unfold stop_after_put, try_catch, message_body, bind, ret. cbn.
  unfold on_stop, try_finally, try_catch, completeUpload, bind, get. cbn.
  destruct (is_set (key st)); cbn in H |- *.
  - destruct (usingMultipart st); cbn in H |- *; [discriminate|].
    injection H as <- <-. unfold s3_await, modify. cbn.
    destruct (s3 w _ _); cbn; reflexivity.
  - destruct (sendJSON _ w st) as [[[]|msg] st']; discriminate.
Qed.

(** Cutting the stop handler at the await of its last commit changes nothing
    when the call settles at once. *)
Lemma stop_cut_at_upload w st command size st1 :
  stop_until_upload w st = (Return (Some (command, size)), st1) ->
  on_message (text (parsed (Some "stop"%string))) w st
  = stop_after_upload command size (s3 w (length (trace st1)) command) w st1.
Proof.
  unfold stop_until_upload, bind, get, ret. cbn. intros H.
  unfold on_message, bind, get. cbn.
  destruct (closed st); [discriminate|].
  unfold stop_after_upload, try_catch, message_body, bind, ret. cbn.
  unfold on_stop, try_finally, try_catch, completeUpload, bind, get. cbn.
  destruct (is_set (key st)); cbn in H |- *.
  - destruct (usingMultipart st); cbn in H |- *; [|discriminate].
    apply flushPart_cut in H. rewrite H. reflexivity.
  - destruct (sendJSON _ w st) as [[[]|msg] st']; discriminate.
Qed.

(** The bodies handed to S3 are the bodies of its calls. *)
Lemma handed_calls tr :
  handed tr = flat_map (fun call => handed_body (s3_send (fst call) (snd call))) (s3_calls tr).
Proof.
  induction tr as [|e tr IH]; [reflexivity|].
  change (handed (e :: tr)) with (handed_body e ++ handed tr)%list. rewrite IH.
  destruct e as [command result|obj]; reflexivity.
Qed.

(** A commit that is due is made. *)
Lemma flushPart_due isFinal w st s :
  usingMultipart st = true -> session st = Some s -> aggBytes st <> 0 ->
  (isFinal = false -> MIN_PART_SIZE <= aggBytes st) ->
  snd (flushPart isFinal w st) = flushed w st s.
Proof.
  intros Hu Hs Hz Hmin. unfold flushPart, bind, get. cbn. rewrite Hu, Hs.
  destruct (Z.eqb_spec (aggBytes st) 0) as [|_]; [contradiction|].
  assert (Hsmall : negb isFinal && (aggBytes st <? MIN_PART_SIZE) = false).
  { destruct isFinal; [reflexivity|]. cbn. apply Z.ltb_ge, Hmin. reflexivity. }
  rewrite Hsmall.
  unfold flushed, modify, s3_await, push_part, bind, get. cbn.
  destruct (s3 w _ _) eqn:Hres; cbn; [|reflexivity].
  rewrite Hs. cbn. destruct (sendJSON _ w _) as [[] st']; reflexivity.
Qed.

Lemma s3_calls_flushed w st s :
  exists answer,
    s3_calls (trace (flushed w st s))
    = s3_calls (trace st)
      ++ [(UploadPartCommand (session_key s) (uploadId s) (partNumber st + 1)
             (Buffer_concat (aggBuffers st) (aggBytes st)), answer)].
Proof.
  unfold flushed.
  exists (s3 w (length (trace st))
            (UploadPartCommand (session_key s) (uploadId s) (partNumber st + 1)
               (Buffer_concat (aggBuffers st) (aggBytes st)))).
  destruct (s3 w _ _) as [etag|msg]; rewrite ?s3_calls_sendJSON; fields;
    rewrite s3_calls_app; reflexivity.
Qed.

(** The frame handler resumed in [startMultipart], the begin call accepted,
    with the target reached: it commits the whole buffer as a part. *)
Lemma frame_after_begin_commits w st upload_id :
  usingMultipart st = false -> TARGET_PART_SIZE <= aggBytes st ->
  exists answer,
    s3_calls (trace (snd (frame_after_begin (CreateMultipartUploadCommand (key st))
                            (s3_ok upload_id) w st)))
    = s3_calls (trace st)
      ++ [(CreateMultipartUploadCommand (key st), s3_ok upload_id);
          (UploadPartCommand (key st) upload_id (partNumber st + 1)
             (Buffer_concat (aggBuffers st) (aggBytes st)), answer)].
Proof.
  intros Hu Hbig.
  assert (Hleb : (TARGET_PART_SIZE <=? aggBytes st) = true) by (apply Z.leb_le; exact Hbig).
  unfold frame_after_begin, try_catch, bind, get, modify. cbn.
  match goal with
  | |- context [sendJSON ?o w ?s0] =>
      pose proof (sendJSON_fields o w s0) as (Hs1 & Hn1 & _ & Hbuf1 & Hb1 & Hu1 & _);
      pose proof (s3_calls_sendJSON o w s0) as Hcalls1;
      pose proof (sendJSON_Return o w s0) as Hr1;
      destruct (sendJSON o w s0) as [r st1]
  end.
  cbn [fst snd] in *. fields. subst r. rewrite Hu1, Hb1, Hleb. cbn [andb].
  rewrite s3_calls_app in Hcalls1. cbn [s3_calls flat_map app] in Hcalls1.
  pose proof (flushPart_due false w st1 _ Hu1 Hs1) as Hflush.
  destruct (s3_calls_flushed w st1
              {| session_key := key st; uploadId := upload_id; parts := [] |})
    as (answer & Hcalls2).
  exists answer. cbn [session_key uploadId] in Hcalls2.
  rewrite Hn1, Hbuf1, Hb1, Hcalls1, <- app_assoc in Hcalls2. cbn [app] in Hcalls2.
  rewrite <- Hcalls2, <- Hflush;
    [|rewrite Hb1; unfold TARGET_PART_SIZE in Hbig; lia
     |intros _; rewrite Hb1; unfold TARGET_PART_SIZE, MIN_PART_SIZE in *; lia].
  destruct (flushPart false w st1) as [[[]|msg] st2]; cbn [snd];
    [reflexivity | apply s3_calls_sendJSON].
Qed.

(** The stop handler resumed after its single put, the call accepted. *)
Lemma stop_after_put_ok w st command location :
  s3_calls (trace (snd (stop_after_put command (s3_ok location) w st)))
  = s3_calls (trace st) ++ [(command, s3_ok location)]
  /\ session (snd (stop_after_put command (s3_ok location) w st)) = None
  /\ key (snd (stop_after_put command (s3_ok location) w st)) = None.
Proof.
  unfold stop_after_put, try_catch, try_finally, bind, get, modify. cbn.
  match goal with
  | |- context [sendJSON ?o w ?s0] =>
      pose proof (s3_calls_sendJSON o w s0) as Hcalls;
      pose proof (sendJSON_Return o w s0) as Hr;
      destruct (sendJSON o w s0) as [r st1]
  end.
  cbn [fst snd] in *. subst r. cbn [fst snd]. fields.
  rewrite s3_calls_app in Hcalls. repeat split. exact Hcalls.
Qed.

(** X24: a stop request handled while a frame awaits the begin call.  Let a
    frame bring the buffer of an Undecided session to the 6 MiB target, so
    that its handler suspends in the begin-multipart call, and let the stop
    request be handled before that call settles: the mode is still
    Undecided, so the stop handler suspends in a single put of the whole
    buffer, which is not emptied before the [finally] block.  When the begin
    call is then accepted the frame handler goes on, finds the same buffer
    at the target and commits it as a part; when the put then settles the
    stop handler resets the session.  S3 has been handed the same bytes
    twice, once as a part of a multipart upload that is never completed and,
    the session being reset, never aborted, and once as the single object.
    (Were the put to settle at once, the cut stop handler is the stop handler
    run to its end.) *)
Theorem stop_during_begin_call (w : World) (st : State) (data : Buffer)
    (upload_id location : string) :
  closed st = false -> is_set (key st) = true -> usingMultipart st = false ->
  TARGET_PART_SIZE <= aggBytes st + Buffer_length data ->
  let body := Buffer_concat (aggBuffers st ++ [data]) (aggBytes st + Buffer_length data) in
  let create := CreateMultipartUploadCommand (key st) in
  let put := PutObjectCommand (key st) body in
  let part := UploadPartCommand (key st) upload_id (partNumber st + 1) body in
  exists st0 st1 st2 answer,
    frame_until_begin data w st = (Return (Some create), st0)
    /\ stop_until_put w st0 = (Return (Some put), st0)
    /\ on_message (text (parsed (Some "stop"%string))) w st0
       = stop_after_put put (s3 w (length (trace st0)) put) w st0
    /\ snd (frame_after_begin create (s3_ok upload_id) w st0) = st1
    /\ snd (stop_after_put put (s3_ok location) w st1) = st2
    /\ s3_calls (trace st2)
       = s3_calls (trace st)
         ++ [(create, s3_ok upload_id); (part, answer); (put, s3_ok location)]
    /\ handed (trace st2) = (handed (trace st) ++ body ++ body)%list
    /\ session st2 = None.
Proof.
  intros Hc Hk Hu Hbig body create put part.
  assert (Hmin : MIN_PART_SIZE <= aggBytes st + Buffer_length data)
    by (unfold TARGET_PART_SIZE, MIN_PART_SIZE in *; lia).
  pose proof (frame_until_begin_undecided w st data Hc Hk Hu Hmin) as Hcut.
  set (st0 := appended data st) in *.
  assert (Hput : stop_until_put w st0 = (Return (Some put), st0)).
  { unfold stop_until_put, bind, get, ret. cbn. rewrite Hc, Hk, Hu. reflexivity. }
  destruct (frame_after_begin_commits w st0 upload_id Hu Hbig) as (answer & Hcalls1).
  destruct (stop_after_put_ok w (snd (frame_after_begin create (s3_ok upload_id) w st0))
              put location) as (Hcalls2 & Hs2 & _).
  exists st0, (snd (frame_after_begin create (s3_ok upload_id) w st0)),
    (snd (stop_after_put put (s3_ok location) w
            (snd (frame_after_begin create (s3_ok upload_id) w st0)))), answer.
  split; [exact Hcut|]. split; [exact Hput|].
  split; [apply stop_cut_at_put; exact Hput|]. split; [reflexivity|].
  split; [reflexivity|].
  assert (Hall : s3_calls (trace (snd (stop_after_put put (s3_ok location) w
                    (snd (frame_after_begin create (s3_ok upload_id) w st0)))))
                 = s3_calls (trace st)
                   ++ [(create, s3_ok upload_id); (part, answer); (put, s3_ok location)]).
  { rewrite Hcalls2. change (key st0) with (key st) in Hcalls1.
    change (partNumber st0) with (partNumber st) in Hcalls1.
    change (Buffer_concat (aggBuffers st0) (aggBytes st0)) with body in Hcalls1.
    change (trace st0) with (trace st) in Hcalls1.
    fold create part in Hcalls1. rewrite Hcalls1, <- app_assoc. reflexivity. }
  split; [exact Hall|]. split; [|exact Hs2].
  rewrite handed_calls, Hall, flat_map_app, <- handed_calls.
  cbn. rewrite app_nil_r. reflexivity.
Qed.

Lemma stop_during_begin_call_witness :
  exists st0 st1 st2 answer,
    frame_until_begin (frame_of_size TARGET_PART_SIZE) fair_weather under_way
    = (Return (Some (CreateMultipartUploadCommand (key under_way))), st0)
    /\ snd (frame_after_begin (CreateMultipartUploadCommand (key under_way)) (s3_ok "u")
              fair_weather st0) = st1
    /\ snd (stop_after_put
              (PutObjectCommand (key under_way)
                 (Buffer_concat (aggBuffers under_way ++ [frame_of_size TARGET_PART_SIZE])
                    (aggBytes under_way + Buffer_length (frame_of_size TARGET_PART_SIZE))))
              (s3_ok "l") fair_weather st1) = st2
    /\ s3_calls (trace st2)
       = s3_calls (trace under_way)
         ++ [(CreateMultipartUploadCommand (key under_way), s3_ok "u"%string);
             (UploadPartCommand (key under_way) "u" (partNumber under_way + 1)
                (Buffer_concat (aggBuffers under_way ++ [frame_of_size TARGET_PART_SIZE])
                   (aggBytes under_way + Buffer_length (frame_of_size TARGET_PART_SIZE))),
              answer);
             (PutObjectCommand (key under_way)
                (Buffer_concat (aggBuffers under_way ++ [frame_of_size TARGET_PART_SIZE])
                   (aggBytes under_way + Buffer_length (frame_of_size TARGET_PART_SIZE))),
              s3_ok "l"%string)].
Proof.
  assert (Hlen : Buffer_length (frame_of_size TARGET_PART_SIZE) = TARGET_PART_SIZE)
    by (apply Buffer_length_frame; unfold TARGET_PART_SIZE; lia).
  destruct (stop_during_begin_call fair_weather under_way (frame_of_size TARGET_PART_SIZE)
              "u" "l")
    as (st0 & st1 & st2 & answer & Hcut & _ & _ & H1 & H2 & Hcalls & _).
  - reflexivity.
  - reflexivity.
  - reflexivity.
  - change (aggBytes under_way) with 0. lia.
  - exists st0, st1, st2, answer.
    split; [exact Hcut|]. split; [exact H1|]. split; [exact H2 | exact Hcalls].
Defined.

(** *** A frame handled while the stop handler awaits its last commit *)

(** The stop request that finds bytes in the buffer of a multipart session. *)
Lemma stop_until_upload_multipart w st s :
  closed st = false -> is_set (key st) = true ->
  usingMultipart st = true -> session st = Some s -> aggBytes st <> 0 ->
  stop_until_upload w st
  = (Return (Some (UploadPartCommand (session_key s) (uploadId s) (partNumber st + 1)
                     (Buffer_concat (aggBuffers st) (aggBytes st)),
                   Buffer_length (Buffer_concat (aggBuffers st) (aggBytes st)))),
     set_agg [] 0 (set_partNumber (partNumber st + 1) st)).
Proof.
  intros Hc Hk Hu Hs Hz.
  unfold stop_until_upload, flush_until_upload, bind, get, modify, ret. cbn.
  rewrite Hc, Hk. cbn. rewrite Hu. cbn. rewrite Hu, Hs.
  destruct (Z.eqb_spec (aggBytes st) 0); [contradiction | reflexivity].
Qed.

(** The stop handler resumed after its last commit, the call accepted: the
    part is recorded under the part number of that moment, and the complete
    call lists the parts that the session holds then. *)
Lemma stop_after_upload_ok w st s command size etag :
  session st = Some s ->
  exists answer,
    s3_calls (trace (snd (stop_after_upload command size (s3_ok etag) w st)))
    = s3_calls (trace st)
      ++ [(command, s3_ok etag);
          (CompleteMultipartUploadCommand (session_key s) (uploadId s)
             (sort_parts (parts s ++ [{| PartNumber := partNumber st; ETag := etag |}])),
           answer)]
    /\ session (snd (stop_after_upload command size (s3_ok etag) w st)) = None
    /\ key (snd (stop_after_upload command size (s3_ok etag) w st)) = None
    /\ closed (snd (stop_after_upload command size (s3_ok etag) w st)) = closed st.
Proof.
  intros Hs.
  unfold stop_after_upload, flush_after_upload, try_catch, try_finally, push_part, bind, get,
    modify.
  cbn. rewrite Hs. cbn.
  match goal with
  | |- context [sendJSON ?o w ?s0] =>
      pose proof (sendJSON_fields o w s0) as (Hs1 & _ & Hc1 & _);
      pose proof (s3_calls_sendJSON o w s0) as Hcalls1;
      pose proof (sendJSON_Return o w s0) as Hr1;
      destruct (sendJSON o w s0) as [r st1]
  end.
  cbn [fst snd] in *. fields. subst r. cbn [fst snd]. rewrite Hs1.
  cbn [session_key uploadId parts]. unfold s3_await. cbn.
  rewrite s3_calls_app in Hcalls1. cbn [s3_calls flat_map app] in Hcalls1.
  match goal with
  | |- context [match s3 w ?n ?c with _ => _ end] => destruct (s3 w n c) as [loc|msg] eqn:Hres
  end; cbn.
  - match goal with
    | |- context [sendJSON ?o w ?s0] =>
        pose proof (sendJSON_fields o w s0) as (_ & _ & Hc2 & _);
        pose proof (s3_calls_sendJSON o w s0) as Hcalls2;
        pose proof (sendJSON_Return o w s0) as Hr2;
        destruct (sendJSON o w s0) as [r st2]
    end.
    cbn [fst snd] in *. fields. subst r. cbn [fst snd]. fields.
    exists (s3_ok loc). rewrite Hcalls2, s3_calls_app, Hcalls1, <- app_assoc.
    repeat split. congruence.
  - match goal with
    | |- context [sendJSON ?o w ?s0] =>
        pose proof (sendJSON_fields o w s0) as (_ & _ & Hc2 & _);
        pose proof (s3_calls_sendJSON o w s0) as Hcalls2;
        pose proof (sendJSON_Return o w s0) as Hr2;
        destruct (sendJSON o w s0) as [r st2]
    end.
    cbn [fst snd] in *. fields. subst r. cbn [fst snd]. fields.
    exists (s3_error msg). rewrite Hcalls2, s3_calls_app, Hcalls1, <- app_assoc.
    repeat split. congruence.
Qed.

(** A frame handler resumed after its commit when the session has been reset
    meanwhile: [session.parts] is read of [null]. *)
Lemma frame_after_upload_no_session w st command size etag :
  session st = None ->
  fst (frame_after_upload command size (s3_ok etag) w st) = Return tt
  /\ session (snd (frame_after_upload command size (s3_ok etag) w st)) = None
  /\ trace (snd (frame_after_upload command size (s3_ok etag) w st))
     = trace st ++ s3_send command (s3_ok etag)
         :: (if ws_OPEN w (S (length (trace st)))
             then [ws_send (error "Cannot read properties of null (reading 'parts')")]
             else []).
Proof.
  intros Hs.
  unfold frame_after_upload, flush_after_upload, try_catch, push_part, bind, get, modify, throw.
  cbn. rewrite Hs. cbn. unfold sendJSON. cbn. rewrite length_app. cbn [length].
  rewrite Nat.add_1_r.
  destruct (ws_OPEN w (S (length (trace st)))); cbn; repeat split; try assumption.
  rewrite <- app_assoc. reflexivity.
Qed.

(** X25: a frame handled while the stop handler awaits its last commit.  In
    a multipart session with bytes left in the buffer, the stop handler
    suspends in the commit-part call for these bytes, numbered n + 1 and of
    any size above zero; the key is still set then.  Let a frame of 6 MiB or
    more be handled before that call settles: it is buffered, and its
    handler suspends in the commit-part call numbered n + 2, so the part of
    any size is not the last one committed.  When the first call is accepted
    the stop handler records its part under the number n + 2, makes the
    complete call with the parts recorded so far, the part in flight not
    among them, and resets the session.  When the second call is then
    accepted its handler reads [session.parts] of [null], and the message of
    that error is what the client is answered: the frame's bytes were
    uploaded as a part of an upload completed without them.  (Were the first
    call to settle at once, the cut stop handler is the stop handler run to
    its end.) *)
Theorem frame_during_last_commit (w : World) (st : State) (s : Session) (data : Buffer)
    (etag1 etag2 : string) :
  closed st = false -> is_set (key st) = true ->
  usingMultipart st = true -> session st = Some s ->
  aggBytes st <> 0 -> TARGET_PART_SIZE <= Buffer_length data ->
  let n := partNumber st in
  let body1 := Buffer_concat (aggBuffers st) (aggBytes st) in
  let body2 := Buffer_concat [data] (Buffer_length data) in
  let upload1 := UploadPartCommand (session_key s) (uploadId s) (n + 1) body1 in
  let upload2 := UploadPartCommand (session_key s) (uploadId s) (n + 2) body2 in
  exists st1 st2 st3 st4 answer,
    stop_until_upload w st = (Return (Some (upload1, Buffer_length body1)), st1)
    /\ on_message (text (parsed (Some "stop"%string))) w st
       = stop_after_upload upload1 (Buffer_length body1)
           (s3 w (length (trace st1)) upload1) w st1
    /\ frame_until_upload data w st1 = (Return (Some (upload2, Buffer_length body2)), st2)
    /\ snd (stop_after_upload upload1 (Buffer_length body1) (s3_ok etag1) w st2) = st3
    /\ s3_calls (trace st3)
       = s3_calls (trace st)
         ++ [(upload1, s3_ok etag1);
             (CompleteMultipartUploadCommand (session_key s) (uploadId s)
                (sort_parts (parts s ++ [{| PartNumber := n + 2; ETag := etag1 |}])),
              answer)]
    /\ session st3 = None
    /\ snd (frame_after_upload upload2 (Buffer_length body2) (s3_ok etag2) w st3) = st4
    /\ session st4 = None
    /\ trace st4
       = trace st3 ++ s3_send upload2 (s3_ok etag2)
           :: (if ws_OPEN w (S (length (trace st3)))
               then [ws_send (error "Cannot read properties of null (reading 'parts')")]
               else []).
Proof.
  intros Hc Hk Hu Hs Hz Hbig n body1 body2 upload1 upload2.
  pose proof (stop_until_upload_multipart w st s Hc Hk Hu Hs Hz) as Hcut1.
  set (st1 := set_agg [] 0 (set_partNumber (partNumber st + 1) st)) in *.
  assert (Hcut2 : frame_until_upload data w st1
                  = (Return (Some (upload2, Buffer_length body2)),
                     set_agg [] 0 (set_partNumber (partNumber st1 + 1) (appended data st1)))).
  { rewrite (frame_until_upload_multipart w st1 s data); try assumption; try reflexivity.
    unfold upload2, body2, n, st1. fields. cbn [app]. rewrite Z.add_0_l.
    replace (partNumber st + 1 + 1) with (partNumber st + 2) by lia. reflexivity. }
  set (st2 := set_agg [] 0 (set_partNumber (partNumber st1 + 1) (appended data st1))) in *.
  destruct (stop_after_upload_ok w st2 s upload1 (Buffer_length body1) etag1 Hs)
    as (answer & Hcalls & Hs3 & _ & _).
  destruct (frame_after_upload_no_session w
              (snd (stop_after_upload upload1 (Buffer_length body1) (s3_ok etag1) w st2))
              upload2 (Buffer_length body2) etag2 Hs3) as (_ & Hs4 & Htr4).
  exists st1, st2, (snd (stop_after_upload upload1 (Buffer_length body1) (s3_ok etag1) w st2)),
    (snd (frame_after_upload upload2 (Buffer_length body2) (s3_ok etag2) w
            (snd (stop_after_upload upload1 (Buffer_length body1) (s3_ok etag1) w st2)))),
    answer.
  split; [exact Hcut1|]. split; [apply stop_cut_at_upload; exact Hcut1|].
  split; [exact Hcut2|]. split; [reflexivity|].
  split.
  { rewrite Hcalls. replace (partNumber st2) with (n + 2) by (unfold st2, st1, n; fields; lia).
    reflexivity. }
  split; [exact Hs3|]. split; [reflexivity|]. split; [exact Hs4 | exact Htr4].
Qed.

Lemma frame_during_last_commit_witness :
  exists s st3 st4 answer,
    session uploading = Some s
    /\ s3_calls (trace st3)
       = s3_calls (trace uploading)
         ++ [(UploadPartCommand (session_key s) (uploadId s) (partNumber uploading + 1)
                (Buffer_concat (aggBuffers uploading) (aggBytes uploading)),
              s3_ok "e1"%string);
             (CompleteMultipartUploadCommand (session_key s) (uploadId s)
                (sort_parts (parts s ++ [{| PartNumber := partNumber uploading + 2;
                                            ETag := "e1" |}])),
              answer)]
    /\ session st3 = None
    /\ snd (frame_after_upload
              (UploadPartCommand (session_key s) (uploadId s) (partNumber uploading + 2)
                 (Buffer_concat [frame_of_size TARGET_PART_SIZE]
                    (Buffer_length (frame_of_size TARGET_PART_SIZE))))
              (Buffer_length (Buffer_concat [frame_of_size TARGET_PART_SIZE]
                                (Buffer_length (frame_of_size TARGET_PART_SIZE))))
              (s3_ok "e2") fair_weather st3) = st4
    /\ session st4 = None.
Proof.
  assert (H : exists s, session uploading = Some s
                        /\ closed uploading = false /\ is_set (key uploading) = true
                        /\ usingMultipart uploading = true
                        /\ aggBytes uploading = MIN_PART_SIZE).
  { unfold uploading. cbn [run fold_left].
    one_step idtac. one_step frame_sizes. eexists. repeat split. }
  destruct H as (s & Hs & Hc & Hk & Hu & Hbytes).
  assert (Hz : aggBytes uploading <> 0) by (rewrite Hbytes; discriminate).
  assert (Hbig : TARGET_PART_SIZE <= Buffer_length (frame_of_size TARGET_PART_SIZE)).
  { rewrite Buffer_length_frame; unfold TARGET_PART_SIZE; lia. }
  destruct (frame_during_last_commit fair_weather uploading s
              (frame_of_size TARGET_PART_SIZE) "e1" "e2" Hc Hk Hu Hs Hz Hbig)
    as (st1 & st2 & st3 & st4 & answer & _ & _ & _ & _ & Hcalls & Hs3 & H4 & Hs4 & _).
  exists s, st3, st4, answer.
  split; [exact Hs|]. split; [exact Hcalls|]. split; [exact Hs3|].
  split; [exact H4 | exact Hs4].
Defined.

End AggregatorOverlapStop.

Module ProducerOverlapStop.
Import Slicer Producer ProducerFacts ProducerStream.

(** *** The handler of a blob, cut at the await of its bytes *)

(** [recorder.ondataavailable] up to [await e.data.arrayBuffer()]: whether
    the handler gets there, the blob not empty and the session found ready. *)
Definition data_until_read (data : ArrayBuffer) (a : App) : bool :=
  if byteLength data =? 0 then false
  else if negb (sessionReadyRef a) then false
  else true.

(** The rest of the handler, from the moment the bytes are there: the flag
    is not read again. *)
Definition data_after_read (fuel : nat) (chan : nat -> Channel) (data : ArrayBuffer)
    (a : App) : option (App * Completion) :=
  match sliceIntoChunks fuel data (Some CHUNK_SIZE) with
  | None => None
  | Some chunks => send_chunks fuel chan 0 chunks a
  end.

(** Cutting the handler at that await changes nothing when no other handler
    runs meanwhile. *)
Lemma data_cut_at_read fuel chan data a :
  data_until_read data a = true ->
  ondataavailable fuel chan data a = data_after_read fuel chan data a.
Proof.
  unfold data_until_read, ondataavailable, data_after_read.
  destruct (byteLength data =? 0); [discriminate|].
  destruct (negb (sessionReadyRef a)); [discriminate | reflexivity].
Qed.

(** X26: a blob can be sent after the stop message.  Let the handler of a
    blob that is not empty find the session ready and suspend in
    [await e.data.arrayBuffer()], and let Stop be clicked before the bytes
    are there: the click sends the stop message and takes the flag down, but
    the suspended handler does not read the flag again.  When it resumes, on
    a socket that is open and drains, it sends all the pieces of its blob:
    the socket is handed the stop message first and the pieces after it.
    (When no other handler runs meanwhile, the cut handler is the handler run
    to its end.) *)
Theorem blob_sent_after_stop (fuel : nat) (chan : nat -> Channel) (data : ArrayBuffer)
    (a : App) :
  status a = Recording -> ws_is_open a = true -> sessionReadyRef a = true ->
  data <> [] -> (length data < fuel)%nat ->
  stays_open chan -> drains_within fuel chan ->
  data_until_read data a = true
  /\ ondataavailable fuel chan data a = data_after_read fuel chan data a
  /\ exists a2 pieces,
       data_after_read fuel chan data (step click_Stop a) = Some (a2, returned)
       /\ sent a2 = sent a ++ send_stop :: map send_binary pieces
       /\ concat pieces = data /\ pieces <> []
       /\ Forall (fun p => 0 < byteLength p <= CHUNK_SIZE) pieces.
Proof.
  intros Hst Hopen Hready Hne Hfuel Hstays Hdrain.
  assert (Hcut : data_until_read data a = true).
  { unfold data_until_read. rewrite Hready.
    destruct (Z.eqb_spec (byteLength data) 0) as [Hz|_]; [|reflexivity].
    destruct data; [contradiction | unfold byteLength in Hz; cbn in Hz; lia]. }
  split; [exact Hcut|]. split; [apply data_cut_at_read; exact Hcut|].
  destruct (stop_sends_stop a Hst Hopen) as (Hsent & _ & _).
  assert (Hws : wsRef (step click_Stop a) <> None).
  { rewrite stopRecording_open by assumption.
    assert (Hsame : wsRef (set_sessionReadyRef false
                             (ws_send send_stop (stopRecorderLocal (setStatus Stopping a))))
                    = wsRef a).
    { unfold stopRecorderLocal. cbn [recorderRef setStatus].
      destruct (recorderRef a) as [[]|]; reflexivity. }
    rewrite Hsame. unfold ws_is_open in Hopen.
    destruct (wsRef a); [discriminate | discriminate Hopen]. }
  destruct (sliceIntoChunks_pieces data CHUNK_SIZE fuel) as (pieces & Hslice & Hcat & Hall);
    [unfold CHUNK_SIZE; lia | exact Hfuel |].
  destruct (send_chunks_all fuel chan pieces Hstays Hdrain 0%nat (step click_Stop a) Hws)
    as (a2 & Hrun & Hsent2 & _).
  exists a2, pieces. unfold data_after_read. rewrite Hslice.
  split; [exact Hrun|]. split.
  { rewrite Hsent2, Hsent, <- app_assoc. reflexivity. }
  split; [exact Hcat|]. split; [|exact Hall].
  intros ->. cbn in Hcat. congruence.
Qed.

Lemma blob_sent_after_stop_witness :
  exists a2 pieces,
    data_after_read 4 always_clear ["a"; "b"; "c"]%byte (step click_Stop streaming)
    = Some (a2, returned)
    /\ sent a2 = sent streaming ++ send_stop :: map send_binary pieces
    /\ concat pieces = ["a"; "b"; "c"]%byte.
Proof.
  destruct (blob_sent_after_stop 4 always_clear ["a"; "b"; "c"]%byte streaming)
    as (_ & _ & a2 & pieces & Hrun & Hsent & Hcat & _).
  - reflexivity.
  - reflexivity.
  - reflexivity.
  - discriminate.
  - cbn. lia.
  - intros t. reflexivity.
  - intros t. exists 0%nat. split; [lia|]. unfold BACKPRESSURE_HIGH. cbn. lia.
  - exists a2, pieces. split; [exact Hrun|]. split; [exact Hsent | exact Hcat].
Defined.

End ProducerOverlapStop.
